(** * Open and recovery of the database (db/db_impl/db_impl_open.cc)

    A shallow embedding of the open-and-recover path of the engine:
    option sanitization and validation, bootstrap of a fresh database
    ([NewDB]), manifest and WAL recovery ([Recover], [RecoverLogFiles]) and
    the go-live part of [DBImpl::Open].

    The collaborators that live outside db_impl_open.cc (file system,
    version set, log reader, write-batch insertion, table builder, WAL
    filter) are a record of operations, [Collab]; the functions of the file
    are written against it, in the order of the source.  Calls that change
    something outside the process-local variables are recorded, in order, in
    the [trace] of the database object. *)

From stdpp Require Import base decidable option list sorting strings gmap.
From Stdlib Require Import ZArith Lia Ascii.

Local Open Scope Z_scope.

(** ** Status *)

Inductive Code :=
| kOk | kNotFound | kCorruption | kNotSupported
| kInvalidArgument | kIOError | kAborted | kBusy.

#[global] Instance Code_eq_dec : EqDecision Code.
Proof. solve_decision. Defined.

Record Status := mkStatus { code : Code; state : string }.

#[global] Instance Status_eq_dec : EqDecision Status.
Proof. solve_decision. Defined.

Module St.
Definition OK : Status := mkStatus kOk "".
Definition NotFound (m : string) := mkStatus kNotFound m.
Definition Corruption (m : string) := mkStatus kCorruption m.
Definition NotSupported (m : string) := mkStatus kNotSupported m.
Definition InvalidArgument (m : string) := mkStatus kInvalidArgument m.
Definition IOError (m : string) := mkStatus kIOError m.
(** The two-message constructors of the source join both parts. *)
Definition msg2 (m m2 : string) : string := m +:+ ": " +:+ m2.
(** [Status::ToString()]: the kind, then the message. *)
Definition ToString (s : Status) : string :=
  match code s with
  | kOk => "OK"
  | kNotFound => "NotFound: " +:+ state s
  | kCorruption => "Corruption: " +:+ state s
  | kNotSupported => "Not implemented: " +:+ state s
  | kInvalidArgument => "Invalid argument: " +:+ state s
  | kIOError => "IO error: " +:+ state s
  | kAborted => "Operation aborted: " +:+ state s
  | kBusy => "Resource busy: " +:+ state s
  end.
End St.

Definition ok (s : Status) : bool := bool_decide (code s = kOk).
Definition IsNotFound (s : Status) : bool := bool_decide (code s = kNotFound).
Definition IsNotSupported (s : Status) : bool :=
  bool_decide (code s = kNotSupported).

(** ** Numbers

    File numbers, log numbers and sequence numbers are [uint64_t]; they are
    integers here and the two places where the source does arithmetic on
    them wrap around explicitly. *)

Definition wrap64 (z : Z) : Z := z mod 2 ^ 64.

(** [kMaxSequenceNumber] is declared in db/dbformat.h as
    [((0x1ull << 56) - 1)]. *)
Definition kMaxSequenceNumber : Z := 2 ^ 56 - 1.

(** ** Options *)

Inductive WALRecoveryMode :=
| kTolerateCorruptedTailRecords
| kAbsoluteConsistency
| kPointInTimeRecovery
| kSkipAnyCorruptedRecords.

#[global] Instance WALRecoveryMode_eq_dec : EqDecision WALRecoveryMode.
Proof. solve_decision. Defined.

Record DbPath := mkDbPath { path : string; target_size : Z }.

Record DBOptions := mkDBOptions {
  max_open_files : Z;
  (* [write_buffer_manager]: [None] is the null pointer, [Some n] a manager
     of size [n] *)
  write_buffer_manager : option Z;
  db_write_buffer_size : Z;
  (* [rate_limiter]: [None] is the null pointer, [Some r] a limiter whose
     [GetBytesPerSecond()] is [r] *)
  rate_limiter : option Z;
  bytes_per_sync : Z;
  delayed_write_rate : Z;
  WAL_ttl_seconds : Z;
  WAL_size_limit_MB : Z;
  recycle_log_file_num : Z;
  wal_recovery_mode : WALRecoveryMode;
  wal_dir : string;
  db_paths : list DbPath;
  use_direct_reads : bool;
  compaction_readahead_size : Z;
  new_table_reader_for_compaction_inputs : bool;
  allow_2pc : bool;
  avoid_flush_during_recovery : bool;
  paranoid_checks : bool;
  skip_checking_sst_file_sizes_on_db_open : bool;
  allow_mmap_reads : bool;
  allow_mmap_writes : bool;
  use_direct_io_for_flush_and_compaction : bool;
  keep_log_file_num : Z;
  unordered_write : bool;
  allow_concurrent_memtable_write : bool;
  enable_pipelined_write : bool;
  atomic_flush : bool;
  create_if_missing : bool;
  create_missing_column_families : bool;
  error_if_exists : bool;
  write_dbid_to_manifest : bool;
  persist_stats_to_disk : bool
}.

(** Modelled from the spec: [ClipToRange] is a helper of db_impl.h, not of
    this file; the spec has it clamp a value to the interval
    [[minvalue, maxvalue]]: a value above [maxvalue] becomes [maxvalue], a
    value below [minvalue] becomes [minvalue]. *)
Definition ClipToRange (v minvalue maxvalue : Z) : Z :=
  Z.max minvalue (Z.min v maxvalue).

(** [s.back()] and [s.substr(0, s.size() - 1)] of [std::string]. *)
Fixpoint string_back (s : string) : option Ascii.ascii :=
  match s with
  | EmptyString => None
  | String c EmptyString => Some c
  | String _ s' => string_back s'
  end.

Fixpoint string_pop_back (s : string) : string :=
  match s with
  | EmptyString => EmptyString
  | String _ EmptyString => EmptyString
  | String c s' => String c (string_pop_back s')
  end.

Definition string_empty (s : string) : bool :=
  match s with EmptyString => true | _ => false end.

(** One field update per assignment of [SanitizeOptions]. *)
Definition set_max_open_files (v : Z) (o : DBOptions) : DBOptions :=
  mkDBOptions v (write_buffer_manager o) (db_write_buffer_size o)
    (rate_limiter o) (bytes_per_sync o) (delayed_write_rate o)
    (WAL_ttl_seconds o) (WAL_size_limit_MB o) (recycle_log_file_num o)
    (wal_recovery_mode o) (wal_dir o) (db_paths o) (use_direct_reads o)
    (compaction_readahead_size o) (new_table_reader_for_compaction_inputs o)
    (allow_2pc o) (avoid_flush_during_recovery o) (paranoid_checks o)
    (skip_checking_sst_file_sizes_on_db_open o) (allow_mmap_reads o)
    (allow_mmap_writes o) (use_direct_io_for_flush_and_compaction o)
    (keep_log_file_num o) (unordered_write o)
    (allow_concurrent_memtable_write o) (enable_pipelined_write o)
    (atomic_flush o) (create_if_missing o) (create_missing_column_families o)
    (error_if_exists o) (write_dbid_to_manifest o) (persist_stats_to_disk o).

Definition set_write_buffer_manager (v : option Z) (o : DBOptions) :=
  mkDBOptions (max_open_files o) v (db_write_buffer_size o)
    (rate_limiter o) (bytes_per_sync o) (delayed_write_rate o)
    (WAL_ttl_seconds o) (WAL_size_limit_MB o) (recycle_log_file_num o)
    (wal_recovery_mode o) (wal_dir o) (db_paths o) (use_direct_reads o)
    (compaction_readahead_size o) (new_table_reader_for_compaction_inputs o)
    (allow_2pc o) (avoid_flush_during_recovery o) (paranoid_checks o)
    (skip_checking_sst_file_sizes_on_db_open o) (allow_mmap_reads o)
    (allow_mmap_writes o) (use_direct_io_for_flush_and_compaction o)
    (keep_log_file_num o) (unordered_write o)
    (allow_concurrent_memtable_write o) (enable_pipelined_write o)
    (atomic_flush o) (create_if_missing o) (create_missing_column_families o)
    (error_if_exists o) (write_dbid_to_manifest o) (persist_stats_to_disk o).

Definition set_bytes_per_sync (v : Z) (o : DBOptions) :=
  mkDBOptions (max_open_files o) (write_buffer_manager o)
    (db_write_buffer_size o) (rate_limiter o) v (delayed_write_rate o)
    (WAL_ttl_seconds o) (WAL_size_limit_MB o) (recycle_log_file_num o)
    (wal_recovery_mode o) (wal_dir o) (db_paths o) (use_direct_reads o)
    (compaction_readahead_size o) (new_table_reader_for_compaction_inputs o)
    (allow_2pc o) (avoid_flush_during_recovery o) (paranoid_checks o)
    (skip_checking_sst_file_sizes_on_db_open o) (allow_mmap_reads o)
    (allow_mmap_writes o) (use_direct_io_for_flush_and_compaction o)
    (keep_log_file_num o) (unordered_write o)
    (allow_concurrent_memtable_write o) (enable_pipelined_write o)
    (atomic_flush o) (create_if_missing o) (create_missing_column_families o)
    (error_if_exists o) (write_dbid_to_manifest o) (persist_stats_to_disk o).

Definition set_delayed_write_rate (v : Z) (o : DBOptions) :=
  mkDBOptions (max_open_files o) (write_buffer_manager o)
    (db_write_buffer_size o) (rate_limiter o) (bytes_per_sync o) v
    (WAL_ttl_seconds o) (WAL_size_limit_MB o) (recycle_log_file_num o)
    (wal_recovery_mode o) (wal_dir o) (db_paths o) (use_direct_reads o)
    (compaction_readahead_size o) (new_table_reader_for_compaction_inputs o)
    (allow_2pc o) (avoid_flush_during_recovery o) (paranoid_checks o)
    (skip_checking_sst_file_sizes_on_db_open o) (allow_mmap_reads o)
    (allow_mmap_writes o) (use_direct_io_for_flush_and_compaction o)
    (keep_log_file_num o) (unordered_write o)
    (allow_concurrent_memtable_write o) (enable_pipelined_write o)
    (atomic_flush o) (create_if_missing o) (create_missing_column_families o)
    (error_if_exists o) (write_dbid_to_manifest o) (persist_stats_to_disk o).

Definition set_recycle_log_file_num (v : Z) (o : DBOptions) :=
  mkDBOptions (max_open_files o) (write_buffer_manager o)
    (db_write_buffer_size o) (rate_limiter o) (bytes_per_sync o)
    (delayed_write_rate o) (WAL_ttl_seconds o) (WAL_size_limit_MB o) v
    (wal_recovery_mode o) (wal_dir o) (db_paths o) (use_direct_reads o)
    (compaction_readahead_size o) (new_table_reader_for_compaction_inputs o)
    (allow_2pc o) (avoid_flush_during_recovery o) (paranoid_checks o)
    (skip_checking_sst_file_sizes_on_db_open o) (allow_mmap_reads o)
    (allow_mmap_writes o) (use_direct_io_for_flush_and_compaction o)
    (keep_log_file_num o) (unordered_write o)
    (allow_concurrent_memtable_write o) (enable_pipelined_write o)
    (atomic_flush o) (create_if_missing o) (create_missing_column_families o)
    (error_if_exists o) (write_dbid_to_manifest o) (persist_stats_to_disk o).

Definition set_wal_dir (v : string) (o : DBOptions) :=
  mkDBOptions (max_open_files o) (write_buffer_manager o)
    (db_write_buffer_size o) (rate_limiter o) (bytes_per_sync o)
    (delayed_write_rate o) (WAL_ttl_seconds o) (WAL_size_limit_MB o)
    (recycle_log_file_num o) (wal_recovery_mode o) v (db_paths o)
    (use_direct_reads o) (compaction_readahead_size o)
    (new_table_reader_for_compaction_inputs o) (allow_2pc o)
    (avoid_flush_during_recovery o) (paranoid_checks o)
    (skip_checking_sst_file_sizes_on_db_open o) (allow_mmap_reads o)
    (allow_mmap_writes o) (use_direct_io_for_flush_and_compaction o)
    (keep_log_file_num o) (unordered_write o)
    (allow_concurrent_memtable_write o) (enable_pipelined_write o)
    (atomic_flush o) (create_if_missing o) (create_missing_column_families o)
    (error_if_exists o) (write_dbid_to_manifest o) (persist_stats_to_disk o).

Definition set_db_paths (v : list DbPath) (o : DBOptions) :=
  mkDBOptions (max_open_files o) (write_buffer_manager o)
    (db_write_buffer_size o) (rate_limiter o) (bytes_per_sync o)
    (delayed_write_rate o) (WAL_ttl_seconds o) (WAL_size_limit_MB o)
    (recycle_log_file_num o) (wal_recovery_mode o) (wal_dir o) v
    (use_direct_reads o) (compaction_readahead_size o)
    (new_table_reader_for_compaction_inputs o) (allow_2pc o)
    (avoid_flush_during_recovery o) (paranoid_checks o)
    (skip_checking_sst_file_sizes_on_db_open o) (allow_mmap_reads o)
    (allow_mmap_writes o) (use_direct_io_for_flush_and_compaction o)
    (keep_log_file_num o) (unordered_write o)
    (allow_concurrent_memtable_write o) (enable_pipelined_write o)
    (atomic_flush o) (create_if_missing o) (create_missing_column_families o)
    (error_if_exists o) (write_dbid_to_manifest o) (persist_stats_to_disk o).

Definition set_compaction_readahead_size (v : Z) (o : DBOptions) :=
  mkDBOptions (max_open_files o) (write_buffer_manager o)
    (db_write_buffer_size o) (rate_limiter o) (bytes_per_sync o)
    (delayed_write_rate o) (WAL_ttl_seconds o) (WAL_size_limit_MB o)
    (recycle_log_file_num o) (wal_recovery_mode o) (wal_dir o) (db_paths o)
    (use_direct_reads o) v (new_table_reader_for_compaction_inputs o)
    (allow_2pc o) (avoid_flush_during_recovery o) (paranoid_checks o)
    (skip_checking_sst_file_sizes_on_db_open o) (allow_mmap_reads o)
    (allow_mmap_writes o) (use_direct_io_for_flush_and_compaction o)
    (keep_log_file_num o) (unordered_write o)
    (allow_concurrent_memtable_write o) (enable_pipelined_write o)
    (atomic_flush o) (create_if_missing o) (create_missing_column_families o)
    (error_if_exists o) (write_dbid_to_manifest o) (persist_stats_to_disk o).

Definition set_new_table_reader_for_compaction_inputs (v : bool)
    (o : DBOptions) :=
  mkDBOptions (max_open_files o) (write_buffer_manager o)
    (db_write_buffer_size o) (rate_limiter o) (bytes_per_sync o)
    (delayed_write_rate o) (WAL_ttl_seconds o) (WAL_size_limit_MB o)
    (recycle_log_file_num o) (wal_recovery_mode o) (wal_dir o) (db_paths o)
    (use_direct_reads o) (compaction_readahead_size o) v
    (allow_2pc o) (avoid_flush_during_recovery o) (paranoid_checks o)
    (skip_checking_sst_file_sizes_on_db_open o) (allow_mmap_reads o)
    (allow_mmap_writes o) (use_direct_io_for_flush_and_compaction o)
    (keep_log_file_num o) (unordered_write o)
    (allow_concurrent_memtable_write o) (enable_pipelined_write o)
    (atomic_flush o) (create_if_missing o) (create_missing_column_families o)
    (error_if_exists o) (write_dbid_to_manifest o) (persist_stats_to_disk o).

Definition set_avoid_flush_during_recovery (v : bool) (o : DBOptions) :=
  mkDBOptions (max_open_files o) (write_buffer_manager o)
    (db_write_buffer_size o) (rate_limiter o) (bytes_per_sync o)
    (delayed_write_rate o) (WAL_ttl_seconds o) (WAL_size_limit_MB o)
    (recycle_log_file_num o) (wal_recovery_mode o) (wal_dir o) (db_paths o)
    (use_direct_reads o) (compaction_readahead_size o)
    (new_table_reader_for_compaction_inputs o) (allow_2pc o) v
    (paranoid_checks o) (skip_checking_sst_file_sizes_on_db_open o)
    (allow_mmap_reads o) (allow_mmap_writes o)
    (use_direct_io_for_flush_and_compaction o) (keep_log_file_num o)
    (unordered_write o) (allow_concurrent_memtable_write o)
    (enable_pipelined_write o) (atomic_flush o) (create_if_missing o)
    (create_missing_column_families o) (error_if_exists o)
    (write_dbid_to_manifest o) (persist_stats_to_disk o).

Definition set_skip_checking_sst_file_sizes_on_db_open (v : bool)
    (o : DBOptions) :=
  mkDBOptions (max_open_files o) (write_buffer_manager o)
    (db_write_buffer_size o) (rate_limiter o) (bytes_per_sync o)
    (delayed_write_rate o) (WAL_ttl_seconds o) (WAL_size_limit_MB o)
    (recycle_log_file_num o) (wal_recovery_mode o) (wal_dir o) (db_paths o)
    (use_direct_reads o) (compaction_readahead_size o)
    (new_table_reader_for_compaction_inputs o) (allow_2pc o)
    (avoid_flush_during_recovery o) (paranoid_checks o) v
    (allow_mmap_reads o) (allow_mmap_writes o)
    (use_direct_io_for_flush_and_compaction o) (keep_log_file_num o)
    (unordered_write o) (allow_concurrent_memtable_write o)
    (enable_pipelined_write o) (atomic_flush o) (create_if_missing o)
    (create_missing_column_families o) (error_if_exists o)
    (write_dbid_to_manifest o) (persist_stats_to_disk o).

(** ** Option sanitizer: [SanitizeOptions(dbname, DBOptions)]

    One definition per block of the function, in the order of the
    source; each takes [result] and gives it back. *)

(** [GetMaxOpenFiles] is the value [port::GetMaxOpenFiles()] reports
    ([-1] when the platform has no limit to report). *)
Definition sanitize_max_open_files (GetMaxOpenFiles : Z)
    (result : DBOptions) : DBOptions :=
  (* result.max_open_files means an "infinite" open files. *)
  if bool_decide (max_open_files result <> -1) then
    let max_max_open_files := GetMaxOpenFiles in
    let max_max_open_files :=
      if bool_decide (max_max_open_files = -1) then 4194304 (* 0x400000 *)
      else max_max_open_files in
    set_max_open_files
      (ClipToRange (max_open_files result) 20 max_max_open_files) result
  else result.

Definition sanitize_write_buffer_manager (result : DBOptions) : DBOptions :=
  match write_buffer_manager result with
  | None => set_write_buffer_manager (Some (db_write_buffer_size result))
              result
  | Some _ => result
  end.

Definition sanitize_bytes_per_sync (result : DBOptions) : DBOptions :=
  match rate_limiter result with
  | Some _ =>
      if bool_decide (bytes_per_sync result = 0)
      then set_bytes_per_sync (1024 * 1024) result else result
  | None => result
  end.

Definition sanitize_delayed_write_rate (result : DBOptions) : DBOptions :=
  if bool_decide (delayed_write_rate result = 0) then
    let result :=
      match rate_limiter result with
      | Some r => set_delayed_write_rate r result
      | None => result
      end in
    if bool_decide (delayed_write_rate result = 0)
    then set_delayed_write_rate (16 * 1024 * 1024) result else result
  else result.

Definition sanitize_recycle_log_file_num (result : DBOptions) : DBOptions :=
  let result :=
    if bool_decide (WAL_ttl_seconds result > 0)
       || bool_decide (WAL_size_limit_MB result > 0)
    then set_recycle_log_file_num 0 result else result in
  if bool_decide (recycle_log_file_num result <> 0)
     && (bool_decide (wal_recovery_mode result = kPointInTimeRecovery)
         || bool_decide (wal_recovery_mode result = kAbsoluteConsistency))
  then
    (* kPointInTimeRecovery is inconsistent with recycle log file feature
       since we define the "end" of the log as the first corrupt record we
       encounter.  kAbsoluteConsistency doesn't make sense because even a
       clean shutdown leaves old junk at the end of the log file. *)
    set_recycle_log_file_num 0 result
  else result.

Definition sanitize_wal_dir (dbname : string) (result : DBOptions)
    : DBOptions :=
  let result :=
    if string_empty (wal_dir result)
    then (* Use dbname as default *) set_wal_dir dbname result
    else result in
  if bool_decide (string_back (wal_dir result) = Some "/"%char)
  then set_wal_dir (string_pop_back (wal_dir result)) result else result.

Definition sanitize_db_paths (dbname : string) (result : DBOptions)
    : DBOptions :=
  match db_paths result with
  | [] => set_db_paths [mkDbPath dbname (2 ^ 64 - 1)] result
  | _ => result
  end.

Definition sanitize_compaction_readahead (result : DBOptions) : DBOptions :=
  let result :=
    if use_direct_reads result
       && bool_decide (compaction_readahead_size result = 0)
    then set_compaction_readahead_size (1024 * 1024 * 2) result
    else result in
  if bool_decide (compaction_readahead_size result > 0)
     || use_direct_reads result
  then set_new_table_reader_for_compaction_inputs true result
  else result.

Definition sanitize_avoid_flush_during_recovery (result : DBOptions)
    : DBOptions :=
  (* Force flush on DB open if 2PC is enabled, since with 2PC we have no
     guarantee that consecutive log files have consecutive sequence id,
     which make recovery complicated. *)
  if allow_2pc result then set_avoid_flush_during_recovery false result
  else result.

Definition sanitize_paranoid_checks (result : DBOptions) : DBOptions :=
  if negb (paranoid_checks result)
  then set_skip_checking_sst_file_sizes_on_db_open true result
  else result.

(** The function returns the sanitized record; what the source does
    besides to the environment (default file system and logger, thread-pool
    sizes, removal of [*.log.trash] files, default SST file manager) does
    not change a field kept here. *)
Definition SanitizeOptions (GetMaxOpenFiles : Z) (dbname : string)
    (src : DBOptions) : DBOptions :=
  let result := src in
  let result := sanitize_max_open_files GetMaxOpenFiles result in
  let result := sanitize_write_buffer_manager result in
  let result := sanitize_bytes_per_sync result in
  let result := sanitize_delayed_write_rate result in
  let result := sanitize_recycle_log_file_num result in
  let result := sanitize_wal_dir dbname result in
  let result := sanitize_db_paths dbname result in
  let result := sanitize_compaction_readahead result in
  let result := sanitize_avoid_flush_during_recovery result in
  let result := sanitize_paranoid_checks result in
  result.

(** ** Option validator: [DBImpl::ValidateOptions(const DBOptions&)] *)
Definition ValidateOptions (db_options : DBOptions) : Status :=
  if bool_decide (Z.of_nat (length (db_paths db_options)) > 4) then
    St.NotSupported "More than four DB paths are not supported yet. "
  else if allow_mmap_reads db_options && use_direct_reads db_options then
    St.NotSupported
      ("If memory mapped reads (allow_mmap_reads) are enabled " +:+
       "then direct I/O reads (use_direct_reads) must be disabled. ")
  else if allow_mmap_writes db_options
          && use_direct_io_for_flush_and_compaction db_options then
    St.NotSupported
      ("If memory mapped writes (allow_mmap_writes) are enabled " +:+
       "then direct I/O writes (use_direct_io_for_flush_and_compaction) " +:+
       "must be disabled. ")
  else if bool_decide (keep_log_file_num db_options = 0) then
    St.InvalidArgument "keep_log_file_num must be greater than 0"
  else if unordered_write db_options
          && negb (allow_concurrent_memtable_write db_options) then
    St.InvalidArgument
      "unordered_write is incompatible with !allow_concurrent_memtable_write"
  else if unordered_write db_options && enable_pipelined_write db_options then
    St.InvalidArgument
      "unordered_write is incompatible with enable_pipelined_write"
  else if atomic_flush db_options && enable_pipelined_write db_options then
    St.InvalidArgument
      "atomic_flush is incompatible with enable_pipelined_write"
  else St.OK.

(** ** Data of the recovery path *)

(** File names are built by file/filename.cc from the database name (or
    the WAL directory) and a number; they are kept symbolic. *)
Inductive FileName :=
| CurrentFileName
| LockFileName
| IdentityFileName
| DescriptorFileName (number : Z)
| LogFileName (number : Z).

#[global] Instance FileName_eq_dec : EqDecision FileName.
Proof. solve_decision. Defined.

Inductive FileType :=
| kLogFile | kDBLockFile | kTableFile | kDescriptorFile | kCurrentFile
| kTempFile | kInfoLogFile | kMetaDatabase | kIdentityFile | kOptionsFile
| kBlobFile.

#[global] Instance FileType_eq_dec : EqDecision FileType.
Proof. solve_decision. Defined.

(** A write batch as recovery reads it: the sequence number and the count
    of its header ([WriteBatchInternal::Sequence], [Count]) and its
    updates, each for a column family id. *)
Record WriteBatch := mkWriteBatch {
  Sequence : Z;
  Count : Z;
  updates : list (Z * string)
}.

#[global] Instance WriteBatch_eq_dec : EqDecision WriteBatch.
Proof. solve_decision. Defined.

(** [WriteBatchInternal::SetSequence] *)
Definition SetSequence (b : WriteBatch) (seq : Z) : WriteBatch :=
  mkWriteBatch seq (Count b) (updates b).

(** A default-constructed [WriteBatch]. *)
Definition empty_WriteBatch : WriteBatch := mkWriteBatch 0 0 [].

(** [WriteBatchInternal::kHeader]: 8 bytes of sequence number and 4 bytes
    of count (db/write_batch_internal.h). *)
Definition kHeader : Z := 12.

(** A record handed out by the log reader: its size, and the batch
    [WriteBatchInternal::SetContents] makes of it (meaningful from
    [kHeader] bytes on). *)
Record Slice := mkSlice { size : Z; contents : WriteBatch }.

(** One call of [reader.ReadRecord]: the corruption reports the reader
    sends to its reporter during the call, and the record it returns
    ([None] when the call returns false). *)
Record ReadRecord := mkReadRecord {
  reported : list (Z * Status);
  record : option Slice
}.

Inductive WalProcessingOption :=
| kContinueProcessing
| kIgnoreCurrentRecord
| kStopReplay
| kCorruptedRecord
| kWalProcessingOptionMax.

(** The [WalFilter] interface (rocksdb/wal_filter.h), as recovery calls
    it: [LogRecordFound log_number batch] gives the processing option,
    [new_batch] and [batch_changed]. *)
Record WalFilter := mkWalFilter {
  LogRecordFound : Z -> WriteBatch -> WalProcessingOption * WriteBatch * bool;
  Name : string
}.

Record FileMetaData := mkFileMetaData { fd_number : Z; fd_file_size : Z }.

#[global] Instance FileMetaData_eq_dec : EqDecision FileMetaData.
Proof. solve_decision. Defined.

Record VersionEdit := mkVersionEdit {
  ve_column_family : Z;
  ve_log_number : option Z;
  ve_next_file : option Z;
  ve_last_sequence : option Z;
  ve_db_id : option string;
  ve_new_files : list FileMetaData
}.

#[global] Instance VersionEdit_eq_dec : EqDecision VersionEdit.
Proof. solve_decision. Defined.

Definition new_VersionEdit : VersionEdit :=
  mkVersionEdit 0 None None None None [].

(** Calls that reach outside the local variables of the functions, in the
    order they are made. *)
Inductive Event :=
| EvCreateDirIfMissing (dir : string)
| EvNewDirectory (dir : string)
| EvCreateArchivalDirectory
| EvLockFile
| EvSetIdentityFile
| EvNewWritableFile (f : FileName)
| EvAddRecord (f : FileName) (edit : VersionEdit)
| EvSyncManifest (f : FileName)
| EvSetCurrentFile (number : Z)
| EvDeleteFile (f : FileName)
| EvMarkFileNumberUsed (number : Z)
| EvInsertInto (log_number : Z) (batch : WriteBatch)
| EvBuildTable (cf : Z) (number : Z)
| EvLogAndApply (edits : list VersionEdit) (new_descriptor_log : bool)
| EvTruncate (log_number : Z) (size : Z)
| EvCreateColumnFamily (name : string)
| EvDropColumnFamily (name : string)
| EvInstallSuperVersion (cf : Z)
| EvDeleteObsoleteFiles
| EvFsync
| EvWriteToWAL (log_number : Z) (batch : WriteBatch)
| EvWrite (batch : WriteBatch)
| EvWriteOptionsFile.

#[global] Instance Event_eq_dec : EqDecision Event.
Proof. solve_decision. Defined.

(** A memtable: [first_seqno] is [GetFirstSequenceNumber()], 0 as long as
    nothing was inserted; [earliest_seqno] is the argument of
    [CreateNewMemtable]. *)
Record MemTable := mkMemTable {
  first_seqno : Z;
  earliest_seqno : Z;
  entries : list (Z * string)
}.

#[global] Instance MemTable_eq_dec : EqDecision MemTable.
Proof. solve_decision. Defined.

Definition new_MemTable (earliest_seq : Z) : MemTable :=
  mkMemTable 0 earliest_seq [].

Record ColumnFamilyData := mkColumnFamilyData {
  GetID : Z;
  GetName : string;
  GetLogNumber : Z;
  mem : MemTable;
  (* [ioptions()->compaction_style == kCompactionStyleFIFO] *)
  compaction_style_fifo : bool;
  (* [current()->storage_info()->NumLevelFiles(i)], from level 0 *)
  NumLevelFiles : list Z;
  (* [ioptions()->merge_operator != nullptr] *)
  merge_operator : bool;
  (* [mem()->IsMergeOperatorSupported()], [mem()->IsSnapshotSupported()]:
     properties of the memtable factory of the column family *)
  IsMergeOperatorSupported : bool;
  IsSnapshotSupported : bool
}.

Record VersionSet := mkVersionSet {
  next_file_number : Z;
  LastSequence : Z;
  column_family_set : list ColumnFamilyData;
  options_file_number : Z;
  vs_db_id : string
}.

Record LogFileNumberSize := mkLogFileNumberSize {
  lf_number : Z;
  lf_size : Z
}.

Record DBImpl := mkDBImpl {
  immutable_db_options : DBOptions;
  dbname : string;
  versions : VersionSet;
  (* [db_lock_ != nullptr] *)
  db_lock : bool;
  db_id : string;
  persistent_stats_cfd_exists : bool;
  logfile_number : Z;
  (* the numbers of [logs_], oldest first *)
  logs : list Z;
  alive_log_files : list LogFileNumberSize;
  total_log_size : Z;
  is_snapshot_supported : bool;
  opened_successfully : bool;
  trace : list Event
}.

(** The local variables of [RecoverLogFiles], with the two out-parameters
    [next_sequence] and [corrupted_log_found], and the database object. *)
Record Replay := mkReplay {
  status : Status;
  next_sequence : Z;
  stop_replay_by_wal_filter : bool;
  stop_replay_for_corruption : bool;
  flushed : bool;
  corrupted_log_number : Z;
  corrupted_log_found : bool;
  version_edits : gmap Z VersionEdit;
  (* column family ids waiting in [flush_scheduler_] *)
  flush_scheduler : list Z;
  impl : DBImpl
}.

Definition set_mem (v : MemTable)
    (cfd : ColumnFamilyData) : ColumnFamilyData :=
  mkColumnFamilyData (GetID cfd) (GetName cfd) (GetLogNumber cfd) v
    (compaction_style_fifo cfd) (NumLevelFiles cfd) (merge_operator cfd)
    (IsMergeOperatorSupported cfd) (IsSnapshotSupported cfd).

Definition set_ve_column_family (v : Z) (e : VersionEdit) : VersionEdit :=
  mkVersionEdit v (ve_log_number e) (ve_next_file e) (ve_last_sequence e)
    (ve_db_id e) (ve_new_files e).

Definition set_ve_log_number (v : option Z) (e : VersionEdit) : VersionEdit :=
  mkVersionEdit (ve_column_family e) v (ve_next_file e) (ve_last_sequence e)
    (ve_db_id e) (ve_new_files e).

Definition set_ve_next_file (v : option Z) (e : VersionEdit) : VersionEdit :=
  mkVersionEdit (ve_column_family e) (ve_log_number e) v (ve_last_sequence
    e) (ve_db_id e) (ve_new_files e).

Definition set_ve_last_sequence (v : option Z)
    (e : VersionEdit) : VersionEdit :=
  mkVersionEdit (ve_column_family e) (ve_log_number e) (ve_next_file e) v
    (ve_db_id e) (ve_new_files e).

Definition set_ve_db_id (v : option string) (e : VersionEdit) : VersionEdit :=
  mkVersionEdit (ve_column_family e) (ve_log_number e) (ve_next_file e)
    (ve_last_sequence e) v (ve_new_files e).

Definition set_ve_new_files (v : list FileMetaData)
    (e : VersionEdit) : VersionEdit :=
  mkVersionEdit (ve_column_family e) (ve_log_number e) (ve_next_file e)
    (ve_last_sequence e) (ve_db_id e) v.

Definition set_next_file_number (v : Z) (vs : VersionSet) : VersionSet :=
  mkVersionSet v (LastSequence vs) (column_family_set vs)
    (options_file_number vs) (vs_db_id vs).

Definition set_LastSequence (v : Z) (vs : VersionSet) : VersionSet :=
  mkVersionSet (next_file_number vs) v (column_family_set vs)
    (options_file_number vs) (vs_db_id vs).

Definition set_column_family_set (v : list ColumnFamilyData)
    (vs : VersionSet) : VersionSet :=
  mkVersionSet (next_file_number vs) (LastSequence vs) v
    (options_file_number vs) (vs_db_id vs).

Definition set_options_file_number (v : Z) (vs : VersionSet) : VersionSet :=
  mkVersionSet (next_file_number vs) (LastSequence vs) (column_family_set
    vs) v (vs_db_id vs).

Definition set_vs_db_id (v : string) (vs : VersionSet) : VersionSet :=
  mkVersionSet (next_file_number vs) (LastSequence vs) (column_family_set
    vs) (options_file_number vs) v.

Definition set_versions (v : VersionSet) (d : DBImpl) : DBImpl :=
  mkDBImpl (immutable_db_options d) (dbname d) v (db_lock d) (db_id d)
    (persistent_stats_cfd_exists d) (logfile_number d) (logs d)
    (alive_log_files d) (total_log_size d) (is_snapshot_supported d)
    (opened_successfully d) (trace d).

Definition set_db_lock (v : bool) (d : DBImpl) : DBImpl :=
  mkDBImpl (immutable_db_options d) (dbname d) (versions d) v (db_id d)
    (persistent_stats_cfd_exists d) (logfile_number d) (logs d)
    (alive_log_files d) (total_log_size d) (is_snapshot_supported d)
    (opened_successfully d) (trace d).

Definition set_db_id (v : string) (d : DBImpl) : DBImpl :=
  mkDBImpl (immutable_db_options d) (dbname d) (versions d) (db_lock d) v
    (persistent_stats_cfd_exists d) (logfile_number d) (logs d)
    (alive_log_files d) (total_log_size d) (is_snapshot_supported d)
    (opened_successfully d) (trace d).

Definition set_persistent_stats_cfd_exists (v : bool) (d : DBImpl) : DBImpl :=
  mkDBImpl (immutable_db_options d) (dbname d) (versions d) (db_lock d)
    (db_id d) v (logfile_number d) (logs d) (alive_log_files d)
    (total_log_size d) (is_snapshot_supported d) (opened_successfully d)
    (trace d).

Definition set_logfile_number (v : Z) (d : DBImpl) : DBImpl :=
  mkDBImpl (immutable_db_options d) (dbname d) (versions d) (db_lock d)
    (db_id d) (persistent_stats_cfd_exists d) v (logs d) (alive_log_files d)
    (total_log_size d) (is_snapshot_supported d) (opened_successfully d)
    (trace d).

Definition set_logs (v : list Z) (d : DBImpl) : DBImpl :=
  mkDBImpl (immutable_db_options d) (dbname d) (versions d) (db_lock d)
    (db_id d) (persistent_stats_cfd_exists d) (logfile_number d) v
    (alive_log_files d) (total_log_size d) (is_snapshot_supported d)
    (opened_successfully d) (trace d).

Definition set_alive_log_files (v : list LogFileNumberSize)
    (d : DBImpl) : DBImpl :=
  mkDBImpl (immutable_db_options d) (dbname d) (versions d) (db_lock d)
    (db_id d) (persistent_stats_cfd_exists d) (logfile_number d) (logs d) v
    (total_log_size d) (is_snapshot_supported d) (opened_successfully d)
    (trace d).

Definition set_total_log_size (v : Z) (d : DBImpl) : DBImpl :=
  mkDBImpl (immutable_db_options d) (dbname d) (versions d) (db_lock d)
    (db_id d) (persistent_stats_cfd_exists d) (logfile_number d) (logs d)
    (alive_log_files d) v (is_snapshot_supported d) (opened_successfully d)
    (trace d).

Definition set_is_snapshot_supported (v : bool) (d : DBImpl) : DBImpl :=
  mkDBImpl (immutable_db_options d) (dbname d) (versions d) (db_lock d)
    (db_id d) (persistent_stats_cfd_exists d) (logfile_number d) (logs d)
    (alive_log_files d) (total_log_size d) v (opened_successfully d) (trace d).

Definition set_opened_successfully (v : bool) (d : DBImpl) : DBImpl :=
  mkDBImpl (immutable_db_options d) (dbname d) (versions d) (db_lock d)
    (db_id d) (persistent_stats_cfd_exists d) (logfile_number d) (logs d)
    (alive_log_files d) (total_log_size d) (is_snapshot_supported d) v (trace
    d).

Definition set_trace (v : list Event) (d : DBImpl) : DBImpl :=
  mkDBImpl (immutable_db_options d) (dbname d) (versions d) (db_lock d)
    (db_id d) (persistent_stats_cfd_exists d) (logfile_number d) (logs d)
    (alive_log_files d) (total_log_size d) (is_snapshot_supported d)
    (opened_successfully d) v.

Definition set_status (v : Status) (r : Replay) : Replay :=
  mkReplay v (next_sequence r) (stop_replay_by_wal_filter r)
    (stop_replay_for_corruption r) (flushed r) (corrupted_log_number r)
    (corrupted_log_found r) (version_edits r) (flush_scheduler r) (impl r).

Definition set_next_sequence (v : Z) (r : Replay) : Replay :=
  mkReplay (status r) v (stop_replay_by_wal_filter r)
    (stop_replay_for_corruption r) (flushed r) (corrupted_log_number r)
    (corrupted_log_found r) (version_edits r) (flush_scheduler r) (impl r).

Definition set_stop_replay_by_wal_filter (v : bool) (r : Replay) : Replay :=
  mkReplay (status r) (next_sequence r) v (stop_replay_for_corruption r)
    (flushed r) (corrupted_log_number r) (corrupted_log_found r)
    (version_edits r) (flush_scheduler r) (impl r).

Definition set_stop_replay_for_corruption (v : bool) (r : Replay) : Replay :=
  mkReplay (status r) (next_sequence r) (stop_replay_by_wal_filter r) v
    (flushed r) (corrupted_log_number r) (corrupted_log_found r)
    (version_edits r) (flush_scheduler r) (impl r).

Definition set_flushed (v : bool) (r : Replay) : Replay :=
  mkReplay (status r) (next_sequence r) (stop_replay_by_wal_filter r)
    (stop_replay_for_corruption r) v (corrupted_log_number r)
    (corrupted_log_found r) (version_edits r) (flush_scheduler r) (impl r).

Definition set_corrupted_log_number (v : Z) (r : Replay) : Replay :=
  mkReplay (status r) (next_sequence r) (stop_replay_by_wal_filter r)
    (stop_replay_for_corruption r) (flushed r) v (corrupted_log_found r)
    (version_edits r) (flush_scheduler r) (impl r).

Definition set_corrupted_log_found (v : bool) (r : Replay) : Replay :=
  mkReplay (status r) (next_sequence r) (stop_replay_by_wal_filter r)
    (stop_replay_for_corruption r) (flushed r) (corrupted_log_number r) v
    (version_edits r) (flush_scheduler r) (impl r).

Definition set_version_edits (v : gmap Z VersionEdit) (r : Replay) : Replay :=
  mkReplay (status r) (next_sequence r) (stop_replay_by_wal_filter r)
    (stop_replay_for_corruption r) (flushed r) (corrupted_log_number r)
    (corrupted_log_found r) v (flush_scheduler r) (impl r).

Definition set_flush_scheduler (v : list Z) (r : Replay) : Replay :=
  mkReplay (status r) (next_sequence r) (stop_replay_by_wal_filter r)
    (stop_replay_for_corruption r) (flushed r) (corrupted_log_number r)
    (corrupted_log_found r) (version_edits r) v (impl r).

Definition set_impl (v : DBImpl) (r : Replay) : Replay :=
  mkReplay (status r) (next_sequence r) (stop_replay_by_wal_filter r)
    (stop_replay_for_corruption r) (flushed r) (corrupted_log_number r)
    (corrupted_log_found r) (version_edits r) (flush_scheduler r) v.


(** ** Collaborators

    What db_impl_open.cc calls and does not define.  Each operation gives
    the status (and values) the call returns; the functions below record
    the call in the trace and go on with that result. *)

Record ColumnFamilyOptions := mkColumnFamilyOptions {
  write_buffer_size : Z;
  cf_paths : list DbPath
}.

Record ColumnFamilyDescriptor := mkColumnFamilyDescriptor {
  name : string;
  options : ColumnFamilyOptions
}.

(** What [WriteBatchInternal::InsertInto] hands back: its status, the
    column families with their memtables after the insertion, the sequence
    cursor, [has_valid_writes], and the column families it put on the flush
    scheduler. *)
Record InsertResult := mkInsertResult {
  ins_status : Status;
  ins_column_family_set : list ColumnFamilyData;
  ins_next_sequence : Z;
  ins_has_valid_writes : bool;
  ins_scheduled : list Z
}.

Record Collab := mkCollab {
  (* port *)
  GetMaxOpenFiles : Z;
  (* option checks of the table factories and of ColumnFamilyData *)
  TableFactory_SanitizeOptions : DBOptions -> ColumnFamilyDescriptor -> Status;
  ColumnFamilyData_ValidateOptions :
    DBOptions -> ColumnFamilyDescriptor -> Status;
  (* Env and FileSystem *)
  CreateDirIfMissing : string -> Status;
  NewDirectory : string -> Status;
  CreateArchivalDirectory : Status;
  LockFile : Status;
  FileExists : FileName -> Status;
  SetIdentityFile : Status;
  GetDbIdentityFromIdentityFile : string;
  NewWritableFile : FileName -> Status;
  ReuseWritableFile : FileName -> FileName -> Status;
  AddRecord : FileName -> Status;
  SyncManifest : Status;
  SetCurrentFile : Status;
  (* on CURRENT, with [use_direct_reads] as given *)
  NewRandomAccessFile : bool -> Status;
  GetChildren : string -> Status * list string;
  ParseFileName : string -> option (Z * FileType);
  (* size of the WAL with this number *)
  GetFileSize : Z -> Status * Z;
  (* reopen, truncate and close the WAL with this number *)
  TruncateLog : Z -> Z -> Status;
  NewSequentialFile : Z -> Status;
  (* the calls of [reader.ReadRecord] on the WAL with this number *)
  ReadRecords : Z -> WALRecoveryMode -> list ReadRecord;
  Fsync : Status;
  (* VersionSet *)
  versions_Recover :
    list ColumnFamilyDescriptor -> bool -> Status * string * VersionSet;
  MinLogNumberToKeep : VersionSet -> Z;
  LogAndApply : VersionSet -> list VersionEdit -> bool -> Status * VersionSet;
  CheckConsistency : Status;
  AddDirectories : ColumnFamilyData -> Status;
  CreateColumnFamily : VersionSet -> string -> Status * VersionSet;
  DropColumnFamily : VersionSet -> string -> VersionSet;
  (* the rest of DBImpl and the write path *)
  MaybeIgnoreError : Status -> Status;
  wal_filter : option WalFilter;
  InsertInto :
    WriteBatch -> Z -> Z -> list ColumnFamilyData -> InsertResult;
  (* status and file size of the table built for a column family *)
  BuildTable : ColumnFamilyData -> Z -> Status * Z;
  WriteToWAL : Z -> WriteBatch -> Status;
  (* true: the format version key, false: the compatible version key *)
  DecodePersistentStatsVersionNumber : bool -> Status * Z;
  kStatsCFCurrentFormatVersion : Z;
  kStatsCFCompatibleFormatVersion : Z;
  Write : WriteBatch -> Status;
  WriteOptionsFile : Status
}.

(** The same collaborators with another WAL filter, or none:
    [immutable_db_options_.wal_filter]. *)
Definition set_wal_filter (filter : option WalFilter) (C : Collab)
    : Collab :=
  mkCollab (GetMaxOpenFiles C) (TableFactory_SanitizeOptions C)
    (ColumnFamilyData_ValidateOptions C) (CreateDirIfMissing C)
    (NewDirectory C) (CreateArchivalDirectory C) (LockFile C) (FileExists C)
    (SetIdentityFile C) (GetDbIdentityFromIdentityFile C)
    (NewWritableFile C) (ReuseWritableFile C) (AddRecord C) (SyncManifest C)
    (SetCurrentFile C) (NewRandomAccessFile C) (GetChildren C)
    (ParseFileName C) (GetFileSize C) (TruncateLog C) (NewSequentialFile C)
    (ReadRecords C) (Fsync C) (versions_Recover C) (MinLogNumberToKeep C)
    (LogAndApply C) (CheckConsistency C) (AddDirectories C)
    (CreateColumnFamily C) (DropColumnFamily C) (MaybeIgnoreError C) filter
    (InsertInto C) (BuildTable C) (WriteToWAL C)
    (DecodePersistentStatsVersionNumber C) (kStatsCFCurrentFormatVersion C)
    (kStatsCFCompatibleFormatVersion C) (Write C) (WriteOptionsFile C).

(** Modelled from the spec: [VersionSet::MarkFileNumberUsed] is in
    db/version_set.cc; the spec has it move the global file-number counter
    past the number so that the number is never reused. *)
Definition MarkFileNumberUsed (number : Z) (vs : VersionSet) : VersionSet :=
  if bool_decide (next_file_number vs <= number)
  then set_next_file_number (number + 1) vs else vs.

(** Modelled from the spec: [VersionSet::NewFileNumber] is in
    db/version_set.h; it allocates a fresh file number from the counter. *)
Definition NewFileNumber (vs : VersionSet) : Z * VersionSet :=
  (next_file_number vs, set_next_file_number (next_file_number vs + 1) vs).

(** Modelled from the spec: [ColumnFamilyData::CreateNewMemtable] is in
    db/column_family.cc; it replaces the memtable of the column family by a
    fresh one that starts at the given sequence number. *)
Definition CreateNewMemtable (earliest_seq : Z) (cfd : ColumnFamilyData)
    : ColumnFamilyData :=
  set_mem (new_MemTable earliest_seq) cfd.

Definition emit (ev : Event) (d : DBImpl) : DBImpl :=
  set_trace (trace d ++ [ev]) d.

Definition GetColumnFamily (id : Z) (cfds : list ColumnFamilyData)
    : option ColumnFamilyData :=
  List.find (fun cfd => bool_decide (GetID cfd = id)) cfds.

Definition GetColumnFamilyByName (n : string) (cfds : list ColumnFamilyData)
    : option ColumnFamilyData :=
  List.find (fun cfd => bool_decide (GetName cfd = n)) cfds.

(** Write through the pointer [cfd] held by a loop. *)
Definition update_cfd (id : Z) (f : ColumnFamilyData -> ColumnFamilyData)
    (d : DBImpl) : DBImpl :=
  set_versions
    (set_column_family_set
       (List.map (fun cfd => if bool_decide (GetID cfd = id) then f cfd
                             else cfd)
          (column_family_set (versions d)))
       (versions d)) d.

(** [version_edits.find(id)->second]; every column family has an edit. *)
Definition find_edit (id : Z) (edits : gmap Z VersionEdit) : VersionEdit :=
  default (set_ve_column_family id new_VersionEdit) (edits !! id).

Section Recovery.

Context (C : Collab).

(** *** [DBImpl::NewDB] *)
Definition NewDB (d : DBImpl) : Status * DBImpl :=
  let new_db := new_VersionEdit in
  let s := SetIdentityFile C in
  let d := emit EvSetIdentityFile d in
  if negb (ok s) then (s, d) else
  let new_db :=
    if write_dbid_to_manifest (immutable_db_options d)
    then set_ve_db_id (Some (GetDbIdentityFromIdentityFile C)) new_db
    else new_db in
  let new_db := set_ve_log_number (Some 0) new_db in
  let new_db := set_ve_next_file (Some 2) new_db in
  let new_db := set_ve_last_sequence (Some 0) new_db in
  let manifest := DescriptorFileName 1 in
  let s := NewWritableFile C manifest in
  let d := emit (EvNewWritableFile manifest) d in
  if negb (ok s) then (s, d) else
  let s := AddRecord C manifest in
  let d := emit (EvAddRecord manifest new_db) d in
  let s' := if ok s then SyncManifest C else s in
  let d := if ok s then emit (EvSyncManifest manifest) d else d in
  if ok s' then
    (* Make "CURRENT" file that points to the new manifest file. *)
    (SetCurrentFile C, emit (EvSetCurrentFile 1) d)
  else
    (s', emit (EvDeleteFile manifest) d).

(** *** [DBImpl::CreateAndNewDirectory], [Directories::SetDirectories] *)
Definition CreateAndNewDirectory (dirname : string) (d : DBImpl)
    : Status * DBImpl :=
  let s := CreateDirIfMissing C dirname in
  let d := emit (EvCreateDirIfMissing dirname) d in
  if negb (ok s) then (s, d)
  else (NewDirectory C dirname, emit (EvNewDirectory dirname) d).

Fixpoint SetDirectories_data_paths (dbname : string)
    (data_paths : list DbPath) (d : DBImpl) : Status * DBImpl :=
  match data_paths with
  | [] => (St.OK, d)
  | p :: data_paths' =>
      let db_path := path p in
      if bool_decide (db_path = dbname)
      then SetDirectories_data_paths dbname data_paths' d
      else
        let sd := CreateAndNewDirectory db_path d in
        if negb (ok sd.1) then sd
        else SetDirectories_data_paths dbname data_paths' sd.2
  end.

Definition SetDirectories (dbname wal_dir : string)
    (data_paths : list DbPath) (d : DBImpl) : Status * DBImpl :=
  let sd := CreateAndNewDirectory dbname d in
  if negb (ok sd.1) then sd else
  let sd :=
    if negb (string_empty wal_dir) && bool_decide (dbname <> wal_dir)
    then CreateAndNewDirectory wal_dir sd.2 else sd in
  if negb (ok sd.1) then sd else
  SetDirectories_data_paths dbname data_paths sd.2.

(** *** [DBImpl::WriteLevel0TableForRecovery]

    The table is built from [cfd->mem()]; statistics are not kept. *)
Definition WriteLevel0TableForRecovery (cfd : ColumnFamilyData)
    (edit : VersionEdit) (d : DBImpl) : Status * VersionEdit * DBImpl :=
  let nf := NewFileNumber (versions d) in
  let number := nf.1 in
  let d := set_versions nf.2 d in
  let bt := BuildTable C cfd number in
  let s := bt.1 in
  let file_size := bt.2 in
  let d := emit (EvBuildTable (GetID cfd) number) d in
  (* Note that if file_size is zero, the file has been deleted and
     should not be added to the manifest. *)
  let edit :=
    if ok s && bool_decide (file_size > 0)
    then set_ve_new_files
           (ve_new_files edit ++ [mkFileMetaData number file_size]) edit
    else edit in
  (s, edit, d).

(** *** [DBImpl::RestoreAliveLogFiles] *)
Fixpoint RestoreAliveLogFiles_loop (back : Z) (log_numbers : list Z)
    (d : DBImpl) : Status * DBImpl :=
  match log_numbers with
  | [] => (St.OK, d)
  | log_number :: log_numbers' =>
      let gs := GetFileSize C log_number in
      if negb (ok gs.1) then (gs.1, d) else
      let d := set_total_log_size (wrap64 (total_log_size d + gs.2)) d in
      let d := set_alive_log_files
                 (alive_log_files d ++ [mkLogFileNumberSize log_number gs.2])
                 d in
      (* only the last log is truncated; a failure is not critical *)
      let d := if bool_decide (log_number = back)
               then emit (EvTruncate log_number gs.2) d else d in
      match log_numbers' with
      | [] => (gs.1, d)
      | _ => RestoreAliveLogFiles_loop back log_numbers' d
      end
  end.

Definition RestoreAliveLogFiles (log_numbers : list Z) (d : DBImpl)
    : Status * DBImpl :=
  match log_numbers with
  | [] => (St.OK, d)
  | _ =>
      let d := set_total_log_size 0 d in
      RestoreAliveLogFiles_loop (List.last log_numbers 0) log_numbers d
  end.

(** *** [DBImpl::RecoverLogFiles]

    [LogReporter] is the reporter handed to the log reader; its [status]
    pointer is null or points at the local [status] of the function. *)
Inductive StatusPtr := nullptr | ptr_status.

Record LogReporter := mkLogReporter { reporter_status : StatusPtr }.

Definition LogReporter_Corruption (reporter : LogReporter) (bytes : Z)
    (s : Status) (r : Replay) : Replay :=
  match reporter_status reporter with
  | ptr_status => if ok (status r) then set_status s r else r
  | nullptr => r
  end.

Definition new_LogReporter (opts : DBOptions) : LogReporter :=
  if negb (paranoid_checks opts)
     || bool_decide (wal_recovery_mode opts = kSkipAnyCorruptedRecords)
  then mkLogReporter nullptr
  else mkLogReporter ptr_status.

(** How the body of a loop ends: it goes to the next round, leaves the
    loop, or leaves the function with a status. *)
Inductive Control :=
| Continue (r : Replay)
| Break (r : Replay)
| Return (s : Status) (r : Replay).

(** The flush of the column families [InsertInto] put on the scheduler:
    [while ((cfd = flush_scheduler_.TakeNextColumnFamily()) != nullptr)]. *)
Fixpoint flush_scheduled (scheduled : list Z) (r : Replay) : Control :=
  match scheduled with
  | [] => Continue (set_flush_scheduler [] r)
  | id :: scheduled' =>
      match GetColumnFamily id (column_family_set (versions (impl r))) with
      | None => flush_scheduled scheduled' r
      | Some cfd =>
          let w := WriteLevel0TableForRecovery cfd
                     (find_edit id (version_edits r)) (impl r) in
          let r := set_version_edits (<[id := w.1.2]> (version_edits r)) r in
          let r := set_impl w.2 r in
          let r := set_status w.1.1 r in
          if negb (ok (status r)) then
            (* Reflect errors immediately so that conditions like full
               file-systems cause the DB::Open() to fail. *)
            Return (status r) (set_flush_scheduler scheduled' r)
          else
            let r := set_flushed true r in
            let r := set_impl
                       (update_cfd id (CreateNewMemtable (next_sequence r))
                          (impl r)) r in
            flush_scheduled scheduled' r
      end
  end.

(** The WAL filter hook on one record: either the batch to insert, or
    the way the round ends. *)
Definition filter_record (filter : WalFilter) (log_number : Z)
    (reporter : LogReporter) (rec : Slice) (batch : WriteBatch)
    (r : Replay) : WriteBatch * Replay + Control :=
  let found := LogRecordFound filter log_number batch in
  let wal_processing_option := found.1.1 in
  let new_batch := found.1.2 in
  let batch_changed := found.2 in
  let after_switch (r : Replay) : WriteBatch * Replay + Control :=
    if batch_changed then
      (* Make sure that the count in the new batch is within the
         original count. *)
      let new_count := Count new_batch in
      let original_count := Count batch in
      if bool_decide (new_count > original_count) then
        let r := set_status
                   (St.NotSupported
                      (St.msg2
                         "More than original # of records returned by Wal Filter "
                         (Name filter))) r in
        inr (Return (status r) r)
      else
        (* Set the same sequence number in the new_batch as the original
           batch. *)
        inl (SetSequence new_batch (Sequence batch), r)
    else inl (batch, r) in
  match wal_processing_option with
  | kContinueProcessing => after_switch r
  | kIgnoreCurrentRecord => inr (Continue r)
  | kStopReplay => inr (Continue (set_stop_replay_by_wal_filter true r))
  | kCorruptedRecord =>
      let r := set_status
                 (MaybeIgnoreError C
                    (St.Corruption
                       (St.msg2 "Corruption reported by Wal Filter "
                          (Name filter)))) r in
      if negb (ok (status r)) then
        inr (Continue (LogReporter_Corruption reporter (size rec)
                         (status r) r))
      else after_switch r
  | kWalProcessingOptionMax =>
      let r := set_status
                 (MaybeIgnoreError C
                    (St.NotSupported
                       (St.msg2
                          "Unknown WalProcessingOption returned by Wal Filter "
                          (Name filter)))) r in
      if negb (ok (status r)) then inr (Return (status r) r)
      else inr (Continue r)
  end.

(** [WriteBatchInternal::InsertInto] on the batch and what follows it in
    the round. *)
Definition insert_record (read_only : bool) (log_number : Z)
    (reporter : LogReporter) (rec : Slice) (batch : WriteBatch)
    (r : Replay) : Control :=
  let ins := InsertInto C batch log_number (next_sequence r)
               (column_family_set (versions (impl r))) in
  let d := emit (EvInsertInto log_number batch) (impl r) in
  let d := set_versions
             (set_column_family_set (ins_column_family_set ins)
                (versions d)) d in
  let r := set_impl d r in
  let r := set_next_sequence (ins_next_sequence ins) r in
  let r := set_flush_scheduler (flush_scheduler r ++ ins_scheduled ins) r in
  let r := set_status (MaybeIgnoreError C (ins_status ins)) r in
  if negb (ok (status r)) then
    (* We are treating this as a failure while reading since we read
       valid blocks that do not form coherent data *)
    Continue (LogReporter_Corruption reporter (size rec) (status r) r)
  else if ins_has_valid_writes ins && negb read_only then
    flush_scheduled (flush_scheduler r) r
  else Continue r.

(** The WAL filter, if there is one, then the insertion. *)
Definition process_record (read_only : bool) (log_number : Z)
    (reporter : LogReporter) (rec : Slice) (batch : WriteBatch)
    (r : Replay) : Control :=
  let filtered :=
    match wal_filter C with
    | Some filter => filter_record filter log_number reporter rec batch r
    | None => inl (batch, r)
    end in
  match filtered with
  | inr c => c
  | inl (batch, r) => insert_record read_only log_number reporter rec batch r
  end.

(** In point-in-time recovery mode, if sequence id of log files are
    consecutive, we continue recovery despite corruption. *)
Definition resume_if_consecutive (opts : DBOptions) (sequence : Z)
    (r : Replay) : Replay :=
  if bool_decide (wal_recovery_mode opts = kPointInTimeRecovery)
     && bool_decide (sequence = next_sequence r)
  then set_stop_replay_for_corruption false r else r.

(** The body of the read loop, for the record [rec] just read. *)
Definition replay_record (opts : DBOptions) (read_only : bool)
    (log_number : Z) (reporter : LogReporter) (rec : Slice) (r : Replay)
    : Control :=
  if bool_decide (size rec < kHeader) then
    Continue (LogReporter_Corruption reporter (size rec)
                (St.Corruption "log record too small") r)
  else
  let batch := contents rec in
  let sequence := Sequence batch in
  let r := resume_if_consecutive opts sequence r in
  if bool_decide (wal_recovery_mode opts = kPointInTimeRecovery)
     && stop_replay_for_corruption r
  then Break r
  else process_record read_only log_number reporter rec batch r.

(** [reader.ReadRecord]: the reader sends its reports, then returns. *)
Definition deliver (reporter : LogReporter) (reports : list (Z * Status))
    (r : Replay) : Replay :=
  fold_left (fun r rep => LogReporter_Corruption reporter rep.1 rep.2 r)
    reports r.

(** [while (!stop_replay_by_wal_filter && reader.ReadRecord(...) &&
    status.ok())] over the calls [reads] the reader answers. *)
Fixpoint read_loop (opts : DBOptions) (read_only : bool) (log_number : Z)
    (reporter : LogReporter) (reads : list ReadRecord) (r : Replay)
    : Control :=
  if stop_replay_by_wal_filter r then Continue r else
  match reads with
  | [] => Continue r
  | rd :: reads' =>
      let r := deliver reporter (reported rd) r in
      match record rd with
      | None => Continue r
      | Some rec =>
          if negb (ok (status r)) then Continue r else
          match replay_record opts read_only log_number reporter rec r with
          | Continue r => read_loop opts read_only log_number reporter
                            reads' r
          | Break r => Continue r
          | Return s r => Return s r
          end
      end
  end.

(** What follows the read loop of one WAL. *)
Definition after_read_loop (opts : DBOptions) (log_number : Z)
    (r : Replay) : Control :=
  let handled :=
    if negb (ok (status r)) then
      if IsNotSupported (status r) then
        (* We should not treat NotSupported as corruption. *)
        Return (status r) r
      else if bool_decide
                (wal_recovery_mode opts = kSkipAnyCorruptedRecords) then
        (* We should ignore all errors unconditionally *)
        Continue (set_status St.OK r)
      else if bool_decide
                (wal_recovery_mode opts = kPointInTimeRecovery) then
        (* We should ignore the error but not continue replaying *)
        let r := set_status St.OK r in
        let r := set_stop_replay_for_corruption true r in
        let r := set_corrupted_log_number log_number r in
        Continue (set_corrupted_log_found true r)
      else Return (status r) r
    else Continue r in
  match handled with
  | Continue r =>
      let r := set_flush_scheduler [] r in
      let last_sequence := wrap64 (next_sequence r - 1) in
      if bool_decide (next_sequence r <> kMaxSequenceNumber)
         && bool_decide (LastSequence (versions (impl r)) <= last_sequence)
      then
        Continue
          (set_impl
             (set_versions
                (set_LastSequence last_sequence (versions (impl r)))
                (impl r)) r)
      else Continue r
  | c => c
  end.

(** The body of [for (auto log_number : log_numbers)]. *)
Definition replay_log (opts : DBOptions) (read_only : bool)
    (min_log_number : Z) (log_number : Z) (r : Replay) : Control :=
  if bool_decide (log_number < min_log_number) then
    (* Skipping log since it is older than min log to keep *)
    Continue r
  else
  (* The previous incarnation may not have written any MANIFEST records
     after allocating this log number.  So we manually update the file
     number allocation counter in VersionSet. *)
  let d := emit (EvMarkFileNumberUsed log_number) (impl r) in
  let d := set_versions (MarkFileNumberUsed log_number (versions d)) d in
  let r := set_impl d r in
  if stop_replay_by_wal_filter r then Continue r
  else
  let r := set_status (NewSequentialFile C log_number) r in
  if negb (ok (status r)) then
    let r := set_status (MaybeIgnoreError C (status r)) r in
    if negb (ok (status r)) then Return (status r) r
    else
      (* Fail with one log file, but that's ok.  Try next one. *)
      Continue r
  else
  let reporter := new_LogReporter opts in
  match read_loop opts read_only log_number reporter
          (ReadRecords C log_number (wal_recovery_mode opts)) r with
  | Continue r => after_read_loop opts log_number r
  | c => c
  end.

Fixpoint replay_logs (opts : DBOptions) (read_only : bool)
    (min_log_number : Z) (log_numbers : list Z) (r : Replay) : Control :=
  match log_numbers with
  | [] => Continue r
  | log_number :: log_numbers' =>
      match replay_log opts read_only min_log_number log_number r with
      | Continue r =>
          replay_logs opts read_only min_log_number log_numbers' r
      | c => c
      end
  end.

(** The check after the loop over the WALs: the status with which
    [RecoverLogFiles] returns there, if it does. *)
Definition cross_check (opts : DBOptions) (r : Replay) : option Status :=
  if stop_replay_for_corruption r
     && (bool_decide (wal_recovery_mode opts = kPointInTimeRecovery)
         || bool_decide
              (wal_recovery_mode opts = kTolerateCorruptedTailRecords))
  then
    if existsb
         (fun cfd => bool_decide (GetLogNumber cfd > corrupted_log_number r))
         (column_family_set (versions (impl r)))
    then Some (St.Corruption "SST file is ahead of WALs")
    else None
  else None.

(** [for (auto cfd : *versions_->GetColumnFamilySet())] of the
    finalization; the result carries [data_seen]. *)
Fixpoint finalize_column_families (opts : DBOptions) (max_log_number : Z)
    (cfds : list ColumnFamilyData) (data_seen : bool) (r : Replay)
    : bool * Replay :=
  match cfds with
  | [] => (data_seen, r)
  | cfd :: cfds' =>
      let id := GetID cfd in
      if bool_decide (GetLogNumber cfd > max_log_number) then
        (* Column family cfd has already flushed the data from all logs. *)
        finalize_column_families opts max_log_number cfds' data_seen r
      else
      (* flush the final memtable (if non-empty) *)
      let nonempty := bool_decide (first_seqno (mem cfd) <> 0) in
      let flush :=
        nonempty
        && (flushed r || negb (avoid_flush_during_recovery opts)) in
      let w := WriteLevel0TableForRecovery cfd
                 (find_edit id (version_edits r)) (impl r) in
      let r :=
        if flush then
          set_status w.1.1
            (set_impl w.2
               (set_version_edits (<[id := w.1.2]> (version_edits r)) r))
        else r in
      if flush && negb (ok (status r)) then
        (* Recovery failed *)
        (data_seen, r)
      else
      let cfd' :=
        if flush
        then CreateNewMemtable (LastSequence (versions (impl r))) cfd
        else cfd in
      let r :=
        if flush
        then set_flushed true
               (set_impl (update_cfd id (fun _ => cfd') (impl r)) r)
        else r in
      let data_seen := data_seen || nonempty in
      (* all logs with numbers <= max_log_number are to be ignored on
         the next open *)
      let r :=
        if flushed r || bool_decide (first_seqno (mem cfd') = 0) then
          set_version_edits
            (<[id := set_ve_log_number (Some (wrap64 (max_log_number + 1)))
                       (find_edit id (version_edits r))]>
               (version_edits r)) r
        else r in
      finalize_column_families opts max_log_number cfds' data_seen r
  end.

(** [RecoverLogFiles] from the end of the loop over the WALs on. *)
Definition RecoverLogFiles_finish (opts : DBOptions) (read_only : bool)
    (log_numbers : list Z) (r : Replay) : Status * Replay :=
  match cross_check opts r with
  | Some s => (s, r)
  | None =>
      let max_log_number := List.last log_numbers 0 in
      let fin :=
        if negb read_only then
          let fin := finalize_column_families opts max_log_number
                       (column_family_set (versions (impl r))) false r in
          let r := fin.2 in
          if ok (status r) then
            (* we must mark the next log number as used, even though it's
               not actually used *)
            let next := wrap64 (max_log_number + 1) in
            let d := emit (EvMarkFileNumberUsed next) (impl r) in
            let d := set_versions (MarkFileNumberUsed next (versions d)) d in
            let edits :=
              List.map (fun cfd => find_edit (GetID cfd) (version_edits r))
                (column_family_set (versions d)) in
            (* write MANIFEST with update *)
            let la := LogAndApply C (versions d) edits true in
            let d := emit (EvLogAndApply edits true) d in
            let d := set_versions la.2 d in
            (fin.1, set_status la.1 (set_impl d r))
          else (fin.1, r)
        else (false, r) in
      let data_seen := fin.1 in
      let r := fin.2 in
      if ok (status r) && data_seen && negb (flushed r) then
        let ra := RestoreAliveLogFiles log_numbers (impl r) in
        let r := set_status ra.1 (set_impl ra.2 r) in
        (status r, r)
      else (status r, r)
  end.

(** [RecoverLogFiles(log_numbers, next_sequence, read_only,
    corrupted_log_found)]; the two out-parameters are fields of the
    result.  REQUIRES: log_numbers are sorted in ascending order. *)
Definition RecoverLogFiles (log_numbers : list Z) (next_sequence0 : Z)
    (read_only : bool) (d : DBImpl) : Status * Replay :=
  let opts := immutable_db_options d in
  let version_edits0 : gmap Z VersionEdit :=
    list_to_map
      (List.map
         (fun cfd => (GetID cfd,
                      set_ve_column_family (GetID cfd) new_VersionEdit))
         (column_family_set (versions d))) in
  let r := mkReplay St.OK next_sequence0 false false false
             kMaxSequenceNumber false version_edits0 [] d in
  let min_log_number := MinLogNumberToKeep C (versions d) in
  match replay_logs opts read_only min_log_number log_numbers r with
  | Continue r => RecoverLogFiles_finish opts read_only log_numbers r
  | Break r => (status r, r)
  | Return s r => (s, r)
  end.

(** *** [DBImpl::InitPersistStatsColumnFamily] *)

(** Modelled from the spec: the constant is declared in
    monitoring/persistent_stats_history.h; the spec gives the reserved
    name of the persistent stats column family. *)
Definition kPersistentStatsColumnFamilyName : string := "__system_stats__".

Definition InitPersistStatsColumnFamily (d : DBImpl) : Status * DBImpl :=
  let persistent_stats_cfd :=
    GetColumnFamilyByName kPersistentStatsColumnFamilyName
      (column_family_set (versions d)) in
  let d := set_persistent_stats_cfd_exists
             (bool_decide (persistent_stats_cfd <> None)) d in
  match persistent_stats_cfd with
  | Some _ => (St.OK, d)
  | None =>
      let cc := CreateColumnFamily C (versions d)
                  kPersistentStatsColumnFamilyName in
      let d := emit (EvCreateColumnFamily kPersistentStatsColumnFamilyName)
                 d in
      (cc.1, set_versions cc.2 d)
  end.

(** *** [DBImpl::Recover]

    [max_total_in_memory_state_], the handle of the default column family
    and the notification of the WAL filter about the column families are
    not kept; they decide nothing in this file. *)

(** The WAL numbers among the children of the WAL directory. *)
Fixpoint collect_logs (is_new_db : bool) (filenames : list string)
    (logs : list Z) : Status + list Z :=
  match filenames with
  | [] => inr logs
  | f :: filenames' =>
      match ParseFileName C f with
      | Some (number, kLogFile) =>
          if is_new_db then
            inl (St.Corruption
                   (St.msg2
                      "While creating a new Db, wal_dir contains existing log file: "
                      f))
          else collect_logs is_new_db filenames' (logs ++ [number])
      | _ => collect_logs is_new_db filenames' logs
      end
  end.

(** [error_if_data_exists_in_logs]: is there a WAL with data? *)
Definition data_exists_in_logs (logs : list Z) : bool :=
  existsb
    (fun log => ok (GetFileSize C log).1
                && bool_decide ((GetFileSize C log).2 > 0))
    logs.

(** [cfd->AddDirectories] for every column family, up to a failure. *)
Fixpoint AddDirectories_all (cfds : list ColumnFamilyData) : Status :=
  match cfds with
  | [] => St.OK
  | cfd :: cfds' =>
      if negb (ok (AddDirectories C cfd)) then AddDirectories C cfd
      else AddDirectories_all cfds'
  end.

(** The newest OPTIONS file among the children of the database
    directory (read-only open). *)
Definition latest_options_file (file_names : list string) : Z :=
  fold_left
    (fun options_file_number fname =>
       match ParseFileName C fname with
       | Some (number, kOptionsFile) => Z.max number options_file_number
       | _ => options_file_number
       end)
    file_names 0.

(** The block under [if (!logs.empty())]: the replay of the WALs and
    what [Recover] does with its result.  The result carries
    [*recovered_seq]. *)
Definition Recover_replay (read_only : bool) (recovered_seq : option Z)
    (logs : list Z) (d : DBImpl) : Status * option Z * DBImpl :=
  let next_sequence0 := kMaxSequenceNumber in
  (* Recover in the order in which the logs were generated *)
  let logs := merge_sort Z.le logs in
  let rl := RecoverLogFiles logs next_sequence0 read_only d in
  let s := rl.1 in
  let recovered_seq :=
    match recovered_seq with
    | Some seq =>
        if corrupted_log_found rl.2
        then Some (next_sequence rl.2) else Some seq
    | None => None
    end in
  let d := impl rl.2 in
  if negb (ok s) then
    (* Clear memtables if recovery failed *)
    (s, recovered_seq,
     set_versions
       (set_column_family_set
          (List.map (CreateNewMemtable kMaxSequenceNumber)
             (column_family_set (versions d)))
          (versions d)) d)
  else (s, recovered_seq, d).

(** The part of [Recover] that finds and replays the WALs; it starts
    with [s.ok()]. *)
Definition Recover_logs (read_only error_if_log_file_exist
    error_if_data_exists_in_logs is_new_db : bool)
    (recovered_seq : option Z) (d : DBImpl)
    : Status * option Z * DBImpl :=
  let gc := GetChildren C (wal_dir (immutable_db_options d)) in
  if IsNotFound gc.1 then
    (St.InvalidArgument
       (St.msg2 "wal_dir not found" (wal_dir (immutable_db_options d))),
     recovered_seq, d)
  else if negb (ok gc.1) then (gc.1, recovered_seq, d)
  else
  match collect_logs is_new_db gc.2 [] with
  | inl s => (s, recovered_seq, d)
  | inr logs =>
      if bool_decide (logs <> []) && error_if_log_file_exist then
        (St.Corruption
           ("The db was opened in readonly mode with " +:+
            "error_if_log_file_existflag but a log file already exists"),
         recovered_seq, d)
      else if bool_decide (logs <> []) && error_if_data_exists_in_logs
              && data_exists_in_logs logs then
        (St.Corruption
           ("error_if_data_exists_in_logs is set but there are data " +:+
            " in log files."),
         recovered_seq, d)
      else if bool_decide (logs <> [])
      then Recover_replay read_only recovered_seq logs d
      else (gc.1, recovered_seq, d)
  end.

(** The end of [Recover]: a read-only open looks up the most recent
    OPTIONS file. *)
Definition Recover_options_file (read_only : bool)
    (out : Status * option Z * DBImpl) : Status * option Z * DBImpl :=
  let s := out.1.1 in
  let d := out.2 in
  if read_only then
    let gn := if ok s then (GetChildren C (dbname d)).1 else s in
    if ok gn then
      (gn, out.1.2,
       set_versions
         (set_options_file_number
            (latest_options_file (GetChildren C (dbname d)).2)
            (versions d)) d)
    else (gn, out.1.2, d)
  else out.

Definition Recover (column_families : list ColumnFamilyDescriptor)
    (read_only error_if_log_file_exist error_if_data_exists_in_logs : bool)
    (recovered_seq : option Z) (d : DBImpl)
    : Status * option Z * DBImpl :=
  let opts := immutable_db_options d in
  (* the part under [if (!read_only)]: a status to return, or
     [is_new_db] *)
  let prepared : Status * DBImpl + bool * DBImpl :=
    if negb read_only then
      let sd := SetDirectories (dbname d) (wal_dir opts) (db_paths opts) d in
      if negb (ok sd.1) then inl sd else
      let d := sd.2 in
      let s := LockFile C in
      let d := emit EvLockFile d in
      let d := set_db_lock (ok s) d in
      if negb (ok s) then inl (s, d) else
      let s := FileExists C CurrentFileName in
      let created : Status * DBImpl + bool * DBImpl :=
        if IsNotFound s then
          if create_if_missing opts then
            let nd := NewDB d in
            if negb (ok nd.1) then inl nd else inr (true, nd.2)
          else
            inl (St.InvalidArgument
                   (St.msg2 (dbname d +:+ "/CURRENT")
                      "does not exist (create_if_missing is false)"),
                 d)
        else if ok s then
          if error_if_exists opts then
            inl (St.InvalidArgument
                   (St.msg2 (dbname d) "exists (error_if_exists is true)"),
                 d)
          else inr (false, d)
        else
          (* Unexpected error reading file *)
          inl (s, d) in
      match created with
      | inl sd => inl sd
      | inr (is_new_db, d) =>
          (* Verify compatibility of file_options_ and filesystem *)
          let direct :=
            use_direct_reads opts
            || use_direct_io_for_flush_and_compaction opts in
          let s := NewRandomAccessFile C direct in
          if negb (ok s) then
            (* Check if unsupported Direct I/O is the root cause *)
            if ok (NewRandomAccessFile C false) then
              inl (St.InvalidArgument
                     "Direct I/O is not supported by the specified DB.", d)
            else
              inl (St.InvalidArgument
                     (St.msg2 "Found options incompatible with filesystem"
                        (St.ToString s)), d)
          else inr (is_new_db, d)
      end
    else inr (false, d) in
  match prepared with
  | inl (s, d) => (s, recovered_seq, d)
  | inr (is_new_db, d) =>
      let vr := versions_Recover C column_families read_only in
      let s := vr.1.1 in
      if negb (ok s) then (s, recovered_seq, d) else
      let d := set_db_id vr.1.2 (set_versions vr.2 d) in
      (* the database id: from the IDENTITY file into the manifest, or
         from the manifest into the IDENTITY file *)
      let identity : Status * DBImpl + Status * DBImpl :=
        if string_empty (db_id d) then
          let s := FileExists C IdentityFileName in
          let created : Status * DBImpl + Status * DBImpl :=
            if IsNotFound s then
              let s := SetIdentityFile C in
              let d := emit EvSetIdentityFile d in
              if negb (ok s) then inl (s, d) else inr (s, d)
            else if negb (ok s) then inl (s, d)
            else inr (s, d) in
          match created with
          | inl sd => inl sd
          | inr (s, d) =>
              let d := set_db_id (GetDbIdentityFromIdentityFile C) d in
              if write_dbid_to_manifest opts then
                let edit := set_ve_db_id (Some (db_id d)) new_VersionEdit in
                let d := set_versions (set_vs_db_id (db_id d) (versions d))
                           d in
                let la := LogAndApply C (versions d) [edit] false in
                inr (s, set_versions la.2 (emit (EvLogAndApply [edit] false)
                                             d))
              else inr (s, d)
          end
        else inr (s, emit EvSetIdentityFile d) in
      match identity with
      | inl (s, d) => (s, recovered_seq, d)
      | inr (s, d) =>
          let s := if paranoid_checks opts && ok s then CheckConsistency C
                   else s in
          let s' :=
            if ok s && negb read_only
            then AddDirectories_all (column_family_set (versions d))
            else s in
          if ok s && negb read_only && negb (ok s') then
            (s', recovered_seq, d)
          else
          let s := s' in
          (* DB mutex is already held *)
          let sd := if ok s && persist_stats_to_disk opts
                    then InitPersistStatsColumnFamily d else (s, d) in
          let s := sd.1 in
          let d := sd.2 in
          let out :=
            if ok s
            then Recover_logs read_only error_if_log_file_exist
                   error_if_data_exists_in_logs is_new_db recovered_seq d
            else (s, recovered_seq, d) in
          Recover_options_file read_only out
      end
  end.

(** [Recover] up to the WALs, lines 362 to 481 of the source: the status
    and the database object with which it returns before it gets there,
    or [is_new_db], the status so far and the database object with which
    it turns to the WAL directory. *)
Definition Recover_before_logs
    (column_families : list ColumnFamilyDescriptor) (read_only : bool)
    (d : DBImpl) : Status * DBImpl + bool * Status * DBImpl :=
  let opts := immutable_db_options d in
  (* the part under [if (!read_only)]: a status to return, or
     [is_new_db] *)
  let prepared : Status * DBImpl + bool * DBImpl :=
    if negb read_only then
      let sd := SetDirectories (dbname d) (wal_dir opts) (db_paths opts) d in
      if negb (ok sd.1) then inl sd else
      let d := sd.2 in
      let s := LockFile C in
      let d := emit EvLockFile d in
      let d := set_db_lock (ok s) d in
      if negb (ok s) then inl (s, d) else
      let s := FileExists C CurrentFileName in
      let created : Status * DBImpl + bool * DBImpl :=
        if IsNotFound s then
          if create_if_missing opts then
            let nd := NewDB d in
            if negb (ok nd.1) then inl nd else inr (true, nd.2)
          else
            inl (St.InvalidArgument
                   (St.msg2 (dbname d +:+ "/CURRENT")
                      "does not exist (create_if_missing is false)"),
                 d)
        else if ok s then
          if error_if_exists opts then
            inl (St.InvalidArgument
                   (St.msg2 (dbname d) "exists (error_if_exists is true)"),
                 d)
          else inr (false, d)
        else
          (* Unexpected error reading file *)
          inl (s, d) in
      match created with
      | inl sd => inl sd
      | inr (is_new_db, d) =>
          (* Verify compatibility of file_options_ and filesystem *)
          let direct :=
            use_direct_reads opts
            || use_direct_io_for_flush_and_compaction opts in
          let s := NewRandomAccessFile C direct in
          if negb (ok s) then
            (* Check if unsupported Direct I/O is the root cause *)
            if ok (NewRandomAccessFile C false) then
              inl (St.InvalidArgument
                     "Direct I/O is not supported by the specified DB.", d)
            else
              inl (St.InvalidArgument
                     (St.msg2 "Found options incompatible with filesystem"
                        (St.ToString s)), d)
          else inr (is_new_db, d)
      end
    else inr (false, d) in
  match prepared with
  | inl sd => inl sd
  | inr (is_new_db, d) =>
      let vr := versions_Recover C column_families read_only in
      let s := vr.1.1 in
      if negb (ok s) then inl (s, d) else
      let d := set_db_id vr.1.2 (set_versions vr.2 d) in
      (* the database id: from the IDENTITY file into the manifest, or
         from the manifest into the IDENTITY file *)
      let identity : Status * DBImpl + Status * DBImpl :=
        if string_empty (db_id d) then
          let s := FileExists C IdentityFileName in
          let created : Status * DBImpl + Status * DBImpl :=
            if IsNotFound s then
              let s := SetIdentityFile C in
              let d := emit EvSetIdentityFile d in
              if negb (ok s) then inl (s, d) else inr (s, d)
            else if negb (ok s) then inl (s, d)
            else inr (s, d) in
          match created with
          | inl sd => inl sd
          | inr (s, d) =>
              let d := set_db_id (GetDbIdentityFromIdentityFile C) d in
              if write_dbid_to_manifest opts then
                let edit := set_ve_db_id (Some (db_id d)) new_VersionEdit in
                let d := set_versions (set_vs_db_id (db_id d) (versions d))
                           d in
                let la := LogAndApply C (versions d) [edit] false in
                inr (s, set_versions la.2 (emit (EvLogAndApply [edit] false)
                                             d))
              else inr (s, d)
          end
        else inr (s, emit EvSetIdentityFile d) in
      match identity with
      | inl sd => inl sd
      | inr (s, d) =>
          let s := if paranoid_checks opts && ok s then CheckConsistency C
                   else s in
          let s' :=
            if ok s && negb read_only
            then AddDirectories_all (column_family_set (versions d))
            else s in
          if ok s && negb read_only && negb (ok s') then inl (s', d)
          else
          let s := s' in
          (* DB mutex is already held *)
          let sd := if ok s && persist_stats_to_disk opts
                    then InitPersistStatsColumnFamily d else (s, d) in
          inr (is_new_db, sd.1, sd.2)
      end
  end.

(** *** [DBImpl::PersistentStatsProcessFormatVersion] *)
Definition PersistentStatsProcessFormatVersion (d : DBImpl)
    : Status * DBImpl :=
  (* persist version when stats CF doesn't exist *)
  let should_persist_format_version :=
    negb (persistent_stats_cfd_exists d) in
  let s_format := DecodePersistentStatsVersionNumber C true in
  let s_compatible := DecodePersistentStatsVersionNumber C false in
  let recreate :=
    persistent_stats_cfd_exists d
    && (negb (ok s_format.1) || negb (ok s_compatible.1)
        || (bool_decide (kStatsCFCurrentFormatVersion C < s_format.2)
            && bool_decide
                 (kStatsCFCompatibleFormatVersion C < s_compatible.2))) in
  let sd :=
    if recreate then
      let d := emit (EvDropColumnFamily kPersistentStatsColumnFamilyName)
                 d in
      let d := set_versions
                 (DropColumnFamily C (versions d)
                    kPersistentStatsColumnFamilyName) d in
      let cc := CreateColumnFamily C (versions d)
                  kPersistentStatsColumnFamilyName in
      let d := emit (EvCreateColumnFamily kPersistentStatsColumnFamilyName)
                 d in
      (cc.1, set_versions cc.2 d)
    else (St.OK, d) in
  (* should also persist version here because old stats CF is discarded *)
  let should_persist_format_version :=
    should_persist_format_version || recreate in
  if ok sd.1 && should_persist_format_version then
    let batch := mkWriteBatch 0 2
                   [(0, "format_version"); (0, "compatible_version")] in
    (Write C batch, emit (EvWrite batch) sd.2)
  else sd.

(** *** [DBImpl::CreateWAL] *)
Definition CreateWAL (log_file_num recycle_log_number : Z) (d : DBImpl)
    : Status * DBImpl :=
  let log_fname := LogFileName log_file_num in
  if bool_decide (recycle_log_number <> 0) then
    (ReuseWritableFile C log_fname (LogFileName recycle_log_number), d)
  else
    (NewWritableFile C log_fname, emit (EvNewWritableFile log_fname) d).

(** *** [DBImpl::Open] *)

Fixpoint SanitizeOptionsByTable (db_opts : DBOptions)
    (column_families : list ColumnFamilyDescriptor) : Status :=
  match column_families with
  | [] => St.OK
  | cf :: column_families' =>
      let s := TableFactory_SanitizeOptions C db_opts cf in
      if negb (ok s) then s
      else SanitizeOptionsByTable db_opts column_families'
  end.

(** [DBImpl::ValidateOptions(db_options, column_families)] *)
Fixpoint ValidateOptions_cfs (db_options : DBOptions)
    (column_families : list ColumnFamilyDescriptor) : Status :=
  match column_families with
  | [] => ValidateOptions db_options
  | cfd :: column_families' =>
      let s := ColumnFamilyData_ValidateOptions C db_options cfd in
      if negb (ok s) then s
      else ValidateOptions_cfs db_options column_families'
  end.

(** Modelled from the spec: the constructor of [DBImpl] is in
    db/db_impl/db_impl.cc; the object keeps the sanitized options, which
    are immutable from then on, and starts with nothing recovered. *)
Definition new_DBImpl (db_options : DBOptions) (dbname : string) : DBImpl :=
  mkDBImpl (SanitizeOptions (GetMaxOpenFiles C) dbname db_options) dbname
    (mkVersionSet 2 0 [] 0 "") false "" false 0 [] [] 0 true false [].

(** [impl->env_->CreateDirIfMissing(path)] for the paths, up to a
    failure. *)
Fixpoint create_paths (paths : list string) (s : Status) (d : DBImpl)
    : Status * DBImpl :=
  match paths with
  | [] => (s, d)
  | p :: paths' =>
      let s := CreateDirIfMissing C p in
      let d := emit (EvCreateDirIfMissing p) d in
      if negb (ok s) then (s, d) else create_paths paths' s d
  end.

(** The column family handles: the names of the families bound. *)
Fixpoint set_handles (create_missing : bool)
    (column_families : list ColumnFamilyDescriptor)
    (handles : list string) (d : DBImpl)
    : Status * list string * DBImpl :=
  match column_families with
  | [] => (St.OK, handles, d)
  | cf :: column_families' =>
      match GetColumnFamilyByName (name cf)
              (column_family_set (versions d)) with
      | Some cfd =>
          set_handles create_missing column_families'
            (handles ++ [name cf]) d
      | None =>
          if create_missing then
            (* missing column family, create it *)
            let cc := CreateColumnFamily C (versions d) (name cf) in
            let d := emit (EvCreateColumnFamily (name cf)) d in
            let d := set_versions cc.2 d in
            if ok cc.1 then
              set_handles create_missing column_families'
                (handles ++ [name cf]) d
            else (cc.1, handles, d)
          else
            (St.InvalidArgument
               (St.msg2 "Column family not found: " (name cf)),
             handles, d)
      end
  end.

(** The checks on every column family before the database is handed
    out. *)
Fixpoint check_column_families (cfds : list ColumnFamilyData) (d : DBImpl)
    : Status * DBImpl :=
  match cfds with
  | [] => (St.OK, d)
  | cfd :: cfds' =>
      let s :=
        if compaction_style_fifo cfd
           && existsb (fun num_files => bool_decide (num_files > 0))
                (List.tl (NumLevelFiles cfd))
        then St.InvalidArgument
               ("Not all files are at level 0. Cannot " +:+
                "open with FIFO compaction style.")
        else St.OK in
      let d := if negb (IsSnapshotSupported cfd)
               then set_is_snapshot_supported false d else d in
      let s :=
        if merge_operator cfd && negb (IsMergeOperatorSupported cfd) then
          St.InvalidArgument
            (St.msg2
               ("The memtable of column family %s does not support merge " +:+
                "operator its options.merge_operator is non-null")
               (GetName cfd))
        else s in
      if negb (ok s) then (s, d) else check_column_families cfds' d
  end.

(** [DBImpl::Open] from the return of [Recover] on is a sequence of
    blocks under [if (s.ok())]; each takes the status and the database
    object and gives them back. *)

(** The new WAL: [NewFileNumber], [CreateWAL], [logs_]. *)
Definition Open_create_wal (s : Status) (d : DBImpl) : Status * DBImpl :=
  if ok s then
    let nf := NewFileNumber (versions d) in
    let new_log_number := nf.1 in
    let d := set_versions nf.2 d in
    let cw := CreateWAL new_log_number 0 d in
    if ok cw.1 then
      (cw.1,
       set_logs (logs cw.2 ++ [new_log_number])
         (set_logfile_number new_log_number cw.2))
    else cw
  else (s, d).

(** set column family handles *)
Definition Open_set_handles (db_options : DBOptions)
    (column_families : list ColumnFamilyDescriptor) (s : Status) (d : DBImpl)
    : Status * list string * DBImpl :=
  if ok s
  then set_handles (create_missing_column_families db_options)
         column_families [] d
  else (s, [], d).

(** Super-versions, the new WAL among the live ones, the obsolete files,
    and the sync of the database directory. *)
Definition Open_install (s : Status) (d : DBImpl) : Status * DBImpl :=
  if ok s then
    let d := fold_left
               (fun d cfd => emit (EvInstallSuperVersion (GetID cfd)) d)
               (column_family_set (versions d)) d in
    let d := set_alive_log_files
               (alive_log_files d
                ++ [mkLogFileNumberSize (logfile_number d) 0]) d in
    let d := emit EvDeleteObsoleteFiles d in
    (Fsync C, emit EvFsync d)
  else (s, d).

(** In WritePrepared there could be gap in sequence numbers.  This breaks
    the trick we use in kPointInTimeRecovery which assumes the first seq in
    the log right after the corrupted log is one larger than the last seq
    we read from the logs.  To let this trick keep working, we add a dummy
    entry with the expected sequence to the first log right after
    recovery. *)
Definition Open_dummy_record (recovered_seq : Z) (s : Status) (d : DBImpl)
    : Status * DBImpl :=
  if ok s then
    if bool_decide (recovered_seq <> kMaxSequenceNumber) then
      let empty_batch := SetSequence empty_WriteBatch recovered_seq in
      (* [impl->logs_.back().writer] *)
      let log_writer := List.last (logs d) 0 in
      (WriteToWAL C log_writer empty_batch,
       emit (EvWriteToWAL log_writer empty_batch) d)
    else (s, d)
  else (s, d).

Definition Open_persistent_stats (s : Status) (d : DBImpl)
    : Status * DBImpl :=
  if ok s && persist_stats_to_disk (immutable_db_options d)
  then PersistentStatsProcessFormatVersion d else (s, d).

Definition Open_check_column_families (s : Status) (d : DBImpl)
    : Status * DBImpl :=
  if ok s then check_column_families (column_family_set (versions d)) d
  else (s, d).

(** The OPTIONS file and the hand-over: the status, [*dbptr], [*handles]
    and the calls made.  The notification of the SST file manager and the
    start of the background work are not kept. *)
Definition Open_finish (s : Status) (handles : list string) (d : DBImpl)
    : Status * option DBImpl * list string * list Event :=
  (* Persist RocksDB Options before scheduling the compaction. *)
  let persist_options_status :=
    if ok s then WriteOptionsFile C else St.OK in
  let d := if ok s
           then set_opened_successfully true (emit EvWriteOptionsFile d)
           else d in
  let s :=
    if ok s && negb (ok persist_options_status) then
      St.IOError
        (St.msg2 "DB::Open() failed --- Unable to persist Options file"
           (St.ToString persist_options_status))
    else s in
  if ok s then (s, Some d, handles, trace d)
  else (s, None, [], trace d).

(** [s] is the status of [Recover] and [recovered_seq] the sequence it
    reported. *)
Definition Open_go_live (db_options : DBOptions)
    (column_families : list ColumnFamilyDescriptor) (s : Status)
    (recovered_seq : Z) (d : DBImpl)
    : Status * option DBImpl * list string * list Event :=
  let sd := Open_create_wal s d in
  let sh := Open_set_handles db_options column_families sd.1 sd.2 in
  let sd := Open_install sh.1.1 sh.2 in
  let sd := Open_dummy_record recovered_seq sd.1 sd.2 in
  let sd := Open_persistent_stats sd.1 sd.2 in
  let sd := Open_check_column_families sd.1 sd.2 in
  Open_finish sd.1 sh.1.2 sd.2.

(** [DBImpl::Open] up to the call of [Recover]: a status to return, or
    the new database object. *)
Definition Open_prepare (db_options : DBOptions) (dbname : string)
    (column_families : list ColumnFamilyDescriptor)
    : Status * list Event + DBImpl :=
  let s := SanitizeOptionsByTable db_options column_families in
  if negb (ok s) then inl (s, []) else
  let s := ValidateOptions_cfs db_options column_families in
  if negb (ok s) then inl (s, []) else
  let impl := new_DBImpl db_options dbname in
  let s := CreateDirIfMissing C (wal_dir (immutable_db_options impl)) in
  let impl := emit (EvCreateDirIfMissing
                      (wal_dir (immutable_db_options impl))) impl in
  let sd :=
    if ok s then
      let paths :=
        List.map path (db_paths (immutable_db_options impl))
        ++ List.concat
             (List.map (fun cf => List.map path (cf_paths (options cf)))
                column_families) in
      create_paths paths s impl
    else (s, impl) in
  if negb (ok sd.1) then inl (sd.1, trace sd.2) else
  let impl := sd.2 in
  let s := CreateArchivalDirectory C in
  let impl := emit EvCreateArchivalDirectory impl in
  if negb (ok s) then inl (s, trace impl) else
  inr impl.

(** [DBImpl::Open(db_options, dbname, column_families, handles, dbptr,
    ...)]: the status, [*dbptr], [*handles] and the calls made. *)
Definition Open (db_options : DBOptions) (dbname : string)
    (column_families : list ColumnFamilyDescriptor)
    : Status * option DBImpl * list string * list Event :=
  match Open_prepare db_options dbname column_families with
  | inl (s, calls) => (s, None, [], calls)
  | inr impl =>
      (* Handles create_if_missing, error_if_exists *)
      let rc := Recover column_families false false false
                  (Some kMaxSequenceNumber) impl in
      Open_go_live db_options column_families rc.1.1
        (default kMaxSequenceNumber rc.1.2) rc.2
  end.

End Recovery.

(** ** Notions used in the statements *)

(** The replay state a loop body ends with. *)
Definition state_of (c : Control) : Replay :=
  match c with
  | Continue r | Break r | Return _ r => r
  end.

(** [d'] is a later state of the database object [d]: calls were added
    to the trace, the file-number counter did not go back, and the list of
    live WAL writers, which only [Open] touches, is the same. *)
Definition extends (d d' : DBImpl) : Prop :=
  trace d `prefix_of` trace d' /\
  next_file_number (versions d) <= next_file_number (versions d') /\
  logs d' = logs d /\
  logfile_number d' = logfile_number d.



(** [RecoverLogFiles] on the WAL [log_number] once it is past the
    filter on [min_log_number]: the state after
    [versions_->MarkFileNumberUsed(log_number)]. *)
Definition marked (log_number : Z) (r : Replay) : Replay :=
  set_impl
    (set_versions
       (MarkFileNumberUsed log_number
          (versions (emit (EvMarkFileNumberUsed log_number) (impl r))))
       (emit (EvMarkFileNumberUsed log_number) (impl r))) r.

(** C2 as it is stated: a WAL numbered at or below the boundary
    [min_log_number] is skipped, none of its records is inserted, and
    [MarkFileNumberUsed] is still called on its number, which moves the
    file-number counter past it. *)
Definition skipped_up_to_boundary_and_marked (C : Collab) (opts : DBOptions)
    (read_only : bool) (min_log_number : Z) : Prop :=
  forall (r : Replay) (log_number : Z),
    log_number <= min_log_number ->
    let r' := state_of (replay_log C opts read_only min_log_number
                          log_number r) in
    (forall batch,
       EvInsertInto log_number batch ∈ trace (impl r') ->
       EvInsertInto log_number batch ∈ trace (impl r)) /\
    EvMarkFileNumberUsed log_number ∈ trace (impl r') /\
    log_number < next_file_number (versions (impl r')).

(** The same without the counter, which a column family created on the
    way may set as it likes. *)
Definition grows (d d' : DBImpl) : Prop :=
  trace d `prefix_of` trace d' /\
  logs d' = logs d /\
  logfile_number d' = logfile_number d.

(** C1 as it is stated: an open that replayed a WAL record and succeeds
    has written a dummy empty batch to the new WAL. *)
Definition dummy_after_any_replay (C : Collab) (db_options : DBOptions)
    (dbname : string) (column_families : list ColumnFamilyDescriptor)
    : Prop :=
  let out := Open C db_options dbname column_families in
  ok out.1.1.1 = true ->
  (exists log_number batch, EvInsertInto log_number batch ∈ out.2) ->
  exists d seq,
    out.1.1.2 = Some d /\
    EvWriteToWAL (logfile_number d) (SetSequence empty_WriteBatch seq)
    ∈ out.2.

(** What [Recover] reports in [*recovered_seq]: what it was given, or the
    sequence cursor of a replay that found a corrupted log. *)
Definition reported_by_replay (C : Collab) (read_only : bool)
    (seq : Z) : Prop :=
  exists logs d,
    let rl := RecoverLogFiles C (merge_sort Z.le logs) kMaxSequenceNumber
                read_only d in
    corrupted_log_found rl.2 = true /\ seq = next_sequence rl.2.

(** A call of [ReadRecord] that hands out nothing to insert: no record,
    or one shorter than a batch header. *)
Definition no_batch (rd : ReadRecord) : Prop :=
  match record rd with
  | None => True
  | Some rec => size rec < kHeader
  end.

(** The WAL number a name of the WAL directory stands for, if the name is
    that of a WAL: [ParseFileName(...) && type == kLogFile]. *)
Definition log_number_of (C : Collab) (f : string) : option Z :=
  match ParseFileName C f with
  | Some (number, kLogFile) => Some number
  | _ => None
  end.

(** The calls a replay makes when it only reads the WALs: it marks their
    numbers as used and inserts their batches into the memtables. *)
Definition replay_call (ev : Event) : Prop :=
  match ev with
  | EvMarkFileNumberUsed _ | EvInsertInto _ _ => True
  | _ => False
  end.

(** From [d] to [d'] calls were made, all of them among [allowed]. *)
Definition only_calls (allowed : Event -> Prop) (d d' : DBImpl) : Prop :=
  exists calls, trace d' = trace d ++ calls /\ Forall allowed calls.

(** What the replay remembers of a corruption: whether it stopped for
    one, whether it found a corrupted log, and the number of that log. *)
Definition corruption_flags (r : Replay) : bool * bool * Z :=
  (stop_replay_for_corruption r, corrupted_log_found r,
   corrupted_log_number r).

(** The calls by which [Recover] takes hold of the directories of the
    database before it looks at what is in them. *)
Definition directory_or_lock_call (ev : Event) : Prop :=
  match ev with
  | EvCreateDirIfMissing _ | EvNewDirectory _ | EvLockFile => True
  | _ => False
  end.

(** The directories [SetDirectories] goes through, in its order: the
    database directory, the WAL directory when it is another one, and the
    data paths that are not the database directory. *)
Definition directories_to_set (dbname wal_dir : string)
    (data_paths : list DbPath) : list string :=
  dbname
  :: (if negb (string_empty wal_dir) && bool_decide (dbname <> wal_dir)
      then [wal_dir] else [])
  ++ List.filter (fun p => negb (bool_decide (p = dbname)))
       (List.map path data_paths).

(** The numbers of the tables built among [calls]. *)
Definition tables_built (calls : list Event) : list Z :=
  omap (fun ev => match ev with
                  | EvBuildTable _ number => Some number
                  | _ => None
                  end) calls.

(** The local variables of [RecoverLogFiles] when it enters the loop
    over the WALs: status OK, no flag set, an empty edit per column
    family. *)
Definition RecoverLogFiles_start (d : DBImpl) (next_sequence0 : Z)
    : Replay :=
  mkReplay St.OK next_sequence0 false false false kMaxSequenceNumber false
    (list_to_map
       (List.map
          (fun cfd => (GetID cfd,
                       set_ve_column_family (GetID cfd) new_VersionEdit))
          (column_family_set (versions d))))
    [] d.

(** ** Concrete collaborators

    A small family of collaborators on which the functions above can be
    run: a database directory with the WAL files [wal_files], whose reader
    answers [wals]; everything that is not a parameter succeeds. *)
Module Scenario.

(** The options of the examples: point-in-time recovery with
    [paranoid_checks], one database path, no limit on the open files. *)
Definition default_options : DBOptions :=
  mkDBOptions (-1) None 0 None 0 0 0 0 0 kPointInTimeRecovery "" []
    false 0 false false false true false false false false 1000 false true
    false false false false false false false.

Definition with_mmap_and_direct_reads (o : DBOptions) : DBOptions :=
  mkDBOptions (max_open_files o) (write_buffer_manager o)
    (db_write_buffer_size o) (rate_limiter o) (bytes_per_sync o)
    (delayed_write_rate o) (WAL_ttl_seconds o) (WAL_size_limit_MB o)
    (recycle_log_file_num o) (wal_recovery_mode o) (wal_dir o) (db_paths o)
    true (compaction_readahead_size o)
    (new_table_reader_for_compaction_inputs o) (allow_2pc o)
    (avoid_flush_during_recovery o) (paranoid_checks o)
    (skip_checking_sst_file_sizes_on_db_open o) true
    (allow_mmap_writes o) (use_direct_io_for_flush_and_compaction o)
    (keep_log_file_num o) (unordered_write o)
    (allow_concurrent_memtable_write o) (enable_pipelined_write o)
    (atomic_flush o) (create_if_missing o) (create_missing_column_families o)
    (error_if_exists o) (write_dbid_to_manifest o) (persist_stats_to_disk o).

Definition with_paranoid_checks (v : bool) (o : DBOptions) : DBOptions :=
  mkDBOptions (max_open_files o) (write_buffer_manager o)
    (db_write_buffer_size o) (rate_limiter o) (bytes_per_sync o)
    (delayed_write_rate o) (WAL_ttl_seconds o) (WAL_size_limit_MB o)
    (recycle_log_file_num o) (wal_recovery_mode o) (wal_dir o) (db_paths o)
    (use_direct_reads o) (compaction_readahead_size o)
    (new_table_reader_for_compaction_inputs o) (allow_2pc o)
    (avoid_flush_during_recovery o) v
    (skip_checking_sst_file_sizes_on_db_open o) (allow_mmap_reads o)
    (allow_mmap_writes o) (use_direct_io_for_flush_and_compaction o)
    (keep_log_file_num o) (unordered_write o)
    (allow_concurrent_memtable_write o) (enable_pipelined_write o)
    (atomic_flush o) (create_if_missing o) (create_missing_column_families o)
    (error_if_exists o) (write_dbid_to_manifest o) (persist_stats_to_disk o).

Definition with_wal_recovery_mode (v : WALRecoveryMode) (o : DBOptions)
    : DBOptions :=
  mkDBOptions (max_open_files o) (write_buffer_manager o)
    (db_write_buffer_size o) (rate_limiter o) (bytes_per_sync o)
    (delayed_write_rate o) (WAL_ttl_seconds o) (WAL_size_limit_MB o)
    (recycle_log_file_num o) v (wal_dir o) (db_paths o)
    (use_direct_reads o) (compaction_readahead_size o)
    (new_table_reader_for_compaction_inputs o) (allow_2pc o)
    (avoid_flush_during_recovery o) (paranoid_checks o)
    (skip_checking_sst_file_sizes_on_db_open o) (allow_mmap_reads o)
    (allow_mmap_writes o) (use_direct_io_for_flush_and_compaction o)
    (keep_log_file_num o) (unordered_write o)
    (allow_concurrent_memtable_write o) (enable_pipelined_write o)
    (atomic_flush o) (create_if_missing o) (create_missing_column_families o)
    (error_if_exists o) (write_dbid_to_manifest o) (persist_stats_to_disk o).

Definition default_cf_options : ColumnFamilyOptions :=
  mkColumnFamilyOptions (64 * 1024 * 1024) [].

Definition default_cf : ColumnFamilyDescriptor :=
  mkColumnFamilyDescriptor "default" default_cf_options.

(** The default column family as the manifest gives it back, with its
    log number. *)
Definition default_cfd (log_number : Z) : ColumnFamilyData :=
  mkColumnFamilyData 0 "default" log_number (new_MemTable 0) false [] false
    true true.

Definition recovered_versions (cfds : list ColumnFamilyData) : VersionSet :=
  mkVersionSet 2 0 cfds 0 "".

(** Modelled from the spec: [WriteBatchInternal::InsertInto] is in
    db/write_batch.cc; the spec has it apply the updates of the batch to
    the memtables of their column families, skip silently the updates of
    a missing column family, and move the sequence cursor.  Updates of a
    column family that was flushed past this WAL are skipped as well. *)
Fixpoint insert_updates (log_number : Z) (seq : Z) (ups : list (Z * string))
    (cfds : list ColumnFamilyData) : list ColumnFamilyData * Z * bool :=
  match ups with
  | [] => (cfds, seq, false)
  | (cf, kv) :: ups' =>
      let takes (cfd : ColumnFamilyData) :=
        bool_decide (GetID cfd = cf)
        && bool_decide (GetLogNumber cfd <= log_number) in
      let add (cfd : ColumnFamilyData) :=
        if takes cfd then
          set_mem
            (mkMemTable
               (if bool_decide (first_seqno (mem cfd) = 0) then seq
                else first_seqno (mem cfd))
               (earliest_seqno (mem cfd))
               (entries (mem cfd) ++ [(seq, kv)])) cfd
        else cfd in
      let rest := insert_updates log_number (seq + 1) ups'
                    (List.map add cfds) in
      (rest.1.1, rest.1.2, existsb takes cfds || rest.2)
  end.

Definition InsertInto_ok (batch : WriteBatch) (log_number next_seq : Z)
    (cfds : list ColumnFamilyData) : InsertResult :=
  let ins := insert_updates log_number (Sequence batch) (updates batch)
               cfds in
  mkInsertResult St.OK ins.1.1 ins.1.2 ins.2 [].

(** Modelled from the spec: [DBImpl::MaybeIgnoreError] is in
    db/db_impl/db_impl.cc; with [paranoid_checks] an error is fatal,
    without it the error is ignored. *)
Definition MaybeIgnoreError_of (paranoid : bool) (s : Status) : Status :=
  if ok s || paranoid then s else St.OK.

Definition lookup_wal (wals : list (Z * list ReadRecord)) (n : Z)
    : list ReadRecord :=
  match List.find (fun nw => bool_decide (nw.1 = n)) wals with
  | Some nw => nw.2
  | None => []
  end.

Definition parse_wal_name (wal_files : list (string * Z)) (f : string)
    : option (Z * FileType) :=
  match List.find (fun fw => bool_decide (fw.1 = f)) wal_files with
  | Some fw => Some (fw.2, kLogFile)
  | None => None
  end.

Definition collab (paranoid : bool) (table_check : Status)
    (add_record set_current current_exists : Status)
    (wal_files : list (string * Z)) (wals : list (Z * list ReadRecord))
    (open_wal : Z -> Status) (recovered : VersionSet) (min_log : Z)
    (filter : option WalFilter) : Collab :=
  mkCollab 1024
    (fun _ _ => table_check) (fun _ _ => St.OK)
    (fun _ => St.OK) (fun _ => St.OK) St.OK St.OK
    (fun f => match f with
              | CurrentFileName => current_exists
              | _ => St.OK
              end)
    St.OK "c0ffee00-0000-4000-8000-000000000001"
    (fun _ => St.OK) (fun _ _ => St.OK) (fun _ => add_record) St.OK
    set_current
    (fun _ => St.OK)
    (fun _ => (St.OK, List.map fst wal_files)) (parse_wal_name wal_files)
    (fun _ => (St.OK, 0)) (fun _ _ => St.OK) open_wal
    (fun n _ => lookup_wal wals n) St.OK
    (fun _ _ => (St.OK, "c0ffee00-0000-4000-8000-000000000001", recovered))
    (fun _ => min_log)
    (fun vs _ _ => (St.OK, vs)) St.OK (fun _ => St.OK)
    (fun vs _ => (St.OK, vs)) (fun vs _ => vs)
    (MaybeIgnoreError_of paranoid) filter InsertInto_ok
    (fun _ _ => (St.OK, 1024)) (fun _ _ => St.OK)
    (fun _ => (St.OK, 1)) 1 1 (fun _ => St.OK) St.OK.

(** A record holding one batch of one update for the default column
    family. *)
Definition put (seq : Z) (kv : string) : Slice :=
  mkSlice 32 (mkWriteBatch seq 1 [(0, kv)]).

Definition some_corruption : Status := St.Corruption "checksum mismatch".

(** An existing database whose WAL 4 holds one intact record. *)
Definition clean_wal : Collab :=
  collab true St.OK St.OK St.OK St.OK [("000004.log", 4)]
    [(4, [mkReadRecord [] (Some (put 1 "k1=v1"))])]
    (fun _ => St.OK) (recovered_versions [default_cfd 0]) 0 None.

(** The same with a corrupted record after the intact one. *)
Definition torn_wal : Collab :=
  collab true St.OK St.OK St.OK St.OK [("000004.log", 4)]
    [(4, [mkReadRecord [] (Some (put 1 "k1=v1"));
          mkReadRecord [(7, some_corruption)] None])]
    (fun _ => St.OK) (recovered_versions [default_cfd 0]) 0 None.

(** A table factory that rejects the options of the column family. *)
Definition rejecting_table_factory : Collab :=
  collab true
    (St.InvalidArgument
       "Enable cache_index_and_filter_blocks, but block cache is disabled")
    St.OK St.OK St.OK [] [] (fun _ => St.OK)
    (recovered_versions [default_cfd 0]) 0 None.

(** An empty directory in which the CURRENT file cannot be published, and
    one in which the manifest record cannot be written. *)
Definition current_fails : Collab :=
  collab true St.OK St.OK (St.IOError "rename CURRENT") (St.NotFound "")
    [] [] (fun _ => St.OK) (recovered_versions [default_cfd 0]) 0 None.

Definition add_record_fails : Collab :=
  collab true St.OK (St.IOError "No space left on device") St.OK
    (St.NotFound "") [] [] (fun _ => St.OK)
    (recovered_versions [default_cfd 0]) 0 None.

(** The state of a replay that stopped at a corruption in WAL 7 while the
    column family was already flushed up to WAL 9. *)
Definition flushed_past_corruption : Replay :=
  mkReplay St.OK 11 false true false 7 true ∅ []
    (mkDBImpl default_options "db" (recovered_versions [default_cfd 9])
       true "" false 0 [] [] 0 true false []).

(** An existing database whose WAL 4 cannot be opened after its name was
    listed, and the database object [Recover] has built when it turns to
    the WALs, with a write in the memtable. *)
Definition unreadable_wal : Collab :=
  collab true St.OK St.OK St.OK St.OK [("000004.log", 4)]
    [(4, [mkReadRecord [] (Some (put 1 "k1=v1"))])]
    (fun _ => St.IOError "000004.log: Permission denied")
    (recovered_versions [default_cfd 0]) 0 None.

Definition recovering (cfds : list ColumnFamilyData) : DBImpl :=
  mkDBImpl (SanitizeOptions 1024 "db" default_options) "db"
    (recovered_versions cfds) true "" false 0 [] [] 0 true false [].

Definition written_cfd : ColumnFamilyData :=
  mkColumnFamilyData 0 "default" 0 (mkMemTable 1 0 [(1, "k1=v1")]) false []
    false true true.

(** The same options without [paranoid_checks], and a WAL with nothing
    but damaged bytes. *)
Definition relaxed_options : DBOptions :=
  with_paranoid_checks false
    (with_wal_recovery_mode kAbsoluteConsistency default_options).

Definition damaged_wal : Collab :=
  collab false St.OK St.OK St.OK St.OK [("000004.log", 4)]
    [(4, [mkReadRecord [(7, some_corruption)] (Some (mkSlice 5 empty_WriteBatch));
          mkReadRecord [(9, some_corruption)] None])]
    (fun _ => St.OK) (recovered_versions [default_cfd 0]) 0 None.

(** A WAL filter that empties every batch and stamps its own sequence
    number on it, and one that doubles every batch. *)
Definition emptying_filter : WalFilter :=
  mkWalFilter (fun _ _ => (kContinueProcessing, mkWriteBatch 999 0 [], true))
    "emptying".

Definition doubling_filter : WalFilter :=
  mkWalFilter
    (fun _ b => (kContinueProcessing,
                 mkWriteBatch (Sequence b) (2 * Count b)
                   (updates b ++ updates b), true))
    "doubling".

Definition filtered_wal (filter : WalFilter) : Collab :=
  collab true St.OK St.OK St.OK St.OK [("000004.log", 4)]
    [(4, [mkReadRecord [] (Some (put 1 "k1=v1"))])]
    (fun _ => St.OK) (recovered_versions [default_cfd 0]) 0 (Some filter).

(** The local variables of [RecoverLogFiles] when it starts on [d]. *)
Definition start_replay (d : DBImpl) : Replay :=
  mkReplay St.OK kMaxSequenceNumber false false false kMaxSequenceNumber
    false ∅ [] d.

(** Three WALs: the first is damaged after the batch at sequence 10, the
    second starts at sequence 50, the third at sequence 11. *)
Definition three_wals : Collab :=
  collab true St.OK St.OK St.OK St.OK
    [("000001.log", 1); ("000002.log", 2); ("000003.log", 3)]
    [(1, [mkReadRecord [] (Some (put 10 "k10=v"));
          mkReadRecord [(7, some_corruption)] None]);
     (2, [mkReadRecord [] (Some (put 50 "k50=v"))]);
     (3, [mkReadRecord [] (Some (put 11 "k11=v"))])]
    (fun _ => St.OK) (recovered_versions [default_cfd 0]) 0 None.


(** An existing database that keeps the WALs from number 5 on and finds
    WAL 5, with one intact record, in its WAL directory. *)
Definition boundary_wal : Collab :=
  collab true St.OK St.OK St.OK St.OK [("000005.log", 5)]
    [(5, [mkReadRecord [] (Some (put 1 "k1=v1"))])]
    (fun _ => St.OK) (recovered_versions [default_cfd 0]) 5 None.

(** The database object of [Open] when it calls [Recover], for the
    default options and column family. *)
Definition state_open_prepared (C : Collab) : DBImpl :=
  match Open_prepare C default_options "db" [default_cf] with
  | inr impl => impl
  | inl _ => new_DBImpl C default_options "db"
  end.

(** An existing database that is opened twice: the lock is taken. *)
Definition locked : Collab :=
  mkCollab 1024 (fun _ _ => St.OK) (fun _ _ => St.OK)
    (fun _ => St.OK) (fun _ => St.OK) St.OK
    (St.IOError "lock hold by current process") (fun _ => St.OK) St.OK ""
    (fun _ => St.OK) (fun _ _ => St.OK) (fun _ => St.OK) St.OK St.OK
    (fun _ => St.OK) (fun _ => (St.OK, [])) (fun _ => None)
    (fun _ => (St.OK, 0)) (fun _ _ => St.OK) (fun _ => St.OK)
    (fun _ _ => []) St.OK
    (fun _ _ => (St.OK, "", recovered_versions [default_cfd 0]))
    (fun _ => 0) (fun vs _ _ => (St.OK, vs)) St.OK (fun _ => St.OK)
    (fun vs _ => (St.OK, vs)) (fun vs _ => vs)
    (MaybeIgnoreError_of true) None InsertInto_ok
    (fun _ _ => (St.OK, 1024)) (fun _ _ => St.OK)
    (fun _ => (St.OK, 1)) 1 1 (fun _ => St.OK) St.OK.

(** The database object of a recovery under the options [opts]. *)
Definition recovering_with (opts : DBOptions)
    (cfds : list ColumnFamilyData) : DBImpl :=
  mkDBImpl (SanitizeOptions 1024 "db" opts) "db" (recovered_versions cfds)
    true "" false 0 [] [] 0 true false [].

(** A WAL filter that looks at every record and lets it pass as it is. *)
Definition passing_filter : WalFilter :=
  mkWalFilter (fun _ b => (kContinueProcessing, b, false)) "passing".

(** An existing database with two WALs: WAL 4 holds one intact record,
    WAL 5 cannot be opened. *)
Definition half_replayed : Collab :=
  collab true St.OK St.OK St.OK St.OK
    [("000004.log", 4); ("000005.log", 5)]
    [(4, [mkReadRecord [] (Some (put 1 "k1=v1"))])]
    (fun n => if bool_decide (n = 5)
              then St.IOError "000005.log: Permission denied" else St.OK)
    (recovered_versions [default_cfd 0]) 0 None.

(** The database object with which [Recover] turns to the WAL directory,
    for a read-write open of the default column family. *)
Definition state_before_logs (C : Collab) (d : DBImpl) : DBImpl :=
  match Recover_before_logs C [default_cf] false d with
  | inr (_, _, d') => d'
  | inl (_, d') => d'
  end.

(** A second column family, flushed up to the WAL before [log_number]. *)
Definition other_cfd (log_number : Z) : ColumnFamilyData :=
  mkColumnFamilyData 1 "other" log_number (new_MemTable 0) false [] false
    true true.

(** An existing database with two column families, the second flushed
    past WAL 1, and two WALs: WAL 1 is damaged after the batch at
    sequence 10, WAL 2 starts at sequence 11. *)
Definition resumed_wals : Collab :=
  collab true St.OK St.OK St.OK St.OK
    [("000001.log", 1); ("000002.log", 2)]
    [(1, [mkReadRecord [] (Some (put 10 "k10=v"));
          mkReadRecord [(7, some_corruption)] None]);
     (2, [mkReadRecord [] (Some (put 11 "k11=v"))])]
    (fun _ => St.OK) (recovered_versions [default_cfd 1; other_cfd 2]) 1
    None.

(** The same with a WAL 2 that starts off sequence, so that the replay
    ends with the stop flag set. *)
Definition stopped_wals : Collab :=
  collab true St.OK St.OK St.OK St.OK
    [("000001.log", 1); ("000002.log", 2)]
    [(1, [mkReadRecord [] (Some (put 10 "k10=v"));
          mkReadRecord [(7, some_corruption)] None]);
     (2, [mkReadRecord [] (Some (put 50 "k50=v"))])]
    (fun _ => St.OK) (recovered_versions [default_cfd 1; other_cfd 2]) 1
    None.

(** A WAL filter that doubles every batch and tells the replay to ignore
    the record. *)
Definition ignoring_filter : WalFilter :=
  mkWalFilter
    (fun _ b => (kIgnoreCurrentRecord,
                 mkWriteBatch (Sequence b) (2 * Count b)
                   (updates b ++ updates b), true))
    "ignoring".

End Scenario.

(** * Properties *)

(** ** Option sanitizer *)

(** The blocks after the first leave [max_open_files] alone. *)
Ltac same_field stage :=
  intros; unfold stage; cbv zeta; repeat case_match; reflexivity.

Lemma max_open_files_write_buffer_manager o :
  max_open_files (sanitize_write_buffer_manager o) = max_open_files o.
Proof. same_field sanitize_write_buffer_manager. Qed.

Lemma max_open_files_bytes_per_sync o :
  max_open_files (sanitize_bytes_per_sync o) = max_open_files o.
Proof. same_field sanitize_bytes_per_sync. Qed.

Lemma max_open_files_delayed_write_rate o :
  max_open_files (sanitize_delayed_write_rate o) = max_open_files o.
Proof. same_field sanitize_delayed_write_rate. Qed.

Lemma max_open_files_recycle_log_file_num o :
  max_open_files (sanitize_recycle_log_file_num o) = max_open_files o.
Proof. same_field sanitize_recycle_log_file_num. Qed.

Lemma max_open_files_wal_dir n o :
  max_open_files (sanitize_wal_dir n o) = max_open_files o.
Proof. same_field sanitize_wal_dir. Qed.

Lemma max_open_files_db_paths n o :
  max_open_files (sanitize_db_paths n o) = max_open_files o.
Proof. same_field sanitize_db_paths. Qed.

Lemma max_open_files_compaction_readahead o :
  max_open_files (sanitize_compaction_readahead o) = max_open_files o.
Proof. same_field sanitize_compaction_readahead. Qed.

Lemma max_open_files_avoid_flush_during_recovery o :
  max_open_files (sanitize_avoid_flush_during_recovery o) = max_open_files o.
Proof. same_field sanitize_avoid_flush_during_recovery. Qed.

Lemma max_open_files_paranoid_checks o :
  max_open_files (sanitize_paranoid_checks o) = max_open_files o.
Proof. same_field sanitize_paranoid_checks. Qed.

Lemma SanitizeOptions_max_open_files (os : Z) (dbname : string)
    (src : DBOptions) :
  max_open_files (SanitizeOptions os dbname src) =
  max_open_files (sanitize_max_open_files os src).
Proof.
  unfold SanitizeOptions.
  rewrite max_open_files_paranoid_checks,
    max_open_files_avoid_flush_during_recovery,
    max_open_files_compaction_readahead, max_open_files_db_paths,
    max_open_files_wal_dir, max_open_files_recycle_log_file_num,
    max_open_files_delayed_write_rate, max_open_files_bytes_per_sync,
    max_open_files_write_buffer_manager.
  reflexivity.
Qed.

(** C6, as stated, fails: with a platform limit of 2^23 open files a
    request for 5000000 is kept, above min(2^23, 2^22). *)
Lemma SanitizeOptions_max_open_files_above_2_22 :
  let src := set_max_open_files 5000000 Scenario.default_options in
  let result := SanitizeOptions 8388608 "db" src in
  max_open_files src <> -1 /\
  max_open_files result = 5000000 /\
  ~ (20 <= max_open_files result <= Z.min 8388608 (2 ^ 22)).
Proof.
  cbv zeta. rewrite SanitizeOptions_max_open_files.
  vm_compute. split; [discriminate |]. split; [reflexivity |].
  intros [_ H]. apply H. reflexivity.
Qed.

(** C6, amended: [max_open_files] stays -1 when it is -1; otherwise it is
    clamped to [[20, limit]], where [limit] is the hard limit the platform
    reports, or 2^22 when the platform reports none (-1). *)
Theorem SanitizeOptions_clamps_max_open_files (GetMaxOpenFiles : Z)
    (dbname : string) (src : DBOptions) :
  let limit :=
    if bool_decide (GetMaxOpenFiles = -1) then 2 ^ 22 else GetMaxOpenFiles in
  let result := SanitizeOptions GetMaxOpenFiles dbname src in
  (max_open_files src = -1 -> max_open_files result = -1) /\
  (max_open_files src <> -1 -> 20 <= limit ->
   20 <= max_open_files result <= limit /\
   (max_open_files src < 20 -> max_open_files result = 20) /\
   (limit < max_open_files src -> max_open_files result = limit) /\
   (20 <= max_open_files src <= limit ->
    max_open_files result = max_open_files src)).
Proof.
  cbv zeta. rewrite SanitizeOptions_max_open_files.
  unfold sanitize_max_open_files, ClipToRange.
  change 4194304 with (2 ^ 22).
  split.
  - intros H. rewrite bool_decide_eq_false_2 by (rewrite H; auto). exact H.
  - intros H Hl. rewrite bool_decide_eq_true_2 by exact H.
    cbn [max_open_files set_max_open_files]. lia.
Qed.

Lemma SanitizeOptions_clamps_max_open_files_witness :
  let src := set_max_open_files 5000000 Scenario.default_options in
  20 <= max_open_files (SanitizeOptions 1024 "db" src) <= 1024.
Proof.
  cbv zeta.
  apply (SanitizeOptions_clamps_max_open_files 1024 "db"
           (set_max_open_files 5000000 Scenario.default_options)).
  - vm_compute. discriminate.
  - vm_compute. discriminate.
Defined.

(** Closed statements about the concrete collaborators are decided by
    running the functions. *)
Ltac by_computation :=
  cbv zeta; apply (bool_decide_unpack _); vm_compute; exact I.

(** ** Option validator and the start of [Open] *)

Lemma ValidateOptions_mmap_direct_reads (db_options : DBOptions) :
  allow_mmap_reads db_options = true ->
  use_direct_reads db_options = true ->
  code (ValidateOptions db_options) = kNotSupported.
Proof.
  intros Hm Hd. unfold ValidateOptions. rewrite Hm, Hd.
  case_bool_decide; reflexivity.
Qed.

Lemma ValidateOptions_cfs_not_ok (C : Collab) (db_options : DBOptions)
    (cfs : list ColumnFamilyDescriptor) :
  allow_mmap_reads db_options = true ->
  use_direct_reads db_options = true ->
  ok (ValidateOptions_cfs C db_options cfs) = false.
Proof.
  intros Hm Hd. induction cfs as [|cf cfs IH]; simpl.
  - unfold ok. rewrite ValidateOptions_mmap_direct_reads by assumption.
    reflexivity.
  - destruct (ok (ColumnFamilyData_ValidateOptions C db_options cf)) eqn:E;
      simpl; [exact IH | exact E].
Qed.

Lemma ValidateOptions_cfs_all_ok (C : Collab) (db_options : DBOptions)
    (cfs : list ColumnFamilyDescriptor) :
  Forall (fun cf => ok (ColumnFamilyData_ValidateOptions C db_options cf)
                    = true) cfs ->
  ValidateOptions_cfs C db_options cfs = ValidateOptions db_options.
Proof.
  induction 1 as [|cf cfs H _ IH]; simpl; [reflexivity |].
  rewrite H. exact IH.
Qed.

Lemma Open_prepare_mmap_direct_reads (C : Collab) (db_options : DBOptions)
    (dbname : string) (column_families : list ColumnFamilyDescriptor) :
  allow_mmap_reads db_options = true ->
  use_direct_reads db_options = true ->
  exists s,
    Open_prepare C db_options dbname column_families = inl (s, []) /\
    ok s = false /\
    (ok (SanitizeOptionsByTable C db_options column_families) = true ->
     Forall (fun cf => ok (ColumnFamilyData_ValidateOptions C db_options cf)
                       = true) column_families ->
     code s = kNotSupported).
Proof.
  intros Hm Hd. unfold Open_prepare.
  destruct (ok (SanitizeOptionsByTable C db_options column_families)) eqn:Et;
    cbn [negb].
  - rewrite (ValidateOptions_cfs_not_ok C db_options column_families Hm Hd).
    cbn [negb]. eexists. split; [reflexivity |]. split.
    + apply ValidateOptions_cfs_not_ok; assumption.
    + intros _ Hall. rewrite ValidateOptions_cfs_all_ok by exact Hall.
      apply ValidateOptions_mmap_direct_reads; assumption.
  - eexists. split; [reflexivity |]. split; [exact Et |].
    intros H; discriminate H.
Qed.

(** C7, as stated, fails: a table factory that rejects the options is
    asked first, and [Open] returns its status, here InvalidArgument. *)
Lemma Open_mmap_direct_reads_other_status :
  let db_options :=
    Scenario.with_mmap_and_direct_reads Scenario.default_options in
  let out := Open Scenario.rejecting_table_factory db_options "db"
               [Scenario.default_cf] in
  allow_mmap_reads db_options = true /\
  use_direct_reads db_options = true /\
  code out.1.1.1 = kInvalidArgument /\
  code out.1.1.1 <> kNotSupported.
Proof. vm_compute. repeat split; discriminate. Qed.

(** C7, amended: with [allow_mmap_reads] and [use_direct_reads] both set,
    [Open] fails before it calls anything that touches the disk (no call is
    made, no database object is handed out); the status is NotSupported
    whenever the option checks of the table factories and of the column
    families, which come first, accept the options. *)
Theorem Open_rejects_mmap_with_direct_reads (C : Collab)
    (db_options : DBOptions) (dbname : string)
    (column_families : list ColumnFamilyDescriptor) :
  allow_mmap_reads db_options = true ->
  use_direct_reads db_options = true ->
  exists s,
    Open C db_options dbname column_families = (s, None, [], []) /\
    ok s = false /\
    (ok (SanitizeOptionsByTable C db_options column_families) = true ->
     Forall (fun cf => ok (ColumnFamilyData_ValidateOptions C db_options cf)
                       = true) column_families ->
     code s = kNotSupported).
Proof.
  intros Hm Hd. unfold Open.
  destruct (Open_prepare_mmap_direct_reads C db_options dbname
              column_families Hm Hd) as (s & Hp & Hs & Hc).
  exists s. rewrite Hp. auto.
Qed.

Lemma Open_rejects_mmap_with_direct_reads_witness :
  exists s,
    Open Scenario.clean_wal
      (Scenario.with_mmap_and_direct_reads Scenario.default_options) "db"
      [Scenario.default_cf] = (s, None, [], []) /\
    code s = kNotSupported.
Proof.
  destruct (Open_rejects_mmap_with_direct_reads Scenario.clean_wal
              (Scenario.with_mmap_and_direct_reads Scenario.default_options)
              "db" [Scenario.default_cf] eq_refl eq_refl)
    as (s & Ho & _ & Hc).
  exists s. split; [exact Ho |].
  apply Hc; [reflexivity |].
  repeat constructor.
Defined.

(** ** Bootstrap of a fresh database *)

(** C3, as stated, fails: when publishing CURRENT fails, [NewDB] returns
    the error and the manifest it has written is not deleted. *)
Lemma NewDB_keeps_manifest_when_CURRENT_fails :
  let C := Scenario.current_fails in
  let out := NewDB C (new_DBImpl C Scenario.default_options "db") in
  ok out.1 = false /\
  EvNewWritableFile (DescriptorFileName 1) ∈ trace out.2 /\
  EvSetCurrentFile 1 ∈ trace out.2 /\
  EvDeleteFile (DescriptorFileName 1) ∉ trace out.2.
Proof. by_computation. Qed.

(** C3, amended: once MANIFEST-000001 has been created, a failure of
    writing the edit record or of syncing the manifest makes [NewDB]
    delete the manifest, as its last call, and return that error. *)
Theorem NewDB_deletes_manifest_on_write_failure (C : Collab) (d : DBImpl) :
  let manifest := DescriptorFileName 1 in
  ok (SetIdentityFile C) = true ->
  ok (NewWritableFile C manifest) = true ->
  ok (AddRecord C manifest) = false \/ ok (SyncManifest C) = false ->
  let out := NewDB C d in
  ok out.1 = false /\
  out.1 = (if ok (AddRecord C manifest) then SyncManifest C
           else AddRecord C manifest) /\
  exists calls,
    trace out.2 = trace d ++ calls ++ [EvDeleteFile manifest] /\
    In (EvNewWritableFile manifest) calls /\
    ~ In (EvSetCurrentFile 1) calls.
Proof.
  intros manifest Hid Hnew Hfail. unfold NewDB. fold manifest.
  rewrite Hid, Hnew. simpl negb. cbv iota.
  assert (Hs : ok (if ok (AddRecord C manifest) then SyncManifest C
                   else AddRecord C manifest) = false).
  { destruct (ok (AddRecord C manifest)) eqn:Ea.
    - destruct Hfail as [H | H]; [discriminate H | exact H].
    - exact Ea. }
  cbv zeta. rewrite Hs. cbn [fst snd].
  split; [exact Hs |]. split; [reflexivity |].
  destruct (ok (AddRecord C manifest)) eqn:Ea.
  - eexists [EvSetIdentityFile; EvNewWritableFile manifest;
             EvAddRecord manifest _; EvSyncManifest manifest].
    unfold emit; cbn [trace set_trace]. rewrite <- !app_assoc. simpl.
    split; [reflexivity |]. split; [auto |].
    intros H. repeat (destruct H as [H | H]; [discriminate H |]). exact H.
  - eexists [EvSetIdentityFile; EvNewWritableFile manifest;
             EvAddRecord manifest _].
    unfold emit; cbn [trace set_trace]. rewrite <- !app_assoc. simpl.
    split; [reflexivity |]. split; [auto |].
    intros H. repeat (destruct H as [H | H]; [discriminate H |]). exact H.
Qed.

Lemma NewDB_deletes_manifest_on_write_failure_witness :
  let C := Scenario.add_record_fails in
  let out := NewDB C (new_DBImpl C Scenario.default_options "db") in
  ok out.1 = false /\ out.1 = St.IOError "No space left on device".
Proof.
  cbv zeta.
  destruct (NewDB_deletes_manifest_on_write_failure
              Scenario.add_record_fails
              (new_DBImpl Scenario.add_record_fails Scenario.default_options
                 "db") eq_refl eq_refl (or_introl eq_refl))
    as (Hok & Hs & _).
  split; [exact Hok | exact Hs].
Defined.

(** ** The check after the loop over the WALs *)

(** The check on a state of the replay: with the stop flag set, in
    point-in-time or tolerate-tail mode, it answers
    Corruption("SST file is ahead of WALs") exactly when some column
    family has a log number above the corrupted log's number, and the end
    of [RecoverLogFiles] then returns with it. *)
Lemma cross_check_ahead (C : Collab) (opts : DBOptions)
    (r : Replay) :
  stop_replay_for_corruption r = true ->
  wal_recovery_mode opts = kPointInTimeRecovery \/
  wal_recovery_mode opts = kTolerateCorruptedTailRecords ->
  let ahead :=
    exists cfd, cfd ∈ column_family_set (versions (impl r)) /\
                GetLogNumber cfd > corrupted_log_number r in
  (cross_check opts r = Some (St.Corruption "SST file is ahead of WALs")
   <-> ahead) /\
  (cross_check opts r = None <-> ~ ahead) /\
  (ahead -> forall read_only log_numbers,
     RecoverLogFiles_finish C opts read_only log_numbers r =
     (St.Corruption "SST file is ahead of WALs", r)).
Proof.
  intros Hstop Hmode ahead.
  assert (Hm : bool_decide (wal_recovery_mode opts = kPointInTimeRecovery)
               || bool_decide
                    (wal_recovery_mode opts = kTolerateCorruptedTailRecords)
               = true).
  { destruct Hmode as [H | H]; rewrite H; reflexivity. }
  assert (Hex : existsb
                  (fun cfd =>
                     bool_decide (GetLogNumber cfd > corrupted_log_number r))
                  (column_family_set (versions (impl r))) = true <-> ahead).
  { unfold ahead. rewrite existsb_exists. split.
    - intros (cfd & Hin & Hgt). exists cfd. split.
      + apply list_elem_of_In. exact Hin.
      + apply bool_decide_eq_true in Hgt. exact Hgt.
    - intros (cfd & Hin & Hgt). exists cfd. split.
      + apply list_elem_of_In. exact Hin.
      + apply bool_decide_eq_true. exact Hgt. }
  assert (Hcc : cross_check opts r =
                if existsb
                     (fun cfd =>
                        bool_decide
                          (GetLogNumber cfd > corrupted_log_number r))
                     (column_family_set (versions (impl r)))
                then Some (St.Corruption "SST file is ahead of WALs")
                else None).
  { unfold cross_check. rewrite Hstop, Hm. reflexivity. }
  split; [| split].
  - rewrite Hcc, <- Hex. destruct (existsb _ _); split; intros ?; congruence.
  - rewrite Hcc, <- Hex. destruct (existsb _ _); split; intros ?; congruence.
  - intros Ha read_only log_numbers. unfold RecoverLogFiles_finish.
    apply Hex in Ha. rewrite Hcc, Ha. reflexivity.
Qed.

(** ** [Recover] after a failed replay *)

Lemma ok_not_IsNotFound (s : Status) : ok s = true -> IsNotFound s = false.
Proof.
  unfold ok, IsNotFound. intros H. apply bool_decide_eq_true in H.
  rewrite H. reflexivity.
Qed.

Lemma Recover_replay_failure (C : Collab) (read_only : bool)
    (recovered_seq : option Z) (logs : list Z) (d : DBImpl) :
  let rl := RecoverLogFiles C (merge_sort Z.le logs) kMaxSequenceNumber
              read_only d in
  ok rl.1 = false ->
  let out := Recover_replay C read_only recovered_seq logs d in
  out.1.1 = rl.1 /\
  column_family_set (versions out.2) =
  List.map (CreateNewMemtable kMaxSequenceNumber)
    (column_family_set (versions (impl rl.2))).
Proof.
  intros rl Hfail. unfold Recover_replay. fold rl. cbv zeta.
  rewrite Hfail. cbn [negb fst snd]. split; reflexivity.
Qed.

(** The WAL stage of [Recover]: when it gets to the replay and
    [RecoverLogFiles] returns a status that is not OK, the stage ends with
    that status and with a fresh, empty memtable in every column family,
    and the look-up of the OPTIONS file changes nothing. *)
Lemma Recover_logs_clears_memtables (C : Collab)
    (read_only error_if_log_file_exist error_if_data_exists_in_logs
     is_new_db : bool) (recovered_seq : option Z) (d : DBImpl)
    (logs : list Z) :
  let gc := GetChildren C (wal_dir (immutable_db_options d)) in
  ok gc.1 = true ->
  collect_logs C is_new_db gc.2 [] = inr logs ->
  logs <> [] ->
  error_if_log_file_exist = false ->
  error_if_data_exists_in_logs && data_exists_in_logs C logs = false ->
  let rl := RecoverLogFiles C (merge_sort Z.le logs) kMaxSequenceNumber
              read_only d in
  ok rl.1 = false ->
  let out := Recover_logs C read_only error_if_log_file_exist
               error_if_data_exists_in_logs is_new_db recovered_seq d in
  out.1.1 = rl.1 /\
  Forall (fun cfd => mem cfd = new_MemTable kMaxSequenceNumber)
    (column_family_set (versions out.2)) /\
  List.map GetID (column_family_set (versions out.2)) =
  List.map GetID (column_family_set (versions (impl rl.2))) /\
  Recover_options_file C read_only out = out.
Proof.
  intros gc Hgc Hlogs Hne He1 He2 rl Hfail out.
  assert (Hout : out = Recover_replay C read_only recovered_seq logs d).
  { unfold out, Recover_logs. fold gc.
    rewrite (ok_not_IsNotFound _ Hgc), Hgc. cbn [negb]. rewrite Hlogs.
    rewrite (bool_decide_eq_true_2 _ Hne), He1. cbn [andb].
    rewrite He2. reflexivity. }
  destruct (Recover_replay_failure C read_only recovered_seq logs d Hfail)
    as [Hs Hcfs].
  rewrite <- Hout in Hs, Hcfs. fold rl in Hs, Hcfs.
  split; [exact Hs |]. split; [| split].
  - rewrite Hcfs. apply Forall_forall. intros cfd Hin.
    apply list_elem_of_In, in_map_iff in Hin.
    destruct Hin as (cfd0 & <- & _). reflexivity.
  - rewrite Hcfs, map_map. reflexivity.
  - unfold Recover_options_file. rewrite Hs, Hfail.
    destruct read_only; [| reflexivity].
    rewrite Hfail. rewrite <- Hs. destruct out as [[s rs] d']. reflexivity.
Qed.

(** [Recover] is its part before the WALs, then the WAL stage and the
    look-up of the OPTIONS file. *)
Lemma Recover_stages (C : Collab)
    (column_families : list ColumnFamilyDescriptor)
    (read_only e1 e2 : bool) (recovered_seq : option Z) (d : DBImpl) :
  Recover C column_families read_only e1 e2 recovered_seq d =
  match Recover_before_logs C column_families read_only d with
  | inl (s, d') => (s, recovered_seq, d')
  | inr (is_new_db, s, d') =>
      Recover_options_file C read_only
        (if ok s
         then Recover_logs C read_only e1 e2 is_new_db recovered_seq d'
         else (s, recovered_seq, d'))
  end.
Proof.
  unfold Recover, Recover_before_logs. cbv zeta.
  repeat (match goal with
          | |- context [if ?b then _ else _] =>
              lazymatch type of b with
              | bool => destruct b
              end
          end; cbv beta iota);
    try reflexivity;
    repeat (match goal with
            | |- context [match ?x with _ => _ end] => destruct x
            end; cbv beta iota);
    reflexivity.
Qed.

(** C9: when [Recover] gets to the replay of the WALs and
    [RecoverLogFiles] returns a status that is not OK, [Recover] returns
    that status, and in the database object it leaves behind every column
    family has a fresh, empty memtable in place of the one the replay
    wrote to. *)
Theorem Recover_clears_memtables_on_replay_failure (C : Collab)
    (column_families : list ColumnFamilyDescriptor)
    (read_only error_if_log_file_exist error_if_data_exists_in_logs : bool)
    (recovered_seq : option Z) (d : DBImpl)
    (is_new_db : bool) (s0 : Status) (d0 : DBImpl) (logs : list Z) :
  Recover_before_logs C column_families read_only d =
  inr (is_new_db, s0, d0) ->
  ok s0 = true ->
  let gc := GetChildren C (wal_dir (immutable_db_options d0)) in
  ok gc.1 = true ->
  collect_logs C is_new_db gc.2 [] = inr logs ->
  logs <> [] ->
  error_if_log_file_exist = false ->
  error_if_data_exists_in_logs && data_exists_in_logs C logs = false ->
  let rl := RecoverLogFiles C (merge_sort Z.le logs) kMaxSequenceNumber
              read_only d0 in
  ok rl.1 = false ->
  let out := Recover C column_families read_only error_if_log_file_exist
               error_if_data_exists_in_logs recovered_seq d in
  out.1.1 = rl.1 /\
  Forall (fun cfd => mem cfd = new_MemTable kMaxSequenceNumber)
    (column_family_set (versions out.2)) /\
  List.map GetID (column_family_set (versions out.2)) =
  List.map GetID (column_family_set (versions (impl rl.2))).
Proof.
  intros Hbefore Hs0 gc Hgc Hlogs Hne He1 He2 rl Hfail out.
  destruct (Recover_logs_clears_memtables C read_only
              error_if_log_file_exist error_if_data_exists_in_logs
              is_new_db recovered_seq d0 logs Hgc Hlogs Hne He1 He2 Hfail)
    as (Hs & Hm & Hid & Hopt).
  assert (Hout : out =
                 Recover_logs C read_only error_if_log_file_exist
                   error_if_data_exists_in_logs is_new_db recovered_seq d0).
  { unfold out. rewrite Recover_stages, Hbefore, Hs0. exact Hopt. }
  rewrite Hout. split; [exact Hs |]. split; [exact Hm | exact Hid].
Qed.

Lemma Recover_clears_memtables_on_replay_failure_witness :
  let C := Scenario.half_replayed in
  let d := Scenario.state_open_prepared C in
  let out := Recover C [Scenario.default_cf] false false false
               (Some kMaxSequenceNumber) d in
  out.1.1 = St.IOError "000005.log: Permission denied" /\
  Forall (fun cfd => mem cfd = new_MemTable kMaxSequenceNumber)
    (column_family_set (versions out.2)).
Proof.
  cbv zeta.
  destruct (Recover_clears_memtables_on_replay_failure
              Scenario.half_replayed [Scenario.default_cf] false false false
              (Some kMaxSequenceNumber)
              (Scenario.state_open_prepared Scenario.half_replayed)
              false St.OK
              (Scenario.state_before_logs Scenario.half_replayed
                 (Scenario.state_open_prepared Scenario.half_replayed))
              [4; 5]
              ltac:(vm_compute; reflexivity) eq_refl
              ltac:(vm_compute; reflexivity) ltac:(vm_compute; reflexivity)
              ltac:(discriminate) eq_refl eq_refl
              ltac:(vm_compute; reflexivity))
    as (Hs & Hm & _).
  split; [| exact Hm].
  rewrite Hs. vm_compute. reflexivity.
Defined.

(** ** The version set under [MarkFileNumberUsed] *)

Lemma MarkFileNumberUsed_column_family_set (n : Z) (vs : VersionSet) :
  column_family_set (MarkFileNumberUsed n vs) = column_family_set vs.
Proof. unfold MarkFileNumberUsed. case_bool_decide; reflexivity. Qed.

Lemma MarkFileNumberUsed_LastSequence (n : Z) (vs : VersionSet) :
  LastSequence (MarkFileNumberUsed n vs) = LastSequence vs.
Proof. unfold MarkFileNumberUsed. case_bool_decide; reflexivity. Qed.

Lemma MarkFileNumberUsed_next_file_number (n : Z) (vs : VersionSet) :
  next_file_number (MarkFileNumberUsed n vs) =
  Z.max (next_file_number vs) (n + 1).
Proof.
  unfold MarkFileNumberUsed.
  case_bool_decide; cbn [next_file_number set_next_file_number]; lia.
Qed.

(** ** The reporter of the log reader *)

Lemma new_LogReporter_not_paranoid (opts : DBOptions) :
  paranoid_checks opts = false ->
  new_LogReporter opts = mkLogReporter nullptr.
Proof. intros H. unfold new_LogReporter. rewrite H. reflexivity. Qed.

Lemma deliver_nullptr (reports : list (Z * Status)) (r : Replay) :
  deliver (mkLogReporter nullptr) reports r = r.
Proof. induction reports as [|rep reports IH]; [reflexivity | exact IH]. Qed.

Lemma read_loop_without_reports (C : Collab) (opts : DBOptions)
    (read_only : bool) (log_number : Z) (reads : list ReadRecord)
    (r : Replay) :
  read_loop C opts read_only log_number (mkLogReporter nullptr) reads r =
  read_loop C opts read_only log_number (mkLogReporter nullptr)
    (List.map (fun rd => mkReadRecord [] (record rd)) reads) r.
Proof.
  revert r. induction reads as [|rd reads IH]; intros r; [reflexivity |].
  cbn [read_loop List.map reported record].
  rewrite deliver_nullptr. cbn [deliver fold_left].
  destruct (stop_replay_by_wal_filter r); [reflexivity |].
  destruct (record rd) as [rec|]; [| reflexivity].
  destruct (negb (ok (status r))); [reflexivity |].
  destruct (replay_record C opts read_only log_number (mkLogReporter nullptr)
              rec r); [apply IH | reflexivity | reflexivity].
Qed.

Lemma read_loop_no_batch (C : Collab) (opts : DBOptions)
    (read_only : bool) (log_number : Z) (reads : list ReadRecord)
    (r : Replay) :
  Forall no_batch reads ->
  read_loop C opts read_only log_number (mkLogReporter nullptr) reads r =
  Continue r.
Proof.
  induction 1 as [|rd reads Hrd _ IH]; cbn [read_loop].
  - destruct (stop_replay_by_wal_filter r); reflexivity.
  - rewrite deliver_nullptr.
    destruct (stop_replay_by_wal_filter r); [reflexivity |].
    unfold no_batch in Hrd. destruct (record rd) as [rec|]; [| reflexivity].
    destruct (negb (ok (status r))); [reflexivity |].
    unfold replay_record. rewrite bool_decide_eq_true_2 by exact Hrd.
    cbn [LogReporter_Corruption reporter_status]. exact IH.
Qed.

(** C10: without [paranoid_checks] the reporter of the log reader never
    writes the status of the recovery, whatever the recovery mode: a
    report changes nothing, a WAL is replayed as if the reader had reported
    nothing, and a WAL that holds nothing but damaged bytes is read to its
    end with the status still OK. *)
Theorem corruption_reports_ignored_without_paranoid_checks (C : Collab)
    (opts : DBOptions) :
  paranoid_checks opts = false ->
  let reporter := new_LogReporter opts in
  (forall bytes s r, LogReporter_Corruption reporter bytes s r = r) /\
  (forall read_only log_number reads r,
     read_loop C opts read_only log_number reporter reads r =
     read_loop C opts read_only log_number reporter
       (List.map (fun rd => mkReadRecord [] (record rd)) reads) r) /\
  (forall read_only min_log_number log_number r,
     ok (status r) = true ->
     ok (NewSequentialFile C log_number) = true ->
     Forall no_batch (ReadRecords C log_number (wal_recovery_mode opts)) ->
     exists r',
       replay_log C opts read_only min_log_number log_number r = Continue r'
       /\ ok (status r') = true
       /\ next_sequence r' = next_sequence r
       /\ column_family_set (versions (impl r')) =
          column_family_set (versions (impl r))).
Proof.
  intros Hp reporter. unfold reporter.
  rewrite (new_LogReporter_not_paranoid opts Hp).
  split; [reflexivity |]. split.
  - intros. apply read_loop_without_reports.
  - intros read_only min_log_number log_number r Hr Hopen Hbad.
    unfold replay_log. rewrite (new_LogReporter_not_paranoid opts Hp).
    destruct (bool_decide (log_number < min_log_number)).
    { exists r. repeat split; auto. }
    cbv zeta. cbn [stop_replay_by_wal_filter set_impl].
    destruct (stop_replay_by_wal_filter r) eqn:Hstop.
    { eexists. split; [reflexivity |].
      cbn [status next_sequence impl set_impl versions set_versions].
      rewrite MarkFileNumberUsed_column_family_set. repeat split; auto. }
    cbn [status set_status]. rewrite Hopen. cbn [negb].
    rewrite read_loop_no_batch by exact Hbad.
    unfold after_read_loop. cbn [status set_status]. rewrite Hopen.
    cbn [negb]. cbv zeta.
    destruct (_ && _); eexists; (split; [reflexivity |]);
      cbn [status next_sequence impl set_impl set_flush_scheduler
           set_status versions set_versions column_family_set
           set_LastSequence];
      rewrite ?MarkFileNumberUsed_column_family_set, ?Hopen;
      repeat split; auto.
Qed.

Lemma corruption_reports_ignored_without_paranoid_checks_witness :
  exists r',
    replay_log Scenario.damaged_wal Scenario.relaxed_options false 0 4
      (mkReplay St.OK kMaxSequenceNumber false false false
         kMaxSequenceNumber false ∅ []
         (Scenario.recovering [Scenario.default_cfd 0])) = Continue r' /\
    ok (status r') = true.
Proof.
  destruct (corruption_reports_ignored_without_paranoid_checks
              Scenario.damaged_wal Scenario.relaxed_options eq_refl)
    as (_ & _ & H).
  destruct (H false 0 4
              (mkReplay St.OK kMaxSequenceNumber false false false
                 kMaxSequenceNumber false ∅ []
                 (Scenario.recovering [Scenario.default_cfd 0]))
              eq_refl eq_refl) as (r' & Hr & Hs & _).
  - repeat constructor.
  - exists r'. split; [exact Hr | exact Hs].
Defined.

(** ** The database object only grows during the replay *)

Ltac proj :=
  cbn [status next_sequence stop_replay_by_wal_filter
       stop_replay_for_corruption flushed corrupted_log_number
       corrupted_log_found version_edits flush_scheduler impl
       set_status set_next_sequence set_stop_replay_by_wal_filter
       set_stop_replay_for_corruption set_flushed set_corrupted_log_number
       set_corrupted_log_found set_version_edits set_flush_scheduler set_impl
       immutable_db_options dbname versions db_lock db_id
       persistent_stats_cfd_exists logfile_number logs alive_log_files
       total_log_size is_snapshot_supported opened_successfully trace
       set_versions set_db_lock set_db_id set_persistent_stats_cfd_exists
       set_logfile_number set_logs set_alive_log_files set_total_log_size
       set_is_snapshot_supported set_opened_successfully set_trace
       next_file_number LastSequence column_family_set options_file_number
       vs_db_id set_next_file_number set_LastSequence set_column_family_set
       set_options_file_number set_vs_db_id state_of fst snd] in *.

Lemma extends_refl (d : DBImpl) : extends d d.
Proof. unfold extends. repeat split; [reflexivity | lia]. Qed.

Lemma extends_trans (d1 d2 d3 : DBImpl) :
  extends d1 d2 -> extends d2 d3 -> extends d1 d3.
Proof.
  unfold extends. intros (Ht & Hn & Hl & Hf) (Ht' & Hn' & Hl' & Hf').
  repeat split; [etrans; eassumption | lia | congruence | congruence].
Qed.

Lemma extends_emit (ev : Event) (d : DBImpl) : extends d (emit ev d).
Proof.
  unfold extends, emit. proj.
  repeat split; [apply prefix_app_r; reflexivity | lia].
Qed.

Lemma extends_set_versions (vs : VersionSet) (d : DBImpl) :
  next_file_number (versions d) <= next_file_number vs ->
  extends d (set_versions vs d).
Proof. intros H. unfold extends. proj. repeat split; [reflexivity | lia]. Qed.

Lemma extends_update_cfd (id : Z) (f : ColumnFamilyData -> ColumnFamilyData)
    (d : DBImpl) :
  extends d (update_cfd id f d).
Proof. unfold update_cfd. apply extends_set_versions. proj. lia. Qed.

Lemma extends_elem_of (ev : Event) (d d' : DBImpl) :
  extends d d' -> ev ∈ trace d -> ev ∈ trace d'.
Proof.
  intros (Ht & _) Hin. destruct Ht as [l ->]. apply elem_of_app. auto.
Qed.

Lemma elem_of_emit (ev : Event) (d : DBImpl) : ev ∈ trace (emit ev d).
Proof.
  unfold emit. proj. apply elem_of_app. right. apply list_elem_of_here.
Qed.

Lemma extends_WriteLevel0TableForRecovery (C : Collab)
    (cfd : ColumnFamilyData) (edit : VersionEdit) (d : DBImpl) :
  extends d (WriteLevel0TableForRecovery C cfd edit d).2.
Proof.
  unfold WriteLevel0TableForRecovery. cbv zeta. cbn [snd].
  eapply extends_trans; [| apply extends_emit].
  apply extends_set_versions. unfold NewFileNumber. proj. lia.
Qed.

Lemma LogReporter_Corruption_impl (reporter : LogReporter) (bytes : Z)
    (s : Status) (r : Replay) :
  impl (LogReporter_Corruption reporter bytes s r) = impl r.
Proof.
  unfold LogReporter_Corruption. repeat case_match; reflexivity.
Qed.

Lemma deliver_impl (reporter : LogReporter) (reports : list (Z * Status))
    (r : Replay) :
  impl (deliver reporter reports r) = impl r.
Proof.
  revert r. induction reports as [|rep reports IH]; intros r;
    [reflexivity |].
  cbn [deliver fold_left]. unfold deliver in IH. rewrite IH.
  apply LogReporter_Corruption_impl.
Qed.

Lemma extends_flush_scheduled (C : Collab) (scheduled : list Z) (r : Replay) :
  extends (impl r) (impl (state_of (flush_scheduled C scheduled r))).
Proof.
  revert r. induction scheduled as [|id scheduled IH]; intros r;
    cbn [flush_scheduled].
  - proj. apply extends_refl.
  - destruct (GetColumnFamily _ _) as [cfd|]; [| apply IH].
    cbv zeta. proj.
    pose proof (extends_WriteLevel0TableForRecovery C cfd
                  (find_edit id (version_edits r)) (impl r)) as Hw.
    destruct (negb (ok _)).
    + proj. exact Hw.
    + eapply extends_trans; [| apply IH]. proj.
      eapply extends_trans; [exact Hw | apply extends_update_cfd].
Qed.

Lemma filter_record_impl (C : Collab) (filter : WalFilter) (log_number : Z)
    (reporter : LogReporter) (rec : Slice) (batch : WriteBatch) (r : Replay) :
  match filter_record C filter log_number reporter rec batch r with
  | inl (_, r') => impl r' = impl r
  | inr c => impl (state_of c) = impl r
  end.
Proof.
  unfold filter_record. cbv zeta.
  destruct (LogRecordFound filter log_number batch) as [[option new_batch]
    batch_changed].
  cbn [fst snd].
  destruct option; proj; try reflexivity.
  - destruct batch_changed; [case_bool_decide |]; reflexivity.
  - destruct (negb (ok _)).
    + proj. rewrite LogReporter_Corruption_impl. reflexivity.
    + destruct batch_changed; [case_bool_decide |]; reflexivity.
  - destruct (negb (ok _)); reflexivity.
Qed.

Lemma extends_insert_record (C : Collab) (read_only : bool) (log_number : Z)
    (reporter : LogReporter) (rec : Slice) (batch : WriteBatch) (r : Replay) :
  extends (emit (EvInsertInto log_number batch) (impl r))
    (impl (state_of (insert_record C read_only log_number reporter rec batch
                       r))).
Proof.
  unfold insert_record. cbv zeta. proj.
  set (d1 := set_versions _ (emit _ (impl r))).
  assert (H1 : extends (emit (EvInsertInto log_number batch) (impl r)) d1).
  { apply extends_set_versions. proj. lia. }
  destruct (negb (ok _)).
  - proj. rewrite LogReporter_Corruption_impl. proj. exact H1.
  - destruct (_ && _); proj; [| exact H1].
    eapply extends_trans; [exact H1 |].
    eapply extends_trans; [| apply extends_flush_scheduled]. proj.
    apply extends_refl.
Qed.

Lemma extends_process_record (C : Collab) (read_only : bool) (log_number : Z)
    (reporter : LogReporter) (rec : Slice) (batch : WriteBatch) (r : Replay) :
  extends (impl r)
    (impl (state_of (process_record C read_only log_number reporter rec
                       batch r))).
Proof.
  unfold process_record. cbv zeta.
  destruct (wal_filter C) as [filter|].
  - pose proof (filter_record_impl C filter log_number reporter rec batch r)
      as Hf.
    destruct (filter_record C filter log_number reporter rec batch r)
      as [[batch' r']|c].
    + rewrite <- Hf. eapply extends_trans; [apply extends_emit |].
      apply extends_insert_record.
    + rewrite Hf. apply extends_refl.
  - eapply extends_trans; [apply extends_emit |].
    apply extends_insert_record.
Qed.

Lemma resume_if_consecutive_impl (opts : DBOptions) (sequence : Z)
    (r : Replay) :
  impl (resume_if_consecutive opts sequence r) = impl r.
Proof. unfold resume_if_consecutive. case_match; reflexivity. Qed.

Lemma extends_replay_record (C : Collab) (opts : DBOptions)
    (read_only : bool) (log_number : Z) (reporter : LogReporter)
    (rec : Slice) (r : Replay) :
  extends (impl r)
    (impl (state_of (replay_record C opts read_only log_number reporter rec
                       r))).
Proof.
  unfold replay_record. cbv zeta.
  case_bool_decide.
  - proj. rewrite LogReporter_Corruption_impl. apply extends_refl.
  - destruct (_ && _).
    + proj. rewrite resume_if_consecutive_impl. apply extends_refl.
    + rewrite <- (resume_if_consecutive_impl opts
                    (Sequence (contents rec)) r) at 1.
      apply extends_process_record.
Qed.

Lemma extends_read_loop (C : Collab) (opts : DBOptions) (read_only : bool)
    (log_number : Z) (reporter : LogReporter) (reads : list ReadRecord)
    (r : Replay) :
  extends (impl r)
    (impl (state_of (read_loop C opts read_only log_number reporter reads
                       r))).
Proof.
  revert r. induction reads as [|rd reads IH]; intros r; cbn [read_loop].
  - destruct (stop_replay_by_wal_filter r); apply extends_refl.
  - destruct (stop_replay_by_wal_filter r); [apply extends_refl |].
    rewrite <- (deliver_impl reporter (reported rd) r) at 1.
    destruct (record rd) as [rec|]; [| apply extends_refl].
    destruct (negb (ok _)); [apply extends_refl |].
    pose proof (extends_replay_record C opts read_only log_number reporter
                  rec (deliver reporter (reported rd) r)) as Hr.
    destruct (replay_record C opts read_only log_number reporter rec
                (deliver reporter (reported rd) r)) as [r'|r'|s r'];
      proj; [| exact Hr | exact Hr].
    eapply extends_trans; [exact Hr | apply IH].
Qed.

Lemma extends_after_read_loop (opts : DBOptions) (log_number : Z)
    (r : Replay) :
  extends (impl r) (impl (state_of (after_read_loop opts log_number r))).
Proof.
  unfold after_read_loop. cbv zeta.
  repeat (case_match; proj; simplify_eq; try apply extends_refl);
    apply extends_set_versions; proj; lia.
Qed.

Lemma extends_replay_log (C : Collab) (opts : DBOptions) (read_only : bool)
    (min_log_number log_number : Z) (r : Replay) :
  extends (impl r)
    (impl (state_of (replay_log C opts read_only min_log_number log_number
                       r))).
Proof.
  unfold replay_log. cbv zeta.
  case_bool_decide; [apply extends_refl |].
  set (r1 := set_impl _ r).
  assert (H1 : extends (impl r) (impl r1)).
  { unfold r1. proj. eapply extends_trans; [apply extends_emit |].
    apply extends_set_versions. proj.
    rewrite MarkFileNumberUsed_next_file_number. lia. }
  destruct (stop_replay_by_wal_filter r1); [exact H1 |].
  destruct (negb (ok (status (set_status _ r1)))).
  { destruct (negb (ok _)); proj; exact H1. }
  pose proof (extends_read_loop C opts read_only log_number
                (new_LogReporter opts)
                (ReadRecords C log_number (wal_recovery_mode opts))
                (set_status (NewSequentialFile C log_number) r1)) as Hl.
  proj.
  destruct (read_loop _ _ _ _ _ _ _) as [r'|r'|s r']; proj.
  - eapply extends_trans; [exact H1 |].
    eapply extends_trans; [exact Hl | apply extends_after_read_loop].
  - eapply extends_trans; [exact H1 | exact Hl].
  - eapply extends_trans; [exact H1 | exact Hl].
Qed.

Lemma extends_replay_logs (C : Collab) (opts : DBOptions) (read_only : bool)
    (min_log_number : Z) (log_numbers : list Z) (r : Replay) :
  extends (impl r)
    (impl (state_of (replay_logs C opts read_only min_log_number log_numbers
                       r))).
Proof.
  revert r. induction log_numbers as [|n log_numbers IH]; intros r;
    cbn [replay_logs]; [apply extends_refl |].
  pose proof (extends_replay_log C opts read_only min_log_number n r) as Hl.
  destruct (replay_log C opts read_only min_log_number n r) as [r'|r'|s r'];
    proj; [| exact Hl | exact Hl].
  eapply extends_trans; [exact Hl | apply IH].
Qed.

(** ** The WAL filter *)

(** The round of the read loop on a record the WAL filter has rewritten
    ([batch_changed]) and lets through: it leaves the function with
    NotSupported, when the new batch counts more records than the
    original, without anything inserted; or it inserts the new batch
    carrying the sequence number of the original. *)
Lemma replay_record_rewritten (C : Collab) (filter : WalFilter)
    (opts : DBOptions) (read_only : bool) (log_number : Z)
    (reporter : LogReporter) (rec : Slice) (r : Replay) :
  let batch := contents rec in
  let found := LogRecordFound filter log_number batch in
  let new_batch := found.1.2 in
  let r0 := resume_if_consecutive opts (Sequence batch) r in
  wal_filter C = Some filter ->
  kHeader <= size rec ->
  bool_decide (wal_recovery_mode opts = kPointInTimeRecovery)
    && stop_replay_for_corruption r0 = false ->
  found.2 = true ->
  found.1.1 = kContinueProcessing \/
  (found.1.1 = kCorruptedRecord /\
   ok (MaybeIgnoreError C
         (St.Corruption
            (St.msg2 "Corruption reported by Wal Filter " (Name filter))))
   = true) ->
  (Count new_batch > Count batch ->
   exists s r',
     replay_record C opts read_only log_number reporter rec r = Return s r' /\
     code s = kNotSupported /\
     impl r' = impl r /\
     forall reads,
       stop_replay_by_wal_filter r = false -> ok (status r) = true ->
       read_loop C opts read_only log_number reporter
         (mkReadRecord [] (Some rec) :: reads) r = Return s r') /\
  (Count new_batch <= Count batch ->
   let applied := SetSequence new_batch (Sequence batch) in
   Sequence applied = Sequence batch /\
   Count applied = Count new_batch /\
   updates applied = updates new_batch /\
   exists r1,
     impl r1 = impl r /\
     replay_record C opts read_only log_number reporter rec r =
     insert_record C read_only log_number reporter rec applied r1 /\
     EvInsertInto log_number applied
     ∈ trace (impl (state_of (replay_record C opts read_only log_number
                                reporter rec r)))).
Proof.
  intros batch found new_batch r0 Hfilter Hsize Hpit Hchanged Hgo.
  assert (Hrec : replay_record C opts read_only log_number reporter rec r =
                 process_record C read_only log_number reporter rec batch r0).
  { unfold replay_record. rewrite bool_decide_eq_false_2 by lia.
    cbv zeta. fold batch. fold r0. rewrite Hpit. reflexivity. }
  assert (Hr0 : impl r0 = impl r) by apply resume_if_consecutive_impl.
  (* the state in which the switch on the processing option leaves *)
  set (r1 := match found.1.1 with
             | kCorruptedRecord =>
                 set_status
                   (MaybeIgnoreError C
                      (St.Corruption
                         (St.msg2 "Corruption reported by Wal Filter "
                            (Name filter)))) r0
             | _ => r0
             end).
  assert (Hr1 : impl r1 = impl r).
  { unfold r1. destruct (found.1.1); exact Hr0. }
  assert (Hfr : filter_record C filter log_number reporter rec batch r0 =
                if bool_decide (Count new_batch > Count batch) then
                  inr (Return
                         (St.NotSupported
                            (St.msg2
                               "More than original # of records returned by Wal Filter "
                               (Name filter)))
                         (set_status
                            (St.NotSupported
                               (St.msg2
                                  "More than original # of records returned by Wal Filter "
                                  (Name filter))) r1))
                else inl (SetSequence new_batch (Sequence batch), r1)).
  { unfold filter_record, r1. cbv zeta. fold found. fold new_batch.
    rewrite Hchanged.
    destruct Hgo as [-> | [-> Hign]]; [reflexivity |].
    proj. rewrite Hign. cbn [negb]. reflexivity. }
  split.
  - intros Hmore. do 2 eexists.
    assert (Hret : replay_record C opts read_only log_number reporter rec r =
                   Return
                     (St.NotSupported
                        (St.msg2
                           "More than original # of records returned by Wal Filter "
                           (Name filter)))
                     (set_status
                        (St.NotSupported
                           (St.msg2
                              "More than original # of records returned by Wal Filter "
                              (Name filter))) r1)).
    { rewrite Hrec. unfold process_record. rewrite Hfilter, Hfr.
      rewrite bool_decide_eq_true_2 by exact Hmore. reflexivity. }
    split; [exact Hret |]. split; [reflexivity |]. split; [exact Hr1 |].
    intros reads Hstop Hok. cbn [read_loop reported record deliver fold_left].
    rewrite Hstop, Hok. cbn [negb]. rewrite Hret. reflexivity.
  - intros Hle applied. split; [reflexivity |]. split; [reflexivity |].
    split; [reflexivity |]. exists r1. split; [exact Hr1 |].
    assert (Hins : replay_record C opts read_only log_number reporter rec r =
                   insert_record C read_only log_number reporter rec applied
                     r1).
    { rewrite Hrec. unfold process_record. rewrite Hfilter, Hfr.
      rewrite bool_decide_eq_false_2 by lia. reflexivity. }
    split; [exact Hins |]. rewrite Hins.
    eapply extends_elem_of; [apply extends_insert_record |].
    apply elem_of_emit.
Qed.

(** ** Point-in-time recovery across WALs *)






(** ** The filter on [min_log_number_to_keep] *)

Lemma replay_log_from_boundary (C : Collab) (opts : DBOptions)
    (read_only : bool) (min_log_number log_number : Z) (r : Replay) :
  min_log_number <= log_number ->
  replay_log C opts read_only min_log_number log_number r =
  let r := marked log_number r in
  if stop_replay_by_wal_filter r then Continue r
  else
    let r := set_status (NewSequentialFile C log_number) r in
    if negb (ok (status r)) then
      let r := set_status (MaybeIgnoreError C (status r)) r in
      if negb (ok (status r)) then Return (status r) r else Continue r
    else
      match read_loop C opts read_only log_number (new_LogReporter opts)
              (ReadRecords C log_number (wal_recovery_mode opts)) r with
      | Continue r => after_read_loop opts log_number r
      | c => c
      end.
Proof.
  intros Hmin. unfold replay_log.
  rewrite bool_decide_eq_false_2 by lia. reflexivity.
Qed.

Lemma extends_replay_log_marked (C : Collab) (opts : DBOptions)
    (read_only : bool) (min_log_number log_number : Z) (r : Replay) :
  min_log_number <= log_number ->
  extends (impl (marked log_number r))
    (impl (state_of (replay_log C opts read_only min_log_number log_number
                       r))).
Proof.
  intros Hmin. rewrite replay_log_from_boundary by exact Hmin. cbv zeta.
  generalize (marked log_number r). intros r1.
  destruct (stop_replay_by_wal_filter r1); [apply extends_refl |].
  destruct (negb (ok (status (set_status _ r1)))).
  { destruct (negb (ok _)); proj; apply extends_refl. }
  pose proof (extends_read_loop C opts read_only log_number
                (new_LogReporter opts)
                (ReadRecords C log_number (wal_recovery_mode opts))
                (set_status (NewSequentialFile C log_number) r1)) as Hl.
  proj.
  destruct (read_loop _ _ _ _ _ _ _) as [r'|r'|s r']; proj;
    [| exact Hl | exact Hl].
  eapply extends_trans; [exact Hl | apply extends_after_read_loop].
Qed.

(** C2, as stated, fails: WAL 5, at the boundary 5, is replayed. *)
Lemma boundary_wal_is_replayed :
  ~ skipped_up_to_boundary_and_marked Scenario.boundary_wal
      Scenario.default_options false 5.
Proof.
  intros H.
  destruct (H (Scenario.start_replay
                 (Scenario.recovering [Scenario.default_cfd 0])) 5
              ltac:(lia)) as [Hins _].
  specialize (Hins (mkWriteBatch 1 1 [(0, "k1=v1")])).
  assert (Hin : EvInsertInto 5 (mkWriteBatch 1 1 [(0, "k1=v1")])
                ∈ trace
                    (impl
                       (state_of
                          (replay_log Scenario.boundary_wal
                             Scenario.default_options false 5 5
                             (Scenario.start_replay
                                (Scenario.recovering
                                   [Scenario.default_cfd 0]))))))
    by by_computation.
  apply Hins in Hin. revert Hin. by_computation.
Qed.

(** C2, amended: a WAL whose number is strictly below
    [min_log_number_to_keep] is skipped, and nothing is called for it, not
    [MarkFileNumberUsed] either; a WAL numbered [min_log_number_to_keep]
    or above is not skipped: [MarkFileNumberUsed] is called on its number,
    the file-number counter is past it from then on, and (unless a WAL
    filter has stopped the replay) the file is opened and read. *)
Theorem replay_log_min_log_number (C : Collab) (opts : DBOptions)
    (read_only : bool) (min_log_number log_number : Z) (r : Replay) :
  let c := replay_log C opts read_only min_log_number log_number r in
  (log_number < min_log_number -> c = Continue r) /\
  (min_log_number <= log_number ->
   EvMarkFileNumberUsed log_number ∈ trace (impl (state_of c)) /\
   log_number < next_file_number (versions (impl (state_of c))) /\
   (stop_replay_by_wal_filter r = false ->
    ok (NewSequentialFile C log_number) = true ->
    c = match read_loop C opts read_only log_number (new_LogReporter opts)
                (ReadRecords C log_number (wal_recovery_mode opts))
                (set_status (NewSequentialFile C log_number)
                   (marked log_number r)) with
        | Continue r => after_read_loop opts log_number r
        | c => c
        end)).
Proof.
  intros c. split.
  - intros Hlt. unfold c, replay_log.
    rewrite bool_decide_eq_true_2 by exact Hlt. reflexivity.
  - intros Hmin.
    pose proof (extends_replay_log_marked C opts read_only min_log_number
                  log_number r Hmin) as Hext. fold c in Hext.
    split; [| split].
    + eapply extends_elem_of; [exact Hext |].
      unfold marked. proj. apply elem_of_emit.
    + destruct Hext as (_ & Hn & _). revert Hn. unfold marked. proj.
      rewrite MarkFileNumberUsed_next_file_number. lia.
    + intros Hstop Hopen. unfold c.
      rewrite replay_log_from_boundary by exact Hmin. cbv zeta.
      unfold marked at 1. proj. rewrite Hstop. proj.
      rewrite Hopen. reflexivity.
Qed.

Lemma replay_log_min_log_number_witness :
  let r := Scenario.start_replay
             (Scenario.recovering [Scenario.default_cfd 0]) in
  replay_log Scenario.boundary_wal Scenario.default_options false 5 3 r =
  Continue r /\
  EvMarkFileNumberUsed 5
  ∈ trace (impl (state_of (replay_log Scenario.boundary_wal
                             Scenario.default_options false 5 5 r))).
Proof.
  cbv zeta. split.
  - apply (replay_log_min_log_number Scenario.boundary_wal
             Scenario.default_options false 5 3). lia.
  - apply (replay_log_min_log_number Scenario.boundary_wal
             Scenario.default_options false 5 5). lia.
Defined.

(** ** The dummy record of [Open] *)

Lemma grows_refl (d : DBImpl) : grows d d.
Proof. unfold grows. repeat split; reflexivity. Qed.

Lemma grows_trans (d1 d2 d3 : DBImpl) :
  grows d1 d2 -> grows d2 d3 -> grows d1 d3.
Proof.
  unfold grows. intros (Ht & Hl & Hf) (Ht' & Hl' & Hf').
  repeat split; [etrans; eassumption | congruence | congruence].
Qed.

Lemma grows_emit (ev : Event) (d : DBImpl) : grows d (emit ev d).
Proof.
  unfold grows, emit. proj.
  repeat split; apply prefix_app_r; reflexivity.
Qed.

Lemma grows_set_versions (vs : VersionSet) (d : DBImpl) :
  grows d (set_versions vs d).
Proof. unfold grows. proj. repeat split; reflexivity. Qed.

Lemma grows_elem_of (ev : Event) (d d' : DBImpl) :
  grows d d' -> ev ∈ trace d -> ev ∈ trace d'.
Proof.
  intros (Ht & _) Hin. destruct Ht as [l ->]. apply elem_of_app. auto.
Qed.

(** A state reached by calls and assignments alone. *)
Ltac grows_by_calls :=
  unfold grows, emit; proj; repeat split; try reflexivity;
  repeat apply prefix_app_r; reflexivity.

Lemma grows_PersistentStatsProcessFormatVersion (C : Collab) (d : DBImpl) :
  grows d (PersistentStatsProcessFormatVersion C d).2.
Proof.
  unfold PersistentStatsProcessFormatVersion. cbv zeta.
  set (recreate := persistent_stats_cfd_exists d && _).
  destruct recreate; destruct (_ && _); cbn [fst snd]; grows_by_calls.
Qed.

Lemma grows_check_column_families (cfds : list ColumnFamilyData)
    (d : DBImpl) :
  grows d (check_column_families cfds d).2.
Proof.
  revert d. induction cfds as [|cfd cfds IH]; intros d;
    cbn [check_column_families]; [apply grows_refl |].
  cbv zeta.
  assert (Hs : grows d (if negb (IsSnapshotSupported cfd)
                        then set_is_snapshot_supported false d else d)).
  { destruct (negb _); grows_by_calls. }
  destruct (negb (ok _)); cbn [snd]; [exact Hs |].
  eapply grows_trans; [exact Hs | apply IH].
Qed.

Lemma grows_set_handles (C : Collab) (create_missing : bool)
    (column_families : list ColumnFamilyDescriptor) (handles : list string)
    (d : DBImpl) :
  grows d (set_handles C create_missing column_families handles d).2.
Proof.
  revert handles d.
  induction column_families as [|cf column_families IH]; intros handles d;
    cbn [set_handles]; [apply grows_refl |].
  destruct (GetColumnFamilyByName _ _); [apply IH |].
  destruct create_missing; [| apply grows_refl].
  cbv zeta.
  assert (Hc : grows d
                 (set_versions (CreateColumnFamily C (versions d) (name cf)).2
                    (emit (EvCreateColumnFamily (name cf)) d))).
  { grows_by_calls. }
  destruct (ok _); [| exact Hc].
  eapply grows_trans; [exact Hc | apply IH].
Qed.

Lemma grows_install_super_versions (cfds : list ColumnFamilyData)
    (d : DBImpl) :
  grows d
    (fold_left (fun d cfd => emit (EvInstallSuperVersion (GetID cfd)) d)
       cfds d).
Proof.
  revert d. induction cfds as [|cfd cfds IH]; intros d; cbn [fold_left];
    [apply grows_refl |].
  eapply grows_trans; [apply grows_emit | apply IH].
Qed.

(** Each block of the go-live part hands on a failure untouched, and only
    adds calls. *)
Lemma Open_create_wal_ok (C : Collab) (s : Status) (d : DBImpl) :
  ok (Open_create_wal C s d).1 = true ->
  List.last (logs (Open_create_wal C s d).2) 0 =
  logfile_number (Open_create_wal C s d).2.
Proof.
  unfold Open_create_wal. destruct (ok s) eqn:Hs; cbn [fst snd];
    [| congruence].
  cbv zeta. destruct (ok (CreateWAL _ _ _ _).1) eqn:Hw; cbn [fst snd];
    [| congruence].
  intros _. proj. apply last_last.
Qed.

Lemma Open_set_handles_ok (C : Collab) (db_options : DBOptions)
    (column_families : list ColumnFamilyDescriptor) (s : Status)
    (d : DBImpl) :
  let sh := Open_set_handles C db_options column_families s d in
  grows d sh.2 /\ (ok sh.1.1 = true -> ok s = true).
Proof.
  unfold Open_set_handles. destruct (ok s) eqn:Hs; cbn [fst snd].
  - split; [apply grows_set_handles | auto].
  - split; [apply grows_refl | congruence].
Qed.

Lemma Open_install_ok (C : Collab) (s : Status) (d : DBImpl) :
  let sd := Open_install C s d in
  grows d sd.2 /\ (ok sd.1 = true -> ok s = true).
Proof.
  unfold Open_install. destruct (ok s) eqn:Hs; cbn [fst snd].
  - split; [| auto]. cbv zeta.
    eapply grows_trans; [apply grows_install_super_versions |].
    grows_by_calls.
  - split; [apply grows_refl | congruence].
Qed.

Lemma Open_dummy_record_ok (C : Collab) (recovered_seq : Z) (s : Status)
    (d : DBImpl) :
  let sd := Open_dummy_record C recovered_seq s d in
  grows d sd.2 /\
  (ok sd.1 = true -> ok s = true) /\
  (ok s = true -> recovered_seq <> kMaxSequenceNumber ->
   EvWriteToWAL (List.last (logs d) 0)
     (SetSequence empty_WriteBatch recovered_seq) ∈ trace sd.2) /\
  (recovered_seq = kMaxSequenceNumber -> sd = (s, d)).
Proof.
  unfold Open_dummy_record. destruct (ok s) eqn:Hs.
  - case_bool_decide as Hseq; cbv zeta; cbn [fst snd].
    + split; [apply grows_emit |]. split; [auto |].
      split; [intros _ _; apply elem_of_emit | congruence].
    + split; [apply grows_refl |]. split; [auto |].
      split; [| reflexivity]. intros _ Hne. exfalso. apply Hne.
      destruct (decide (recovered_seq = kMaxSequenceNumber)); tauto.
  - cbn [fst snd]. split; [apply grows_refl |]. split; [congruence |].
    split; [congruence | reflexivity].
Qed.

Lemma Open_persistent_stats_ok (C : Collab) (s : Status) (d : DBImpl) :
  let sd := Open_persistent_stats C s d in
  grows d sd.2 /\ (ok sd.1 = true -> ok s = true).
Proof.
  unfold Open_persistent_stats. destruct (ok s) eqn:Hs; cbn [andb].
  - destruct (persist_stats_to_disk _); cbn [fst snd].
    + split; [apply grows_PersistentStatsProcessFormatVersion | auto].
    + split; [apply grows_refl | auto].
  - cbn [fst snd]. split; [apply grows_refl | congruence].
Qed.

Lemma Open_check_column_families_ok (s : Status) (d : DBImpl) :
  let sd := Open_check_column_families s d in
  grows d sd.2 /\ (ok sd.1 = true -> ok s = true).
Proof.
  unfold Open_check_column_families. destruct (ok s) eqn:Hs; cbn [fst snd].
  - split; [apply grows_check_column_families | auto].
  - split; [apply grows_refl | congruence].
Qed.

Lemma Open_finish_ok (C : Collab) (s : Status) (handles : list string)
    (d : DBImpl) :
  let out := Open_finish C s handles d in
  ok out.1.1.1 = true ->
  ok s = true /\
  exists d', out.1.1.2 = Some d' /\ out.2 = trace d' /\ grows d d'.
Proof.
  unfold Open_finish. cbv zeta. destruct (ok s) eqn:Hs; cbn [andb].
  - destruct (negb (ok (WriteOptionsFile C))); cbn [fst snd].
    + intros H. discriminate H.
    + rewrite Hs. cbn [fst snd]. intros _. split; [reflexivity |].
      eexists. split; [reflexivity |]. split; [reflexivity |].
      grows_by_calls.
  - rewrite Hs. cbn [fst snd]. congruence.
Qed.

Lemma Open_go_live_dummy_record (C : Collab) (db_options : DBOptions)
    (column_families : list ColumnFamilyDescriptor) (s : Status)
    (recovered_seq : Z) (d : DBImpl) :
  let out := Open_go_live C db_options column_families s recovered_seq d in
  ok out.1.1.1 = true ->
  recovered_seq <> kMaxSequenceNumber ->
  exists d',
    out.1.1.2 = Some d' /\
    List.last (logs d') 0 = logfile_number d' /\
    EvWriteToWAL (logfile_number d')
      (SetSequence empty_WriteBatch recovered_seq) ∈ out.2.
Proof.
  unfold Open_go_live. cbv zeta.
  set (sd1 := Open_create_wal C s d).
  set (sh := Open_set_handles C db_options column_families sd1.1 sd1.2).
  set (sd2 := Open_install C sh.1.1 sh.2).
  set (sd3 := Open_dummy_record C recovered_seq sd2.1 sd2.2).
  set (sd4 := Open_persistent_stats C sd3.1 sd3.2).
  set (sd5 := Open_check_column_families sd4.1 sd4.2).
  intros Hok Hseq.
  destruct (Open_finish_ok C sd5.1 sh.1.2 sd5.2 Hok)
    as (H5 & d' & Hd' & Htr & Hg6).
  destruct (Open_check_column_families_ok sd4.1 sd4.2) as [Hg5 H4].
  fold sd5 in Hg5, H4. specialize (H4 H5).
  destruct (Open_persistent_stats_ok C sd3.1 sd3.2) as [Hg4 H3].
  fold sd4 in Hg4, H3. specialize (H3 H4).
  destruct (Open_dummy_record_ok C recovered_seq sd2.1 sd2.2)
    as (Hg3 & H2 & Hev & _).
  fold sd3 in Hg3, H2, Hev. specialize (H2 H3). specialize (Hev H2 Hseq).
  destruct (Open_install_ok C sh.1.1 sh.2) as [Hg2 H1].
  fold sd2 in Hg2, H1. specialize (H1 H2).
  destruct (Open_set_handles_ok C db_options column_families sd1.1 sd1.2)
    as [Hg1 H0].
  fold sh in Hg1, H0. specialize (H0 H1).
  pose proof (Open_create_wal_ok C s d H0) as Hlast. fold sd1 in Hlast.
  (* the WAL writers are those of the new WAL block *)
  assert (Hg : grows sd2.2 d').
  { eapply grows_trans; [exact Hg3 |].
    eapply grows_trans; [exact Hg4 |].
    eapply grows_trans; [exact Hg5 | exact Hg6]. }
  assert (Hl2 : logs sd2.2 = logs sd1.2 /\
                logfile_number sd2.2 = logfile_number sd1.2).
  { destruct Hg1 as (_ & Hl1 & Hf1). destruct Hg2 as (_ & Hl2 & Hf2).
    split; congruence. }
  destruct Hl2 as [Hl2 Hf2]. destruct Hg as (Hpre & Hl & Hf).
  exists d'. split; [exact Hd' |]. split.
  - rewrite Hl, Hf, Hl2, Hf2. exact Hlast.
  - rewrite Htr. rewrite Hf, Hf2, <- Hlast, <- Hl2.
    destruct Hg4 as (Hp4 & _). destruct Hg5 as (Hp5 & _).
    destruct Hg6 as (Hp6 & _).
    destruct Hp4 as [l4 E4]. destruct Hp5 as [l5 E5]. destruct Hp6 as [l6 E6].
    rewrite E6, E5, E4. rewrite !elem_of_app. auto.
Qed.

Lemma Recover_replay_recovered_seq (C : Collab) (read_only : bool)
    (seq : Z) (logs : list Z) (d : DBImpl) :
  let rl := RecoverLogFiles C (merge_sort Z.le logs) kMaxSequenceNumber
              read_only d in
  (Recover_replay C read_only (Some seq) logs d).1.2 =
  Some (if corrupted_log_found rl.2 then next_sequence rl.2 else seq).
Proof.
  unfold Recover_replay. cbv zeta.
  destruct (negb (ok _)), (corrupted_log_found _); reflexivity.
Qed.

Lemma Recover_logs_recovered_seq (C : Collab)
    (read_only e1 e2 is_new_db : bool) (seq : Z) (d : DBImpl) :
  let out := Recover_logs C read_only e1 e2 is_new_db (Some seq) d in
  out.1.2 = Some seq \/
  exists seq', out.1.2 = Some seq' /\ reported_by_replay C read_only seq'.
Proof.
  unfold Recover_logs. cbv zeta.
  destruct (IsNotFound _); [left; reflexivity |].
  destruct (negb (ok _)); [left; reflexivity |].
  destruct (collect_logs _ _ _ _) as [s|logs]; [left; reflexivity |].
  destruct (_ && e1); [left; reflexivity |].
  destruct (_ && _ && _); [left; reflexivity |].
  destruct (bool_decide _); [| left; reflexivity].
  rewrite Recover_replay_recovered_seq. cbv zeta.
  destruct (corrupted_log_found _) eqn:Hfound; [| left; reflexivity].
  right. eexists. split; [reflexivity |].
  exists logs, d. cbv zeta. split; [exact Hfound | reflexivity].
Qed.

Lemma Recover_options_file_recovered_seq (C : Collab) (read_only : bool)
    (out : Status * option Z * DBImpl) :
  (Recover_options_file C read_only out).1.2 = out.1.2.
Proof.
  unfold Recover_options_file. cbv zeta.
  destruct read_only; [| reflexivity].
  destruct (ok (if ok _ then _ else _)); reflexivity.
Qed.

Lemma Recover_recovered_seq (C : Collab)
    (column_families : list ColumnFamilyDescriptor)
    (read_only e1 e2 : bool) (seq : Z) (d : DBImpl) :
  let rc := Recover C column_families read_only e1 e2 (Some seq) d in
  rc.1.2 = Some seq \/
  exists seq', rc.1.2 = Some seq' /\ reported_by_replay C read_only seq'.
Proof.
  unfold Recover. cbv zeta.
  repeat first
    [ rewrite Recover_options_file_recovered_seq
    | apply Recover_logs_recovered_seq
    | left; reflexivity
    | match goal with
      | |- context [match ?x with _ => _ end] =>
          lazymatch x with
          | Recover_logs _ _ _ _ _ _ _ => fail
          | _ => destruct x
          end
      end ].
Qed.

(** C1, as stated, fails: the open of a database whose WAL holds one
    intact record replays the record and succeeds, and writes no dummy
    batch to the new WAL. *)
Lemma clean_replay_writes_no_dummy :
  ~ dummy_after_any_replay Scenario.clean_wal Scenario.default_options "db"
      [Scenario.default_cf].
Proof.
  unfold dummy_after_any_replay. cbv zeta. intros H.
  destruct H as (d & seq & Hd & Hin).
  - by_computation.
  - exists 4, (mkWriteBatch 1 1 [(0, "k1=v1")]). by_computation.
  - vm_compute in Hd. injection Hd as <-.
    revert Hin. generalize (SetSequence empty_WriteBatch seq). intros b.
    vm_compute. intros Hin.
    repeat (apply elem_of_cons in Hin as [Hin | Hin]; [discriminate Hin |]).
    apply elem_of_nil in Hin. exact Hin.
Qed.

(** C1, amended: [Recover] reports a recovered sequence only when the
    replay of the WALs found a corrupted log, and it is then the sequence
    cursor of the replay; for every open in which it does, the go-live
    part writes a dummy empty batch with that sequence number to the newly
    created WAL before the open returns successfully. *)
Theorem Open_writes_dummy_record (C : Collab) (db_options : DBOptions)
    (dbname : string) (column_families : list ColumnFamilyDescriptor)
    (impl0 : DBImpl) :
  Open_prepare C db_options dbname column_families = inr impl0 ->
  let rc := Recover C column_families false false false
              (Some kMaxSequenceNumber) impl0 in
  let recovered_seq := default kMaxSequenceNumber rc.1.2 in
  let out := Open C db_options dbname column_families in
  ok out.1.1.1 = true ->
  recovered_seq <> kMaxSequenceNumber ->
  reported_by_replay C false recovered_seq /\
  exists d,
    out.1.1.2 = Some d /\
    List.last (logs d) 0 = logfile_number d /\
    EvWriteToWAL (logfile_number d)
      (SetSequence empty_WriteBatch recovered_seq) ∈ out.2.
Proof.
  intros Hprep rc recovered_seq out Hok Hseq. split.
  - destruct (Recover_recovered_seq C column_families false false false
                kMaxSequenceNumber impl0) as [H | (seq' & H & Hrep)];
      fold rc in H.
    + exfalso. apply Hseq. unfold recovered_seq. rewrite H. reflexivity.
    + unfold recovered_seq. rewrite H. exact Hrep.
  - unfold out, Open in *. rewrite Hprep in *.
    apply Open_go_live_dummy_record; assumption.
Qed.

Lemma Open_writes_dummy_record_witness :
  let out := Open Scenario.torn_wal Scenario.default_options "db"
               [Scenario.default_cf] in
  EvWriteToWAL 6 (mkWriteBatch 2 0 []) ∈ out.2.
Proof.
  cbv zeta.
  destruct (Open_writes_dummy_record Scenario.torn_wal
              Scenario.default_options "db" [Scenario.default_cf]
              (Scenario.state_open_prepared Scenario.torn_wal)
              ltac:(vm_compute; reflexivity) ltac:(vm_compute; reflexivity)
              ltac:(vm_compute; discriminate))
    as (_ & d & Hd & _ & Hin).
  vm_compute in Hd. injection Hd as <-.
  vm_compute in Hin. vm_compute. exact Hin.
Defined.

(** * The recovery of the WALs as a whole *)

(** ** [RecoverLogFiles] around its loop *)

Lemma RecoverLogFiles_loop (C : Collab) (log_numbers : list Z)
    (next_sequence0 : Z) (read_only : bool) (d : DBImpl) :
  RecoverLogFiles C log_numbers next_sequence0 read_only d =
  match replay_logs C (immutable_db_options d) read_only
          (MinLogNumberToKeep C (versions d)) log_numbers
          (RecoverLogFiles_start d next_sequence0) with
  | Continue r =>
      RecoverLogFiles_finish C (immutable_db_options d) read_only
        log_numbers r
  | Break r => (status r, r)
  | Return s r => (s, r)
  end.
Proof. reflexivity. Qed.

(** The loop goes on to the next WAL only with status OK. *)
Lemma after_read_loop_Continue_ok (opts : DBOptions) (log_number : Z)
    (r r' : Replay) :
  after_read_loop opts log_number r = Continue r' -> ok (status r') = true.
Proof.
  unfold after_read_loop. cbv zeta.
  destruct (negb (ok (status r))) eqn:Hok.
  - destruct (IsNotSupported (status r)); [discriminate |].
    case_bool_decide; [| case_bool_decide; [| discriminate]]; proj;
      case_match; intros Heq; injection Heq as <-; reflexivity.
  - apply negb_false_iff in Hok.
    case_match; intros Heq; injection Heq as <-; proj; exact Hok.
Qed.

Lemma replay_log_Continue_ok (C : Collab) (opts : DBOptions)
    (read_only : bool) (min_log_number log_number : Z) (r r' : Replay) :
  ok (status r) = true ->
  replay_log C opts read_only min_log_number log_number r = Continue r' ->
  ok (status r') = true.
Proof.
  intros Hok. unfold replay_log. cbv zeta.
  case_bool_decide; [intros Heq; injection Heq as <-; exact Hok |].
  set (r1 := set_impl _ r).
  destruct (stop_replay_by_wal_filter r1);
    [intros Heq; injection Heq as <-; exact Hok |].
  destruct (negb (ok (status (set_status _ r1)))).
  { destruct (negb (ok _)) eqn:Hign; [discriminate |].
    intros Heq; injection Heq as <-. apply negb_false_iff in Hign. exact Hign. }
  destruct (read_loop _ _ _ _ _ _ _) as [r2|r2|s r2]; try discriminate.
  apply after_read_loop_Continue_ok.
Qed.

Lemma replay_logs_Continue_ok (C : Collab) (opts : DBOptions)
    (read_only : bool) (min_log_number : Z) (log_numbers : list Z)
    (r r' : Replay) :
  ok (status r) = true ->
  replay_logs C opts read_only min_log_number log_numbers r = Continue r' ->
  ok (status r') = true.
Proof.
  revert r. induction log_numbers as [|n log_numbers IH]; intros r Hok;
    cbn [replay_logs].
  - intros Heq; injection Heq as <-; exact Hok.
  - destruct (replay_log C opts read_only min_log_number n r)
      as [r1|r1|s r1] eqn:Hlog; try discriminate.
    apply IH. eapply replay_log_Continue_ok; eassumption.
Qed.

(** Where the status of the end of [RecoverLogFiles] comes from. *)
Lemma finalize_column_families_status (C : Collab) (opts : DBOptions)
    (max_log_number : Z) (cfds : list ColumnFamilyData) (data_seen : bool)
    (r : Replay) :
  let out := finalize_column_families C opts max_log_number cfds data_seen
               r in
  status out.2 = status r \/
  exists cfd number, status out.2 = (BuildTable C cfd number).1.
Proof.
  cbv zeta. revert data_seen r.
  induction cfds as [|cfd cfds IH]; intros data_seen r;
    cbn [finalize_column_families]; [left; reflexivity |].
  cbv zeta. case_bool_decide; [apply IH |].
  destruct (bool_decide (first_seqno (mem cfd) <> 0)
            && (flushed r || negb (avoid_flush_during_recovery opts)));
    cbn [andb negb].
  - destruct (negb (ok _)).
    + right. do 2 eexists. reflexivity.
    + match goal with
      | |- context [finalize_column_families C opts max_log_number cfds
                      ?s ?r'] =>
          destruct (IH s r') as [Hst | Hst]
      end.
      * right. rewrite Hst.
        match goal with
        | |- context [status (if ?c then _ else _)] => destruct c
        end; proj; do 2 eexists; reflexivity.
      * right. exact Hst.
  - match goal with
    | |- context [finalize_column_families C opts max_log_number cfds
                    ?s ?r'] =>
        destruct (IH s r') as [Hst | Hst]
    end.
    + left. rewrite Hst.
      match goal with
      | |- context [status (if ?c then _ else _)] => destruct c
      end; reflexivity.
    + right. exact Hst.
Qed.

Lemma RestoreAliveLogFiles_loop_status_source (C : Collab) (back : Z)
    (log_numbers : list Z) (d : DBImpl) :
  (RestoreAliveLogFiles_loop C back log_numbers d).1 = St.OK \/
  exists n, (RestoreAliveLogFiles_loop C back log_numbers d).1 =
            (GetFileSize C n).1.
Proof.
  revert d. induction log_numbers as [|n l IH]; intros d;
    cbn [RestoreAliveLogFiles_loop]; [left; reflexivity |].
  cbv zeta. destruct (negb (ok _)); [right; exists n; reflexivity |].
  destruct l as [|m l]; [right; exists n; reflexivity | apply IH].
Qed.

Lemma RecoverLogFiles_finish_status (C : Collab) (opts : DBOptions)
    (read_only : bool) (log_numbers : list Z) (r : Replay) :
  cross_check opts r = None ->
  let out := RecoverLogFiles_finish C opts read_only log_numbers r in
  out.1 = status r \/ out.1 = St.OK \/
  (exists cfd number, out.1 = (BuildTable C cfd number).1) \/
  (exists vs edits b, out.1 = (LogAndApply C vs edits b).1) \/
  (exists n, out.1 = (GetFileSize C n).1).
Proof.
  intros Hcheck. cbv zeta. unfold RecoverLogFiles_finish. rewrite Hcheck.
  cbv zeta.
  assert (Hrestore : forall d',
            (RestoreAliveLogFiles C log_numbers d').1 = St.OK \/
            exists n, (RestoreAliveLogFiles C log_numbers d').1 =
                      (GetFileSize C n).1).
  { intros d'. unfold RestoreAliveLogFiles.
    destruct log_numbers as [|n l]; [left; reflexivity |].
    apply RestoreAliveLogFiles_loop_status_source. }
  destruct read_only; cbn [negb fst snd].
  - rewrite andb_false_r. cbn [andb fst]. left. reflexivity.
  - pose proof (finalize_column_families_status C opts
                  (List.last log_numbers 0)
                  (column_family_set (versions (impl r))) false r) as Hfin.
    cbv zeta in Hfin.
    set (fin := finalize_column_families C opts (List.last log_numbers 0)
                  (column_family_set (versions (impl r))) false r) in *.
    destruct (ok (status fin.2)) eqn:Hfinok; cbn [fst snd].
    + destruct (_ && _ && _); proj.
      * match goal with
        | |- context [RestoreAliveLogFiles C log_numbers ?d'] =>
            destruct (Hrestore d') as [H | H]
        end.
        -- right. left. exact H.
        -- right. right. right. right. exact H.
      * right. right. right. left. do 3 eexists. reflexivity.
    + rewrite Hfinok. cbn [andb fst]. destruct Hfin as [H | H].
      * left. exact H.
      * right. right. left. exact H.
Qed.

(** ** The check after the loop over the WALs, in the recovery *)

(** C4, as stated, fails: in point-in-time recovery the stop flag is set
    by the damaged WAL 1 and cleared again by WAL 2, which starts at the
    expected sequence; the second column family has a log number above
    that of the corrupted log, and the recovery returns OK. *)
Lemma cleared_flag_passes_the_check :
  let C := Scenario.resumed_wals in
  let d := Scenario.recovering
             [Scenario.default_cfd 1; Scenario.other_cfd 2] in
  let opts := immutable_db_options d in
  let after_wal_1 :=
    state_of (replay_logs C opts false (MinLogNumberToKeep C (versions d))
                [1] (RecoverLogFiles_start d kMaxSequenceNumber)) in
  let out := RecoverLogFiles C [1; 2] kMaxSequenceNumber false d in
  wal_recovery_mode opts = kPointInTimeRecovery /\
  stop_replay_for_corruption after_wal_1 = true /\
  corrupted_log_number after_wal_1 = 1 /\
  corrupted_log_number out.2 = 1 /\
  Scenario.other_cfd 2 ∈ column_family_set (versions (impl out.2)) /\
  GetLogNumber (Scenario.other_cfd 2) > corrupted_log_number out.2 /\
  ok out.1 = true.
Proof.
  cbv zeta.
  split; [vm_compute; reflexivity |].
  split; [vm_compute; reflexivity |].
  split; [vm_compute; reflexivity |].
  split; [vm_compute; reflexivity |].
  split; [vm_compute; apply list_elem_of_further, list_elem_of_here |].
  split; vm_compute; reflexivity.
Qed.

(** C4, amended: when the loop over the WALs ends with the stop flag
    still set, in point-in-time or tolerate-tail mode, [RecoverLogFiles]
    returns Corruption("SST file is ahead of WALs"), right after the loop,
    if some column family has a log number above the number of the
    corrupted log; if none has, it goes on, and it does not return
    this status unless a later step (writing a table, writing the
    manifest, reading the size of a WAL) fails with it. *)
Theorem RecoverLogFiles_sst_ahead_of_wals (C : Collab)
    (log_numbers : list Z) (next_sequence0 : Z) (read_only : bool)
    (d : DBImpl) (r : Replay) :
  let opts := immutable_db_options d in
  let sst_ahead := St.Corruption "SST file is ahead of WALs" in
  replay_logs C opts read_only (MinLogNumberToKeep C (versions d))
    log_numbers (RecoverLogFiles_start d next_sequence0) = Continue r ->
  stop_replay_for_corruption r = true ->
  wal_recovery_mode opts = kPointInTimeRecovery \/
  wal_recovery_mode opts = kTolerateCorruptedTailRecords ->
  let ahead :=
    exists cfd, cfd ∈ column_family_set (versions (impl r)) /\
                GetLogNumber cfd > corrupted_log_number r in
  let out := RecoverLogFiles C log_numbers next_sequence0 read_only d in
  (ahead -> out = (sst_ahead, r)) /\
  (~ ahead ->
   (forall cfd number, (BuildTable C cfd number).1 <> sst_ahead) ->
   (forall vs edits b, (LogAndApply C vs edits b).1 <> sst_ahead) ->
   (forall n, (GetFileSize C n).1 <> sst_ahead) ->
   out.1 <> sst_ahead).
Proof.
  intros opts sst_ahead Hloop Hstop Hmode ahead out.
  destruct (cross_check_ahead C opts r Hstop Hmode) as (_ & Hnone & Hfin).
  assert (Hout : out = RecoverLogFiles_finish C opts read_only log_numbers r).
  { unfold out. rewrite RecoverLogFiles_loop. fold opts. rewrite Hloop.
    reflexivity. }
  split.
  - intros Ha. rewrite Hout. apply Hfin. exact Ha.
  - intros Hna Hbuild Hmanifest Hsize.
    apply Hnone in Hna.
    assert (Hok : ok (status r) = true).
    { eapply replay_logs_Continue_ok; [| exact Hloop]. reflexivity. }
    rewrite Hout.
    pose proof (RecoverLogFiles_finish_status C opts read_only log_numbers
                  r Hna) as Hsrc.
    cbv zeta in Hsrc.
    destruct Hsrc
      as [H | [H | [(cfd & number & H) | [(vs & edits & b & H) | (n & H)]]]];
      unfold not; intros Heq; rewrite H in Heq.
    + apply (f_equal ok) in Heq. rewrite Hok in Heq. discriminate Heq.
    + discriminate Heq.
    + exact (Hbuild cfd number Heq).
    + exact (Hmanifest vs edits b Heq).
    + exact (Hsize n Heq).
Qed.

Lemma RecoverLogFiles_sst_ahead_of_wals_witness :
  let d := Scenario.recovering
             [Scenario.default_cfd 1; Scenario.other_cfd 2] in
  (RecoverLogFiles Scenario.stopped_wals [1; 2] kMaxSequenceNumber false
     d).1 = St.Corruption "SST file is ahead of WALs".
Proof.
  cbv zeta.
  destruct (RecoverLogFiles_sst_ahead_of_wals Scenario.stopped_wals [1; 2]
              kMaxSequenceNumber false
              (Scenario.recovering
                 [Scenario.default_cfd 1; Scenario.other_cfd 2])
              (state_of
                 (replay_logs Scenario.stopped_wals
                    (immutable_db_options
                       (Scenario.recovering
                          [Scenario.default_cfd 1; Scenario.other_cfd 2]))
                    false 1 [1; 2]
                    (RecoverLogFiles_start
                       (Scenario.recovering
                          [Scenario.default_cfd 1; Scenario.other_cfd 2])
                       kMaxSequenceNumber)))
              ltac:(vm_compute; reflexivity) ltac:(vm_compute; reflexivity))
    as [Hahead _].
  - left. vm_compute. reflexivity.
  - rewrite Hahead; [reflexivity |].
    exists (Scenario.other_cfd 2). split.
    + vm_compute. apply list_elem_of_further, list_elem_of_here.
    + vm_compute. reflexivity.
Defined.

(** ** A rewritten record, in the recovery *)

Lemma grows_of_extends (d d' : DBImpl) : extends d d' -> grows d d'.
Proof. intros (Ht & _ & Hl & Hf). repeat split; assumption. Qed.

Lemma grows_finalize_column_families (C : Collab) (opts : DBOptions)
    (max_log_number : Z) (cfds : list ColumnFamilyData) (data_seen : bool)
    (r : Replay) :
  grows (impl r)
    (impl (finalize_column_families C opts max_log_number cfds data_seen
             r).2).
Proof.
  revert data_seen r. induction cfds as [|cfd cfds IH]; intros data_seen r;
    cbn [finalize_column_families]; [apply grows_refl |].
  cbv zeta. case_bool_decide; [apply IH |].
  pose proof (extends_WriteLevel0TableForRecovery C cfd
                (find_edit (GetID cfd) (version_edits r)) (impl r)) as Hw.
  apply grows_of_extends in Hw.
  destruct (bool_decide (first_seqno (mem cfd) <> 0)
            && (flushed r || negb (avoid_flush_during_recovery opts)));
    cbn [andb negb].
  - destruct (negb (ok _)); [proj; exact Hw |].
    eapply grows_trans; [| apply IH].
    match goal with
    | |- context [impl (if ?c then _ else _)] => destruct c
    end; proj;
      (eapply grows_trans;
       [exact Hw | apply grows_of_extends, extends_update_cfd]).
  - eapply grows_trans; [| apply IH].
    match goal with
    | |- context [impl (if ?c then _ else _)] => destruct c
    end; proj; apply grows_refl.
Qed.

Lemma grows_RestoreAliveLogFiles_loop (C : Collab) (back : Z)
    (log_numbers : list Z) (d : DBImpl) :
  grows d (RestoreAliveLogFiles_loop C back log_numbers d).2.
Proof.
  revert d. induction log_numbers as [|n l IH]; intros d;
    cbn [RestoreAliveLogFiles_loop]; [apply grows_refl |].
  cbv zeta. destruct (negb (ok _)); [apply grows_refl |].
  set (d1 := if bool_decide (n = back) then _ else _).
  assert (H1 : grows d d1).
  { unfold d1. case_bool_decide; grows_by_calls. }
  destruct l as [|m l]; [exact H1 |].
  eapply grows_trans; [exact H1 | apply IH].
Qed.

Lemma grows_RecoverLogFiles_finish (C : Collab) (opts : DBOptions)
    (read_only : bool) (log_numbers : list Z) (r : Replay) :
  grows (impl r)
    (impl (RecoverLogFiles_finish C opts read_only log_numbers r).2).
Proof.
  unfold RecoverLogFiles_finish.
  destruct (cross_check opts r); [apply grows_refl |].
  cbv zeta.
  assert (Hrestore : forall d',
            grows d' (RestoreAliveLogFiles C log_numbers d').2).
  { intros d'. unfold RestoreAliveLogFiles.
    destruct log_numbers as [|n l]; [apply grows_refl |].
    eapply grows_trans; [| apply grows_RestoreAliveLogFiles_loop].
    grows_by_calls. }
  destruct read_only; cbn [negb fst snd].
  - rewrite andb_false_r. cbn [andb snd]. apply grows_refl.
  - pose proof (grows_finalize_column_families C opts
                  (List.last log_numbers 0)
                  (column_family_set (versions (impl r))) false r) as Hfin.
    set (fin := finalize_column_families C opts (List.last log_numbers 0)
                  (column_family_set (versions (impl r))) false r) in *.
    destruct (ok (status fin.2)); cbn [fst snd].
    + destruct (_ && _ && _); proj.
      * eapply grows_trans; [exact Hfin |].
        eapply grows_trans; [| apply Hrestore]. grows_by_calls.
      * eapply grows_trans; [exact Hfin |]. grows_by_calls.
    + destruct (_ && _ && _); proj; [| exact Hfin].
      eapply grows_trans; [exact Hfin | apply Hrestore].
Qed.

Lemma replay_logs_app (C : Collab) (opts : DBOptions) (read_only : bool)
    (min_log_number : Z) (before after : list Z) (r : Replay) :
  replay_logs C opts read_only min_log_number (before ++ after) r =
  match replay_logs C opts read_only min_log_number before r with
  | Continue r1 => replay_logs C opts read_only min_log_number after r1
  | c => c
  end.
Proof.
  revert r. induction before as [|n before IH]; intros r;
    cbn [replay_logs app]; [reflexivity |].
  destruct (replay_log C opts read_only min_log_number n r) as [r1|r1|s r1];
    [apply IH | reflexivity | reflexivity].
Qed.

(** The calls of the loop over the WALs are still in the trace when
    [RecoverLogFiles] returns. *)
Lemma RecoverLogFiles_keeps_calls (C : Collab) (log_numbers : list Z)
    (next_sequence0 : Z) (read_only : bool) (d : DBImpl) (ev : Event) :
  ev ∈ trace
         (impl
            (state_of
               (replay_logs C (immutable_db_options d) read_only
                  (MinLogNumberToKeep C (versions d)) log_numbers
                  (RecoverLogFiles_start d next_sequence0)))) ->
  ev ∈ trace
         (impl (RecoverLogFiles C log_numbers next_sequence0 read_only d).2).
Proof.
  rewrite RecoverLogFiles_loop.
  destruct (replay_logs _ _ _ _ _ _) as [r|r|s r]; proj;
    [| intros H; exact H | intros H; exact H].
  apply grows_elem_of. apply grows_RecoverLogFiles_finish.
Qed.

(** The WAL [log_number], which is not skipped and can be opened, is
    read while the replay is not stopped by the filter. *)
Lemma replay_log_reads (C : Collab) (opts : DBOptions) (read_only : bool)
    (min_log_number log_number : Z) (r : Replay) :
  ~ log_number < min_log_number ->
  stop_replay_by_wal_filter r = false ->
  ok (NewSequentialFile C log_number) = true ->
  replay_log C opts read_only min_log_number log_number r =
  match read_loop C opts read_only log_number (new_LogReporter opts)
          (ReadRecords C log_number (wal_recovery_mode opts))
          (set_status (NewSequentialFile C log_number)
             (marked log_number r)) with
  | Continue r' => after_read_loop opts log_number r'
  | c => c
  end.
Proof.
  intros Hmin Hstop Hopen. unfold replay_log, marked. cbv zeta.
  rewrite bool_decide_eq_false_2 by exact Hmin.
  proj. rewrite Hstop, Hopen. reflexivity.
Qed.

(** One round of the read loop on a record that is handed to the loop
    body. *)
Lemma read_loop_round (C : Collab) (opts : DBOptions) (read_only : bool)
    (log_number : Z) (reporter : LogReporter) (reports : list (Z * Status))
    (rec : Slice) (reads : list ReadRecord) (r : Replay) :
  stop_replay_by_wal_filter r = false ->
  ok (status (deliver reporter reports r)) = true ->
  read_loop C opts read_only log_number reporter
    (mkReadRecord reports (Some rec) :: reads) r =
  match replay_record C opts read_only log_number reporter rec
          (deliver reporter reports r) with
  | Continue r' => read_loop C opts read_only log_number reporter reads r'
  | Break r' => Continue r'
  | Return s r' => Return s r'
  end.
Proof.
  intros Hstop Hok. cbn [read_loop reported record].
  rewrite Hstop, Hok. reflexivity.
Qed.

(** What the read loop returns on a WAL is followed by the end of the
    round for this WAL and by the WALs after it; the calls made stay. *)
Lemma calls_kept_after_read_loop (C : Collab) (opts : DBOptions)
    (read_only : bool) (min_log_number log_number : Z) (after : list Z)
    (c : Control) (ev : Event) :
  ev ∈ trace (impl (state_of c)) ->
  ev ∈ trace
         (impl
            (state_of
               match
                 match c with
                 | Continue r' => after_read_loop opts log_number r'
                 | Break r' => Break r'
                 | Return s r' => Return s r'
                 end
               with
               | Continue r' =>
                   replay_logs C opts read_only min_log_number after r'
               | Break r' => Break r'
               | Return s r' => Return s r'
               end)).
Proof.
  intros Hin. destruct c as [r'|r'|s r']; proj;
    [| exact Hin | exact Hin].
  pose proof (extends_after_read_loop opts log_number r') as Ha.
  destruct (after_read_loop opts log_number r') as [r''|r''|s r'']; proj;
    try (eapply extends_elem_of; eassumption).
  eapply extends_elem_of; [apply extends_replay_logs |]. proj.
  eapply extends_elem_of; eassumption.
Qed.

(** C8, as stated, fails: the WAL filter rewrites the record of WAL 4
    into a batch of twice as many records and tells the replay to ignore
    the record; the recovery returns OK, and nothing is applied to the
    memtables. *)
Lemma ignored_rewritten_record_is_dropped :
  let C := Scenario.filtered_wal Scenario.ignoring_filter in
  let d := Scenario.recovering [Scenario.default_cfd 0] in
  let rec := Scenario.put 1 "k1=v1" in
  let found := LogRecordFound Scenario.ignoring_filter 4 (contents rec) in
  let out := RecoverLogFiles C [4] kMaxSequenceNumber false d in
  ReadRecords C 4 (wal_recovery_mode (immutable_db_options d)) =
  [mkReadRecord [] (Some rec)] /\
  found.2 = true /\
  Count found.1.2 > Count (contents rec) /\
  ok out.1 = true /\
  Forall (fun ev => match ev with
                    | EvInsertInto _ _ => False
                    | _ => True
                    end) (trace (impl out.2)).
Proof.
  cbv zeta.
  split; [vm_compute; reflexivity |].
  split; [vm_compute; reflexivity |].
  split; [vm_compute; reflexivity |].
  split; [vm_compute; reflexivity |].
  vm_compute. repeat constructor.
Qed.

(** C8, amended: for every WAL record that the recovery hands to the
    WAL filter and that the filter rewrites.  When the filter lets the
    record through (it answers [kContinueProcessing], or
    [kCorruptedRecord] and the error is ignored): if the new batch counts
    more records than the original, [RecoverLogFiles] returns
    NotSupported, with the database object as it was before the record;
    otherwise the new batch is applied to the memtables with the sequence
    number of the original in place of its own.  When the filter answers
    [kIgnoreCurrentRecord] or [kStopReplay], the record is dropped
    whatever the new batch counts: nothing is applied and the status
    stays as it is. *)
Theorem rewritten_batch_keeps_sequence (C : Collab) (filter : WalFilter)
    (log_numbers : list Z) (next_sequence0 : Z) (read_only : bool)
    (d : DBImpl) (before after : list Z) (log_number : Z) (r1 r2 : Replay)
    (reads_before reads_after : list ReadRecord)
    (reports : list (Z * Status)) (rec : Slice) :
  let opts := immutable_db_options d in
  let min_log_number := MinLogNumberToKeep C (versions d) in
  let reporter := new_LogReporter opts in
  let batch := contents rec in
  let found := LogRecordFound filter log_number batch in
  let new_batch := found.1.2 in
  let r := deliver reporter reports r2 in
  let out := RecoverLogFiles C log_numbers next_sequence0 read_only d in
  wal_filter C = Some filter ->
  (* the loop over the WALs gets to [log_number] and reads it *)
  log_numbers = before ++ log_number :: after ->
  replay_logs C opts read_only min_log_number before
    (RecoverLogFiles_start d next_sequence0) = Continue r1 ->
  ~ log_number < min_log_number ->
  stop_replay_by_wal_filter r1 = false ->
  ok (NewSequentialFile C log_number) = true ->
  (* the read loop gets to [rec] and hands it to the filter *)
  ReadRecords C log_number (wal_recovery_mode opts) =
  reads_before ++ mkReadRecord reports (Some rec) :: reads_after ->
  (forall rest,
     read_loop C opts read_only log_number reporter (reads_before ++ rest)
       (set_status (NewSequentialFile C log_number) (marked log_number r1)) =
     read_loop C opts read_only log_number reporter rest r2) ->
  stop_replay_by_wal_filter r2 = false ->
  ok (status r) = true ->
  kHeader <= size rec ->
  bool_decide (wal_recovery_mode opts = kPointInTimeRecovery)
    && stop_replay_for_corruption
         (resume_if_consecutive opts (Sequence batch) r) = false ->
  (* the filter has rewritten it *)
  found.2 = true ->
  (found.1.1 = kContinueProcessing \/
   (found.1.1 = kCorruptedRecord /\
    ok (MaybeIgnoreError C
          (St.Corruption
             (St.msg2 "Corruption reported by Wal Filter " (Name filter))))
    = true) ->
   (Count new_batch > Count batch ->
    code out.1 = kNotSupported /\ impl out.2 = impl r2) /\
   (Count new_batch <= Count batch ->
    let applied := SetSequence new_batch (Sequence batch) in
    Sequence applied = Sequence batch /\
    Count applied = Count new_batch /\
    updates applied = updates new_batch /\
    EvInsertInto log_number applied ∈ trace (impl out.2))) /\
  (found.1.1 = kIgnoreCurrentRecord \/ found.1.1 = kStopReplay ->
   exists r',
     replay_record C opts read_only log_number reporter rec r = Continue r' /\
     impl r' = impl r /\ status r' = status r).
Proof.
  intros opts min_log_number reporter batch found new_batch r out
    Hfilter Hlogs Hbefore Hmin Hstop1 Hopen Hreads Hthrough Hstop2 Hok
    Hsize Hpit Hchanged.
  (* the loop over the WALs, from the round on [rec] *)
  assert (Hloop :
            replay_logs C opts read_only min_log_number log_numbers
              (RecoverLogFiles_start d next_sequence0) =
            match
              match
                match replay_record C opts read_only log_number reporter
                        rec r with
                | Continue r' =>
                    read_loop C opts read_only log_number reporter
                      reads_after r'
                | Break r' => Continue r'
                | Return s r' => Return s r'
                end
              with
              | Continue r' => after_read_loop opts log_number r'
              | c' => c'
              end
            with
            | Continue r' =>
                replay_logs C opts read_only min_log_number after r'
            | c' => c'
            end).
  { rewrite Hlogs, replay_logs_app, Hbefore. cbn [replay_logs].
    rewrite (replay_log_reads C opts read_only min_log_number log_number r1
               Hmin Hstop1 Hopen).
    fold reporter. rewrite Hreads, Hthrough.
    rewrite (read_loop_round C opts read_only log_number reporter reports
               rec reads_after r2 Hstop2 Hok).
    reflexivity. }
  split.
  - intros Hgo.
    destruct (replay_record_rewritten C filter opts read_only log_number
                reporter rec r Hfilter Hsize Hpit Hchanged Hgo)
      as [Hmore Hless].
    split.
    + intros Hcount.
      destruct (Hmore Hcount) as (s & r' & Hret & Hcode & Himpl & _).
      unfold out. rewrite RecoverLogFiles_loop. fold opts min_log_number.
      rewrite Hloop, Hret. cbn [fst snd].
      split; [exact Hcode |]. rewrite Himpl. apply deliver_impl.
    + intros Hcount applied.
      destruct (Hless Hcount) as (Hs & Hc & Hu & r0 & _ & _ & Hin).
      split; [exact Hs |]. split; [exact Hc |]. split; [exact Hu |].
      unfold out. apply RecoverLogFiles_keeps_calls.
      fold opts min_log_number. rewrite Hloop.
      apply (calls_kept_after_read_loop C opts read_only min_log_number
               log_number after
               match replay_record C opts read_only log_number reporter rec
                       r with
               | Continue r' =>
                   read_loop C opts read_only log_number reporter
                     reads_after r'
               | Break r' => Continue r'
               | Return s r' => Return s r'
               end).
      revert Hin.
      destruct (replay_record C opts read_only log_number reporter rec r)
        as [r'|r'|s r']; proj; intros Hin; [| exact Hin | exact Hin].
      eapply extends_elem_of; [apply extends_read_loop | exact Hin].
  - intros Hdrop.
    unfold replay_record. rewrite bool_decide_eq_false_2 by lia.
    cbv zeta. fold batch. rewrite Hpit.
    unfold process_record. rewrite Hfilter.
    unfold filter_record. cbv zeta. fold batch.
    unfold found in Hdrop. clear Hchanged.
    destruct (LogRecordFound filter log_number batch)
      as [[option rewritten] changed].
    cbn [fst snd] in *.
    assert (Hr0 : impl (resume_if_consecutive opts (Sequence batch) r) =
                  impl r /\
                  status (resume_if_consecutive opts (Sequence batch) r) =
                  status r).
    { split; [apply resume_if_consecutive_impl |].
      unfold resume_if_consecutive.
      destruct (bool_decide (wal_recovery_mode opts = kPointInTimeRecovery)
                && bool_decide (Sequence batch = next_sequence r));
        reflexivity. }
    destruct Hr0 as [Hi Hs].
    destruct Hdrop as [-> | ->]; eexists; (split; [reflexivity |]); proj;
      split; assumption.
Qed.

Lemma rewritten_batch_keeps_sequence_witness :
  let d := Scenario.recovering [Scenario.default_cfd 0] in
  code (RecoverLogFiles (Scenario.filtered_wal Scenario.doubling_filter) [4]
          kMaxSequenceNumber false d).1 = kNotSupported.
Proof.
  cbv zeta.
  destruct (rewritten_batch_keeps_sequence
              (Scenario.filtered_wal Scenario.doubling_filter)
              Scenario.doubling_filter [4] kMaxSequenceNumber false
              (Scenario.recovering [Scenario.default_cfd 0]) [] [] 4
              (RecoverLogFiles_start
                 (Scenario.recovering [Scenario.default_cfd 0])
                 kMaxSequenceNumber)
              (set_status St.OK
                 (marked 4
                    (RecoverLogFiles_start
                       (Scenario.recovering [Scenario.default_cfd 0])
                       kMaxSequenceNumber)))
              [] [] [] (Scenario.put 1 "k1=v1"))
    as [Hthrough _].
  - reflexivity.
  - reflexivity.
  - reflexivity.
  - vm_compute. discriminate.
  - reflexivity.
  - reflexivity.
  - vm_compute. reflexivity.
  - intros rest. reflexivity.
  - reflexivity.
  - reflexivity.
  - vm_compute. discriminate.
  - vm_compute. reflexivity.
  - reflexivity.
  - destruct Hthrough as [Hmore _]; [left; reflexivity |].
    apply Hmore. vm_compute. reflexivity.
Defined.

(** * Further properties *)

(** ** The blocks of the sanitizer as assignments *)

Ltac stage_eq stage :=
  intros; unfold stage;
  lazymatch goal with o : DBOptions |- _ => destruct o end;
  cbv zeta; cbn;
  repeat (first [case_bool_decide | case_match]; cbn in *; simplify_eq);
  try reflexivity; try lia; try congruence.

Lemma sanitize_max_open_files_eq (os : Z) (o : DBOptions) :
  sanitize_max_open_files os o =
  set_max_open_files
    (if bool_decide (max_open_files o <> -1)
     then ClipToRange (max_open_files o) 20
            (if bool_decide (os = -1) then 4194304 else os)
     else max_open_files o) o.
Proof. stage_eq sanitize_max_open_files. Qed.

Lemma sanitize_write_buffer_manager_eq (o : DBOptions) :
  sanitize_write_buffer_manager o =
  set_write_buffer_manager
    (match write_buffer_manager o with
     | None => Some (db_write_buffer_size o)
     | Some m => Some m
     end) o.
Proof. stage_eq sanitize_write_buffer_manager. Qed.

Lemma sanitize_bytes_per_sync_eq (o : DBOptions) :
  sanitize_bytes_per_sync o =
  set_bytes_per_sync
    (match rate_limiter o with
     | Some _ => if bool_decide (bytes_per_sync o = 0) then 1024 * 1024
                 else bytes_per_sync o
     | None => bytes_per_sync o
     end) o.
Proof. stage_eq sanitize_bytes_per_sync. Qed.

Lemma sanitize_delayed_write_rate_eq (o : DBOptions) :
  sanitize_delayed_write_rate o =
  set_delayed_write_rate
    (if bool_decide (delayed_write_rate o = 0) then
       match rate_limiter o with
       | Some r => if bool_decide (r = 0) then 16 * 1024 * 1024 else r
       | None => 16 * 1024 * 1024
       end
     else delayed_write_rate o) o.
Proof. stage_eq sanitize_delayed_write_rate. Qed.

Lemma sanitize_recycle_log_file_num_eq (o : DBOptions) :
  sanitize_recycle_log_file_num o =
  set_recycle_log_file_num
    (if bool_decide (WAL_ttl_seconds o > 0)
        || bool_decide (WAL_size_limit_MB o > 0)
        || bool_decide (wal_recovery_mode o = kPointInTimeRecovery)
        || bool_decide (wal_recovery_mode o = kAbsoluteConsistency)
     then 0 else recycle_log_file_num o) o.
Proof. stage_eq sanitize_recycle_log_file_num. Qed.

Lemma sanitize_wal_dir_eq (dbname : string) (o : DBOptions) :
  sanitize_wal_dir dbname o =
  set_wal_dir
    (if bool_decide
          (string_back (if string_empty (wal_dir o) then dbname
                        else wal_dir o) = Some "/"%char)
     then string_pop_back (if string_empty (wal_dir o) then dbname
                           else wal_dir o)
     else if string_empty (wal_dir o) then dbname else wal_dir o) o.
Proof. stage_eq sanitize_wal_dir. Qed.

Lemma sanitize_db_paths_eq (dbname : string) (o : DBOptions) :
  sanitize_db_paths dbname o =
  set_db_paths
    (match db_paths o with
     | [] => [mkDbPath dbname (2 ^ 64 - 1)]
     | paths => paths
     end) o.
Proof. stage_eq sanitize_db_paths. Qed.

Lemma sanitize_compaction_readahead_eq (o : DBOptions) :
  sanitize_compaction_readahead o =
  set_new_table_reader_for_compaction_inputs
    (if bool_decide
          ((if use_direct_reads o
               && bool_decide (compaction_readahead_size o = 0)
            then 1024 * 1024 * 2 else compaction_readahead_size o) > 0)
        || use_direct_reads o then true
     else new_table_reader_for_compaction_inputs o)
    (set_compaction_readahead_size
       (if use_direct_reads o
           && bool_decide (compaction_readahead_size o = 0)
        then 1024 * 1024 * 2 else compaction_readahead_size o) o).
Proof. stage_eq sanitize_compaction_readahead. Qed.

Lemma sanitize_avoid_flush_during_recovery_eq (o : DBOptions) :
  sanitize_avoid_flush_during_recovery o =
  set_avoid_flush_during_recovery
    (if allow_2pc o then false else avoid_flush_during_recovery o) o.
Proof. stage_eq sanitize_avoid_flush_during_recovery. Qed.

Lemma sanitize_paranoid_checks_eq (o : DBOptions) :
  sanitize_paranoid_checks o =
  set_skip_checking_sst_file_sizes_on_db_open
    (if paranoid_checks o then skip_checking_sst_file_sizes_on_db_open o
     else true) o.
Proof. stage_eq sanitize_paranoid_checks. Qed.

(** [SanitizeOptions] as the sequence of its assignments, with the fields
    read through them. *)
(** A field read through an assignment: the value assigned, or the field
    as it was. *)
Ltac read_fields :=
  repeat match goal with
  | |- context [?f (?g ?v ?o)] =>
      lazymatch type of o with DBOptions => idtac end;
      lazymatch type of (g v o) with DBOptions => idtac end;
      let H := fresh in
      first
        [ assert (H : forall v' o', f (g v' o') = f o') by reflexivity
        | assert (H : forall v' o', f (g v' o') = v') by reflexivity ];
      rewrite (H v o); clear H
  end.

Ltac sanitize_assignments :=
  unfold SanitizeOptions; cbv zeta;
  rewrite ?sanitize_paranoid_checks_eq; read_fields;
  rewrite ?sanitize_avoid_flush_during_recovery_eq; read_fields;
  rewrite ?sanitize_compaction_readahead_eq; read_fields;
  rewrite ?sanitize_db_paths_eq; read_fields;
  rewrite ?sanitize_wal_dir_eq; read_fields;
  rewrite ?sanitize_recycle_log_file_num_eq; read_fields;
  rewrite ?sanitize_delayed_write_rate_eq; read_fields;
  rewrite ?sanitize_bytes_per_sync_eq; read_fields;
  rewrite ?sanitize_write_buffer_manager_eq; read_fields;
  rewrite ?sanitize_max_open_files_eq; read_fields.

(** X1: WAL recycling is switched off by the sanitizer whenever the WAL
    retention is bounded or the recovery mode is point-in-time or absolute
    consistency, and is left as requested otherwise. *)
Theorem SanitizeOptions_recycle_log_file_num (os : Z) (dbname : string)
    (src : DBOptions) :
  let result := SanitizeOptions os dbname src in
  (WAL_ttl_seconds src > 0 \/ WAL_size_limit_MB src > 0 \/
   wal_recovery_mode src = kPointInTimeRecovery \/
   wal_recovery_mode src = kAbsoluteConsistency ->
   recycle_log_file_num result = 0) /\
  (WAL_ttl_seconds src <= 0 -> WAL_size_limit_MB src <= 0 ->
   wal_recovery_mode src <> kPointInTimeRecovery ->
   wal_recovery_mode src <> kAbsoluteConsistency ->
   recycle_log_file_num result = recycle_log_file_num src).
Proof.
  cbv zeta. sanitize_assignments. split.
  - intros H. destruct (_ || _) eqn:E; [reflexivity |]. exfalso.
    apply orb_false_elim in E as [E E4]. apply orb_false_elim in E as [E E3].
    apply orb_false_elim in E as [E1 E2].
    apply bool_decide_eq_false in E1, E2, E3, E4.
    destruct H as [H | [H | [H | H]]]; auto.
  - intros H1 H2 H3 H4.
    rewrite (bool_decide_eq_false_2 (WAL_ttl_seconds src > 0)) by lia.
    rewrite (bool_decide_eq_false_2 (WAL_size_limit_MB src > 0)) by lia.
    rewrite (bool_decide_eq_false_2 _ H3), (bool_decide_eq_false_2 _ H4).
    reflexivity.
Qed.

Lemma SanitizeOptions_recycle_log_file_num_witness :
  recycle_log_file_num
    (SanitizeOptions 1024 "db"
       (set_recycle_log_file_num 4 Scenario.default_options)) = 0.
Proof.
  apply (SanitizeOptions_recycle_log_file_num 1024 "db"
           (set_recycle_log_file_num 4 Scenario.default_options)).
  right. right. left. reflexivity.
Defined.

(** X2: after sanitization there is always a database path, namely the
    database name itself when none was given, and the WAL directory
    defaults to the database name; of either one trailing slash is cut. *)
Theorem SanitizeOptions_paths (os : Z) (dbname : string) (src : DBOptions) :
  let result := SanitizeOptions os dbname src in
  db_paths result <> [] /\
  (db_paths src = [] ->
   db_paths result = [mkDbPath dbname (2 ^ 64 - 1)]) /\
  (db_paths src <> [] -> db_paths result = db_paths src) /\
  (wal_dir src = "" ->
   wal_dir result = if bool_decide (string_back dbname = Some "/"%char)
                    then string_pop_back dbname else dbname) /\
  (wal_dir src <> "" ->
   wal_dir result =
   if bool_decide (string_back (wal_dir src) = Some "/"%char)
   then string_pop_back (wal_dir src) else wal_dir src).
Proof.
  cbv zeta. sanitize_assignments.
  split; [destruct (db_paths src); discriminate |].
  split; [intros ->; reflexivity |].
  split; [destruct (db_paths src); [contradiction | reflexivity] |].
  split.
  - intros ->. reflexivity.
  - intros H. destruct (wal_dir src); [contradiction | reflexivity].
Qed.

Lemma SanitizeOptions_paths_witness :
  db_paths (SanitizeOptions 1024 "db/" Scenario.default_options) =
  [mkDbPath "db/" (2 ^ 64 - 1)] /\
  wal_dir (SanitizeOptions 1024 "db/" Scenario.default_options) = "db".
Proof.
  destruct (SanitizeOptions_paths 1024 "db/" Scenario.default_options)
    as (_ & Hp & _ & Hw & _).
  split; [apply Hp; reflexivity | apply Hw; reflexivity].
Defined.

(** X3: the sanitizer forces the flush during recovery under two-phase
    commit, and gives direct reads a compaction readahead and the table
    readers for compaction inputs. *)
Theorem SanitizeOptions_forced_settings (os : Z) (dbname : string)
    (src : DBOptions) :
  let result := SanitizeOptions os dbname src in
  (allow_2pc src = true -> avoid_flush_during_recovery result = false) /\
  (allow_2pc src = false ->
   avoid_flush_during_recovery result = avoid_flush_during_recovery src) /\
  (use_direct_reads src = true ->
   new_table_reader_for_compaction_inputs result = true /\
   compaction_readahead_size result =
   if bool_decide (compaction_readahead_size src = 0) then 2 * 1024 * 1024
   else compaction_readahead_size src) /\
  (paranoid_checks src = false ->
   skip_checking_sst_file_sizes_on_db_open result = true).
Proof.
  cbv zeta. sanitize_assignments.
  split; [intros ->; reflexivity |].
  split; [intros ->; reflexivity |].
  split.
  - intros ->. cbn [andb]. rewrite orb_true_r. split; [reflexivity |].
    case_bool_decide; reflexivity.
  - intros ->. reflexivity.
Qed.

Lemma SanitizeOptions_forced_settings_witness :
  skip_checking_sst_file_sizes_on_db_open
    (SanitizeOptions 1024 "db" Scenario.relaxed_options) = true.
Proof.
  apply (SanitizeOptions_forced_settings 1024 "db" Scenario.relaxed_options).
  reflexivity.
Defined.

(** X4: sanitizing the options changes nothing the validator looks at:
    the validator gives the sanitized options the verdict it gives the
    options as supplied. *)
Theorem ValidateOptions_SanitizeOptions (os : Z) (dbname : string)
    (src : DBOptions) :
  ValidateOptions (SanitizeOptions os dbname src) = ValidateOptions src.
Proof.
  unfold ValidateOptions. sanitize_assignments.
  destruct (db_paths src) as [|p paths]; [| reflexivity].
  cbn [length]. rewrite !bool_decide_eq_false_2 by lia. reflexivity.
Qed.

(** X5: the validator accepts exactly the options that have at most four
    database paths, a positive number of info logs to keep, and none of
    the five incompatible pairs; what it rejects it rejects with
    NotSupported or InvalidArgument. *)
Theorem ValidateOptions_ok_iff (db_options : DBOptions) :
  (ok (ValidateOptions db_options) = true <->
   (length (db_paths db_options) <= 4)%nat /\
   allow_mmap_reads db_options && use_direct_reads db_options = false /\
   allow_mmap_writes db_options
     && use_direct_io_for_flush_and_compaction db_options = false /\
   keep_log_file_num db_options <> 0 /\
   unordered_write db_options
     && negb (allow_concurrent_memtable_write db_options) = false /\
   unordered_write db_options && enable_pipelined_write db_options = false /\
   atomic_flush db_options && enable_pipelined_write db_options = false) /\
  (ok (ValidateOptions db_options) = false ->
   code (ValidateOptions db_options) = kNotSupported \/
   code (ValidateOptions db_options) = kInvalidArgument).
Proof.
  unfold ValidateOptions.
  repeat match goal with
         | |- context [if ?b then _ else _] =>
             let E := fresh "E" in destruct b eqn:E
         end;
    repeat match goal with
           | E : bool_decide _ = true |- _ => apply bool_decide_eq_true in E
           | E : bool_decide _ = false |- _ => apply bool_decide_eq_false in E
           end;
    (split; [split; [intros Hv | intros (V1 & V2 & V3 & V4 & V5 & V6 & V7)]
            | intros Hv]);
    try (compute in Hv; discriminate Hv);
    try reflexivity;
    try (exfalso; first [lia | congruence]);
    try (repeat split; first [lia | assumption | congruence]);
    try (compute; auto).
Qed.

Lemma ValidateOptions_ok_iff_witness :
  code (ValidateOptions
          (Scenario.with_mmap_and_direct_reads Scenario.default_options))
  = kNotSupported \/
  code (ValidateOptions
          (Scenario.with_mmap_and_direct_reads Scenario.default_options))
  = kInvalidArgument.
Proof.
  apply (ValidateOptions_ok_iff
           (Scenario.with_mmap_and_direct_reads Scenario.default_options)).
  reflexivity.
Defined.

(** ** The start and the end of [Open] *)

Lemma SanitizeOptionsByTable_ok (C : Collab) (db_opts : DBOptions)
    (cfs : list ColumnFamilyDescriptor) :
  ok (SanitizeOptionsByTable C db_opts cfs) = true <->
  Forall (fun cf => ok (TableFactory_SanitizeOptions C db_opts cf) = true)
    cfs.
Proof.
  induction cfs as [|cf cfs IH]; cbn [SanitizeOptionsByTable].
  - split; [constructor | reflexivity].
  - cbv zeta. rewrite Forall_cons.
    destruct (ok (TableFactory_SanitizeOptions C db_opts cf)) eqn:E;
      cbn [negb].
    + rewrite IH. tauto.
    + rewrite E. split; [discriminate | intros [H _]; discriminate H].
Qed.








(** ** Bootstrap and the existence checks of [Recover] *)

Ltac in_list :=
  repeat first [apply list_elem_of_here | apply list_elem_of_further].

Ltac not_in_list H :=
  repeat (apply elem_of_cons in H as [H | H]; [discriminate H |]);
  apply elem_of_nil in H; exact H.

Ltac membership :=
  split;
  [ let Hm := fresh "Hm" in
    intros Hm; first [reflexivity | exfalso; not_in_list Hm]
  | let Hb := fresh "Hb" in
    intros Hb; first [discriminate Hb | in_list] ].

Ltac newdb_calls :=
  split; [membership |]; split; [membership |]; split; [membership |];
  let Hm := fresh "Hm" in
  intros ? ? Hm;
  repeat (apply elem_of_cons in Hm as [Hm | Hm];
          [ first
              [ discriminate Hm
              | injection Hm as -> ->; repeat split; try reflexivity;
                destruct (write_dbid_to_manifest _); reflexivity ] |]);
  apply elem_of_nil in Hm; contradiction.

(** X8: [NewDB] returns OK exactly when writing IDENTITY, creating the
    manifest, writing and syncing its record and publishing CURRENT all
    succeed; the manifest it created is deleted exactly when the record
    could not be written or synced, CURRENT is published only after a
    synced manifest, and the record carries log number 0, next file 2 and
    last sequence 0. *)
Theorem NewDB_calls (C : Collab) (d : DBImpl) :
  let manifest := DescriptorFileName 1 in
  let out := NewDB C d in
  let written :=
    ok (SetIdentityFile C) && ok (NewWritableFile C manifest)
    && ok (AddRecord C manifest) && ok (SyncManifest C) in
  ok out.1 = written && ok (SetCurrentFile C) /\
  exists calls,
    trace out.2 = trace d ++ calls /\
    (EvSetCurrentFile 1 ∈ calls <-> written = true) /\
    (EvDeleteFile manifest ∈ calls <->
     ok (SetIdentityFile C) && ok (NewWritableFile C manifest)
     && negb (ok (AddRecord C manifest) && ok (SyncManifest C)) = true) /\
    (EvNewWritableFile manifest ∈ calls <-> ok (SetIdentityFile C) = true) /\
    (forall f edit, EvAddRecord f edit ∈ calls ->
       f = manifest /\ ve_log_number edit = Some 0 /\
       ve_next_file edit = Some 2 /\ ve_last_sequence edit = Some 0 /\
       ve_db_id edit =
       if write_dbid_to_manifest (immutable_db_options d)
       then Some (GetDbIdentityFromIdentityFile C) else None).
Proof.
  intros manifest out written. unfold out, written, NewDB. fold manifest.
  cbv zeta.
  destruct (ok (SetIdentityFile C)) eqn:E1;
    [destruct (ok (NewWritableFile C manifest)) eqn:E2;
     [destruct (ok (AddRecord C manifest)) eqn:E3;
      [destruct (ok (SyncManifest C)) eqn:E4 |] |] |];
    repeat (cbn [negb andb fst snd]; rewrite ?E1, ?E2, ?E3, ?E4);
    cbn [negb andb fst snd]; (split; [reflexivity |]).
  - eexists [EvSetIdentityFile; EvNewWritableFile manifest;
             EvAddRecord manifest _; EvSyncManifest manifest;
             EvSetCurrentFile 1].
    split; [unfold emit; proj; rewrite <- !app_assoc; reflexivity |].
    newdb_calls.
  - eexists [EvSetIdentityFile; EvNewWritableFile manifest;
             EvAddRecord manifest _; EvSyncManifest manifest;
             EvDeleteFile manifest].
    split; [unfold emit; proj; rewrite <- !app_assoc; reflexivity |].
    newdb_calls.
  - eexists [EvSetIdentityFile; EvNewWritableFile manifest;
             EvAddRecord manifest _; EvDeleteFile manifest].
    split; [unfold emit; proj; rewrite <- !app_assoc; reflexivity |].
    newdb_calls.
  - exists [EvSetIdentityFile; EvNewWritableFile manifest].
    split; [unfold emit; proj; rewrite <- !app_assoc; reflexivity |].
    newdb_calls.
  - exists [EvSetIdentityFile].
    split; [reflexivity |]. newdb_calls.
Qed.

Lemma NewDB_calls_witness :
  EvDeleteFile (DescriptorFileName 1)
  ∈ trace (NewDB Scenario.add_record_fails
             (Scenario.recovering [Scenario.default_cfd 0])).2.
Proof.
  destruct (NewDB_calls Scenario.add_record_fails
              (Scenario.recovering [Scenario.default_cfd 0]))
    as (_ & calls & Htrace & _ & Hdel & _).
  rewrite Htrace. apply elem_of_app. right. apply Hdel.
  vm_compute. reflexivity.
Defined.

(** ** The checks of [Open] on the column families *)

(** X9: the loop of [Open] over the column families ends OK exactly when
    no family has FIFO compaction with files above level 0 and none has a
    merge operator that its memtable does not support; a failure is an
    InvalidArgument.  The loop makes no call, and when it ends OK the
    database supports snapshots iff it did before and every family does. *)
Theorem check_column_families_ok_iff (cfds : list ColumnFamilyData)
    (d : DBImpl) :
  let fifo_above_level_0 cfd :=
    compaction_style_fifo cfd
    && existsb (fun num_files => bool_decide (num_files > 0))
         (List.tl (NumLevelFiles cfd)) in
  let merge_unsupported cfd :=
    merge_operator cfd && negb (IsMergeOperatorSupported cfd) in
  let out := check_column_families cfds d in
  ok out.1 =
  forallb (fun cfd => negb (fifo_above_level_0 cfd)
                      && negb (merge_unsupported cfd)) cfds /\
  (ok out.1 = false -> code out.1 = kInvalidArgument) /\
  (ok out.1 = true ->
   is_snapshot_supported out.2 =
   is_snapshot_supported d && forallb IsSnapshotSupported cfds) /\
  trace out.2 = trace d.
Proof.
  cbv zeta. revert d.
  induction cfds as [|cfd cfds IH]; intros d; cbn [check_column_families].
  - cbn [forallb fst snd]. rewrite andb_true_r.
    split; [reflexivity |]. split; [discriminate |].
    split; [reflexivity | reflexivity].
  - cbv zeta. cbn [forallb].
    set (d1 := if negb (IsSnapshotSupported cfd)
               then set_is_snapshot_supported false d else d).
    assert (Hd1 : is_snapshot_supported d1 =
                  is_snapshot_supported d && IsSnapshotSupported cfd
                  /\ trace d1 = trace d).
    { unfold d1. destruct (IsSnapshotSupported cfd); cbn [negb]; proj;
        rewrite ?andb_true_r, ?andb_false_r; split; reflexivity. }
    destruct Hd1 as [Hs1 Ht1].
    assert (Hinv : forall m, ok (St.InvalidArgument m) = false)
      by reflexivity.
    assert (HOK : ok St.OK = true) by reflexivity.
    destruct (merge_operator cfd && negb (IsMergeOperatorSupported cfd)).
    + rewrite !Hinv. cbn [code St.InvalidArgument negb fst snd].
      rewrite andb_false_r. cbn [andb].
      split; [reflexivity |]. split; [reflexivity |].
      split; [discriminate | exact Ht1].
    + destruct (compaction_style_fifo cfd && existsb _ _).
      * rewrite !Hinv. cbn [code St.InvalidArgument negb fst snd andb].
        split; [reflexivity |]. split; [reflexivity |].
        split; [discriminate | exact Ht1].
      * rewrite HOK. cbn [negb andb].
        destruct (IH d1) as (Hok & Hcode & Hsnap & Htrace).
        split; [exact Hok |]. split; [exact Hcode |].
        split; [| rewrite Htrace; exact Ht1].
        intros H. rewrite (Hsnap H), Hs1, andb_assoc. reflexivity.
Qed.

Lemma check_column_families_ok_iff_witness :
  let cfds := [Scenario.default_cfd 0; Scenario.written_cfd] in
  let d := Scenario.recovering cfds in
  is_snapshot_supported (check_column_families cfds d).2 = true.
Proof.
  cbv zeta.
  destruct (check_column_families_ok_iff
              [Scenario.default_cfd 0; Scenario.written_cfd]
              (Scenario.recovering
                 [Scenario.default_cfd 0; Scenario.written_cfd]))
    as (_ & _ & Hsnap & _).
  rewrite Hsnap; vm_compute; reflexivity.
Defined.

(** ** The WALs kept alive after a recovery without flush *)

Lemma wrap64_add_l (a b : Z) : wrap64 (wrap64 a + b) = wrap64 (a + b).
Proof. unfold wrap64. apply Zplus_mod_idemp_l. Qed.

Lemma RestoreAliveLogFiles_loop_status (C : Collab) (back : Z)
    (log_numbers : list Z) (d : DBImpl) :
  ok (RestoreAliveLogFiles_loop C back log_numbers d).1 =
  forallb (fun n => ok (GetFileSize C n).1) log_numbers.
Proof.
  revert d. induction log_numbers as [|n l IH]; intros d;
    cbn [RestoreAliveLogFiles_loop forallb]; [reflexivity |].
  cbv zeta. destruct (ok (GetFileSize C n).1) eqn:Hn; cbn [negb andb fst].
  - destruct l as [|m l]; [exact Hn |]. apply IH.
  - exact Hn.
Qed.

Lemma RestoreAliveLogFiles_loop_ok (C : Collab) (back : Z)
    (log_numbers : list Z) (d : DBImpl) :
  forallb (fun n => ok (GetFileSize C n).1) log_numbers = true ->
  let out := RestoreAliveLogFiles_loop C back log_numbers d in
  alive_log_files out.2 =
  alive_log_files d
  ++ List.map (fun n => mkLogFileNumberSize n (GetFileSize C n).2)
       log_numbers /\
  total_log_size out.2 =
  match log_numbers with
  | [] => total_log_size d
  | _ =>
      wrap64 (total_log_size d
              + foldr (fun n acc => (GetFileSize C n).2 + acc) 0 log_numbers)
  end /\
  trace out.2 =
  trace d
  ++ List.map (fun n => EvTruncate n (GetFileSize C n).2)
       (List.filter (fun n => bool_decide (n = back)) log_numbers).
Proof.
  cbv zeta. revert d. induction log_numbers as [|n l IH]; intros d Hall;
    cbn [RestoreAliveLogFiles_loop].
  - cbn [List.map List.filter snd]. rewrite !app_nil_r. auto.
  - cbn [forallb] in Hall. apply andb_prop in Hall as [Hn Hl].
    cbv zeta. rewrite Hn. cbn [negb].
    set (d1 := if bool_decide (n = back) then _ else _).
    assert (H1 : alive_log_files d1 =
                 alive_log_files d
                 ++ [mkLogFileNumberSize n (GetFileSize C n).2] /\
                 total_log_size d1 =
                 wrap64 (total_log_size d + (GetFileSize C n).2) /\
                 trace d1 =
                 trace d
                 ++ List.map (fun n => EvTruncate n (GetFileSize C n).2)
                      (List.filter (fun n => bool_decide (n = back)) [n])).
    { unfold d1. cbn [List.filter]. destruct (bool_decide (n = back));
        unfold emit; proj; cbn [List.map]; rewrite ?app_nil_r; auto. }
    destruct H1 as (Ha1 & Ht1 & Hc1).
    destruct l as [|m l].
    + cbn [snd foldr List.map]. rewrite Z.add_0_r. auto.
    + destruct (IH d1 Hl) as (Ha & Ht & Hc).
      rewrite Ha, Ht, Hc, Ha1, Ht1, Hc1.
      split; [rewrite <- app_assoc; reflexivity |]. split.
      * rewrite wrap64_add_l. f_equal.
        change (foldr _ 0 (n :: m :: l)) with
          ((GetFileSize C n).2
           + foldr (fun n acc => (GetFileSize C n).2 + acc) 0 (m :: l)).
        lia.
      * rewrite <- app_assoc, <- map_app. f_equal.
        cbn [List.filter]. destruct (bool_decide (n = back));
          reflexivity.
Qed.

Lemma last_elem_of (m : Z) (l : list Z) :
  List.last (m :: l) 0 ∈ m :: l.
Proof.
  revert m. induction l as [|k l IH]; intros m.
  - apply list_elem_of_here.
  - apply list_elem_of_further. apply IH.
Qed.

Lemma filter_last_NoDup (l : list Z) :
  l <> [] -> NoDup l ->
  List.filter (fun n => bool_decide (n = List.last l 0)) l = [List.last l 0].
Proof.
  induction l as [|n l IH]; intros Hne Hnd; [congruence |].
  apply NoDup_cons in Hnd as [Hn Hnd].
  destruct l as [|m l].
  - cbn [List.filter List.last]. rewrite bool_decide_eq_true_2 by reflexivity.
    reflexivity.
  - change (List.last (n :: m :: l) 0) with (List.last (m :: l) 0).
    cbn [List.filter]. fold (List.filter
      (fun n => bool_decide (n = List.last (m :: l) 0)) (m :: l)).
    rewrite bool_decide_eq_false_2.
    + apply IH; [discriminate | exact Hnd].
    + intros ->. apply Hn.
      apply last_elem_of.
Qed.

(** X10: [RestoreAliveLogFiles] returns OK exactly when the size of every
    WAL can be read.  It then adds every WAL, with its size, to the alive
    log files in the order given, sets the total log size to the sum of
    the sizes (modulo 2^64), and truncates the last WAL, and only that
    one, to its size. *)
Theorem RestoreAliveLogFiles_ok (C : Collab) (log_numbers : list Z)
    (d : DBImpl) :
  let out := RestoreAliveLogFiles C log_numbers d in
  let size n := (GetFileSize C n).2 in
  let last := List.last log_numbers 0 in
  ok out.1 = forallb (fun n => ok (GetFileSize C n).1) log_numbers /\
  (ok out.1 = true -> log_numbers <> [] -> NoDup log_numbers ->
   alive_log_files out.2 =
   alive_log_files d
   ++ List.map (fun n => mkLogFileNumberSize n (size n)) log_numbers /\
   total_log_size out.2 =
   wrap64 (foldr (fun n acc => size n + acc) 0 log_numbers) /\
   trace out.2 = trace d ++ [EvTruncate last (size last)]).
Proof.
  cbv zeta. unfold RestoreAliveLogFiles.
  destruct log_numbers as [|n l]; [split; [reflexivity | congruence] |].
  cbv zeta. rewrite RestoreAliveLogFiles_loop_status.
  split; [reflexivity |]. intros Hall Hne Hnd.
  destruct (RestoreAliveLogFiles_loop_ok C (List.last (n :: l) 0) (n :: l)
              (set_total_log_size 0 d) Hall) as (Ha & Ht & Hc).
  rewrite Ha, Ht, Hc. proj.
  rewrite (filter_last_NoDup (n :: l) Hne Hnd). cbn [List.map].
  rewrite Z.add_0_l. auto.
Qed.

Lemma RestoreAliveLogFiles_ok_witness :
  let d := Scenario.recovering [Scenario.written_cfd] in
  trace (RestoreAliveLogFiles Scenario.three_wals [1; 2; 3] d).2 =
  trace d ++ [EvTruncate 3 0].
Proof.
  cbv zeta.
  destruct (RestoreAliveLogFiles_ok Scenario.three_wals [1; 2; 3]
              (Scenario.recovering [Scenario.written_cfd]))
    as (_ & H).
  destruct H as (_ & _ & Htrace).
  - vm_compute. reflexivity.
  - discriminate.
  - repeat (apply NoDup_cons; split;
            [intros Hin;
             repeat (apply elem_of_cons in Hin as [Hin | Hin];
                     [discriminate Hin |]);
             apply elem_of_nil in Hin; exact Hin |]).
    apply NoDup_nil. exact I.
  - rewrite Htrace. reflexivity.
Defined.

(** ** A WAL filter that stops the replay *)

Lemma replay_log_stopped (C : Collab) (opts : DBOptions) (read_only : bool)
    (min_log_number log_number : Z) (r : Replay) :
  stop_replay_by_wal_filter r = true ->
  replay_log C opts read_only min_log_number log_number r =
  Continue (if bool_decide (log_number < min_log_number) then r
            else marked log_number r).
Proof.
  intros Hstop. unfold replay_log. cbv zeta.
  case_bool_decide; [reflexivity |].
  proj. rewrite Hstop. reflexivity.
Qed.

(** X11: once the WAL filter has asked to stop the replay, the loop over
    the remaining WALs reads none of them: it goes through all of them,
    calls [MarkFileNumberUsed] on those at or above the minimum log number
    to keep and makes no other call.  The status, the sequence cursor, the
    memtables and the last sequence stay as they were. *)
Theorem replay_logs_stopped_by_wal_filter (C : Collab) (opts : DBOptions)
    (read_only : bool) (min_log_number : Z) (log_numbers : list Z)
    (r : Replay) :
  stop_replay_by_wal_filter r = true ->
  exists d',
    replay_logs C opts read_only min_log_number log_numbers r =
    Continue (set_impl d' r) /\
    trace d' =
    trace (impl r)
    ++ List.map EvMarkFileNumberUsed
         (List.filter (fun n => negb (bool_decide (n < min_log_number)))
            log_numbers) /\
    column_family_set (versions d') = column_family_set (versions (impl r)) /\
    LastSequence (versions d') = LastSequence (versions (impl r)) /\
    forall n, n ∈ log_numbers -> min_log_number <= n ->
              n < next_file_number (versions d').
Proof.
  revert r. induction log_numbers as [|n l IH]; intros r Hstop.
  - exists (impl r). cbn [replay_logs List.filter List.map].
    rewrite app_nil_r. destruct r.
    repeat split. intros n Hn. apply elem_of_nil in Hn. contradiction.
  - cbn [replay_logs]. rewrite replay_log_stopped by exact Hstop.
    cbn [List.filter]. case_bool_decide as Hlt; cbn [negb].
    + destruct (IH r Hstop) as (d' & Heq & Htr & Hcf & Hls & Hnf).
      exists d'. repeat split; try assumption.
      intros k Hk Hmin. apply elem_of_cons in Hk as [-> | Hk]; [lia |].
      apply Hnf; assumption.
    + destruct (IH (marked n r)) as (d' & Heq & Htr & Hcf & Hls & Hnf);
        [exact Hstop |].
      exists d'. rewrite Heq. unfold marked in *. proj.
      rewrite MarkFileNumberUsed_column_family_set in Hcf.
      rewrite MarkFileNumberUsed_LastSequence in Hls.
      unfold emit in *. proj.
      split; [reflexivity |].
      split; [rewrite Htr, <- app_assoc; reflexivity |].
      split; [exact Hcf |]. split; [exact Hls |].
      intros k Hk Hmin. apply elem_of_cons in Hk as [-> | Hk];
        [| apply Hnf; assumption].
      pose proof (extends_replay_logs C opts read_only min_log_number l
                    (set_impl
                       (set_versions
                          (MarkFileNumberUsed n (versions (impl r)))
                          (set_trace (trace (impl r)
                                      ++ [EvMarkFileNumberUsed n])
                             (impl r))) r)) as Hext.
      unfold marked, emit in Heq. proj. rewrite Heq in Hext. proj.
      destruct Hext as (_ & Hnum & _). proj.
      rewrite MarkFileNumberUsed_next_file_number in Hnum. lia.
Qed.

Lemma replay_logs_stopped_by_wal_filter_witness :
  let r := set_stop_replay_by_wal_filter true
             (Scenario.start_replay
                (Scenario.recovering [Scenario.default_cfd 0])) in
  exists d',
    replay_logs Scenario.three_wals Scenario.default_options false 2
      [1; 2; 3] r = Continue (set_impl d' r) /\
    trace d' = [EvMarkFileNumberUsed 2; EvMarkFileNumberUsed 3].
Proof.
  cbv zeta.
  destruct (replay_logs_stopped_by_wal_filter Scenario.three_wals
              Scenario.default_options false 2 [1; 2; 3]
              (set_stop_replay_by_wal_filter true
                 (Scenario.start_replay
                    (Scenario.recovering [Scenario.default_cfd 0])))
              eq_refl) as (d' & Heq & Htr & _).
  exists d'. split; [exact Heq | exact Htr].
Defined.

(** ** Invariants of the replay

    The replay changes the database object in five ways: it marks a WAL
    number as used, inserts a batch, moves the last sequence forward and,
    unless the open is read-only, builds a table and takes a new memtable.
    A relation that is a preorder and holds across each of them holds
    across the whole loop over the WALs. *)
Section ReplayInvariant.

Context (C : Collab) (read_only : bool).
Variable R : DBImpl -> DBImpl -> Prop.
Hypothesis R_refl : forall d, R d d.
Hypothesis R_trans : forall d1 d2 d3, R d1 d2 -> R d2 d3 -> R d1 d3.
Hypothesis R_mark : forall n d,
  R d (set_versions
         (MarkFileNumberUsed n (versions (emit (EvMarkFileNumberUsed n) d)))
         (emit (EvMarkFileNumberUsed n) d)).
Hypothesis R_insert : forall n batch cfs d,
  R d (set_versions
         (set_column_family_set cfs
            (versions (emit (EvInsertInto n batch) d)))
         (emit (EvInsertInto n batch) d)).
Hypothesis R_last_sequence : forall seq d,
  LastSequence (versions d) <= seq ->
  R d (set_versions (set_LastSequence seq (versions d)) d).
Hypothesis R_flush : read_only = false -> forall cfd edit d,
  R d (WriteLevel0TableForRecovery C cfd edit d).2.
Hypothesis R_memtable : read_only = false -> forall id f d,
  R d (update_cfd id f d).

Lemma invariant_flush_scheduled (scheduled : list Z) (r : Replay) :
  read_only = false ->
  R (impl r) (impl (state_of (flush_scheduled C scheduled r))).
Proof.
  intros Hrw. revert r.
  induction scheduled as [|id scheduled IH]; intros r; cbn [flush_scheduled].
  - proj. apply R_refl.
  - destruct (GetColumnFamily _ _) as [cfd|]; [| apply IH].
    cbv zeta. proj.
    pose proof (R_flush Hrw cfd (find_edit id (version_edits r)) (impl r))
      as Hw.
    destruct (negb (ok _)).
    + proj. exact Hw.
    + eapply R_trans; [| apply IH]. proj.
      eapply R_trans; [exact Hw | apply (R_memtable Hrw)].
Qed.

Lemma invariant_insert_record (log_number : Z) (reporter : LogReporter)
    (rec : Slice) (batch : WriteBatch) (r : Replay) :
  R (impl r)
    (impl (state_of (insert_record C read_only log_number reporter rec batch
                       r))).
Proof.
  unfold insert_record. cbv zeta. proj.
  set (d1 := set_versions _ (emit _ (impl r))).
  assert (H1 : R (impl r) d1) by apply R_insert.
  destruct (negb (ok _)).
  - proj. rewrite LogReporter_Corruption_impl. proj. exact H1.
  - destruct (_ && negb read_only) eqn:Hrw; proj; [| exact H1].
    apply andb_prop in Hrw as [_ Hrw]. apply negb_true_iff in Hrw.
    eapply R_trans; [exact H1 |].
    eapply R_trans; [| apply invariant_flush_scheduled; exact Hrw].
    proj. apply R_refl.
Qed.

Lemma invariant_process_record (log_number : Z) (reporter : LogReporter)
    (rec : Slice) (batch : WriteBatch) (r : Replay) :
  R (impl r)
    (impl (state_of (process_record C read_only log_number reporter rec
                       batch r))).
Proof.
  unfold process_record. cbv zeta.
  destruct (wal_filter C) as [filter|].
  - pose proof (filter_record_impl C filter log_number reporter rec batch r)
      as Hf.
    destruct (filter_record C filter log_number reporter rec batch r)
      as [[batch' r']|c].
    + rewrite <- Hf. apply invariant_insert_record.
    + rewrite Hf. apply R_refl.
  - apply invariant_insert_record.
Qed.

Lemma invariant_replay_record (opts : DBOptions) (log_number : Z)
    (reporter : LogReporter) (rec : Slice) (r : Replay) :
  R (impl r)
    (impl (state_of (replay_record C opts read_only log_number reporter rec
                       r))).
Proof.
  unfold replay_record. cbv zeta.
  case_bool_decide.
  - proj. rewrite LogReporter_Corruption_impl. apply R_refl.
  - destruct (_ && _).
    + proj. rewrite resume_if_consecutive_impl. apply R_refl.
    + rewrite <- (resume_if_consecutive_impl opts
                    (Sequence (contents rec)) r) at 1.
      apply invariant_process_record.
Qed.

Lemma invariant_read_loop (opts : DBOptions) (log_number : Z)
    (reporter : LogReporter) (reads : list ReadRecord) (r : Replay) :
  R (impl r)
    (impl (state_of (read_loop C opts read_only log_number reporter reads
                       r))).
Proof.
  revert r. induction reads as [|rd reads IH]; intros r; cbn [read_loop].
  - destruct (stop_replay_by_wal_filter r); apply R_refl.
  - destruct (stop_replay_by_wal_filter r); [apply R_refl |].
    rewrite <- (deliver_impl reporter (reported rd) r) at 1.
    destruct (record rd) as [rec|]; [| apply R_refl].
    destruct (negb (ok _)); [apply R_refl |].
    pose proof (invariant_replay_record opts log_number reporter rec
                  (deliver reporter (reported rd) r)) as Hr.
    destruct (replay_record C opts read_only log_number reporter rec
                (deliver reporter (reported rd) r)) as [r'|r'|s r'];
      proj; [| exact Hr | exact Hr].
    eapply R_trans; [exact Hr | apply IH].
Qed.

Lemma invariant_after_read_loop (opts : DBOptions) (log_number : Z)
    (r : Replay) :
  R (impl r) (impl (state_of (after_read_loop opts log_number r))).
Proof.
  unfold after_read_loop. cbv zeta.
  repeat (case_match; proj; simplify_eq; try apply R_refl);
    apply R_last_sequence; proj;
    match goal with
    | H : _ && bool_decide _ = true |- _ =>
        apply andb_prop in H as [_ H]; apply bool_decide_eq_true_1 in H;
        proj; exact H
    end.
Qed.

Lemma invariant_replay_log (opts : DBOptions) (min_log_number log_number : Z)
    (r : Replay) :
  R (impl r)
    (impl (state_of (replay_log C opts read_only min_log_number log_number
                       r))).
Proof.
  unfold replay_log. cbv zeta.
  case_bool_decide; [apply R_refl |].
  set (r1 := set_impl _ r).
  assert (H1 : R (impl r) (impl r1)).
  { unfold r1. proj. apply R_mark. }
  destruct (stop_replay_by_wal_filter r1); [exact H1 |].
  destruct (negb (ok (status (set_status _ r1)))).
  { destruct (negb (ok _)); proj; exact H1. }
  pose proof (invariant_read_loop opts log_number (new_LogReporter opts)
                (ReadRecords C log_number (wal_recovery_mode opts))
                (set_status (NewSequentialFile C log_number) r1)) as Hl.
  proj.
  destruct (read_loop _ _ _ _ _ _ _) as [r'|r'|s r']; proj.
  - eapply R_trans; [exact H1 |].
    eapply R_trans; [exact Hl | apply invariant_after_read_loop].
  - eapply R_trans; [exact H1 | exact Hl].
  - eapply R_trans; [exact H1 | exact Hl].
Qed.

Lemma invariant_replay_logs (opts : DBOptions) (min_log_number : Z)
    (log_numbers : list Z) (r : Replay) :
  R (impl r)
    (impl (state_of (replay_logs C opts read_only min_log_number log_numbers
                       r))).
Proof.
  revert r. induction log_numbers as [|n log_numbers IH]; intros r;
    cbn [replay_logs]; [apply R_refl |].
  pose proof (invariant_replay_log opts min_log_number n r) as Hl.
  destruct (replay_log C opts read_only min_log_number n r) as [r'|r'|s r'];
    proj; [| exact Hl | exact Hl].
  eapply R_trans; [exact Hl | apply IH].
Qed.

End ReplayInvariant.

(** ** A read-only recovery *)

Lemma only_calls_none (allowed : Event -> Prop) (d d' : DBImpl) :
  trace d' = trace d -> only_calls allowed d d'.
Proof.
  intros H. exists []. rewrite app_nil_r. split; [exact H | constructor].
Qed.

Lemma only_calls_refl (allowed : Event -> Prop) (d : DBImpl) :
  only_calls allowed d d.
Proof. apply only_calls_none. reflexivity. Qed.

Lemma only_calls_trans (allowed : Event -> Prop) (d1 d2 d3 : DBImpl) :
  only_calls allowed d1 d2 -> only_calls allowed d2 d3 ->
  only_calls allowed d1 d3.
Proof.
  intros (c1 & E1 & F1) (c2 & E2 & F2). exists (c1 ++ c2).
  rewrite E2, E1, app_assoc. split; [reflexivity |].
  apply Forall_app. split; assumption.
Qed.

Lemma only_calls_one (allowed : Event -> Prop) (ev : Event) (d d' : DBImpl) :
  allowed ev -> trace d' = trace d ++ [ev] -> only_calls allowed d d'.
Proof.
  intros Hev Heq. exists [ev]. split; [exact Heq |].
  constructor; [exact Hev | constructor].
Qed.

(** X12: a read-only recovery of the WALs makes no call but
    [MarkFileNumberUsed] and [InsertInto]: whatever the WALs hold and
    however the replay ends, it builds no table, writes nothing to the
    manifest and truncates no WAL, and it leaves the list of alive WALs
    alone. *)
Theorem read_only_recovery_only_replays (C : Collab) (log_numbers : list Z)
    (next_sequence0 : Z) (d : DBImpl) :
  let out := RecoverLogFiles C log_numbers next_sequence0 true d in
  only_calls replay_call d (impl out.2) /\
  alive_log_files (impl out.2) = alive_log_files d.
Proof.
  cbv zeta. unfold RecoverLogFiles. cbv zeta.
  set (r0 := mkReplay _ _ _ _ _ _ _ _ _ d).
  set (opts := immutable_db_options d).
  set (min_log_number := MinLogNumberToKeep C (versions d)).
  pose proof (invariant_replay_logs C true
                (fun d d' => only_calls replay_call d d' /\
                             alive_log_files d' = alive_log_files d))
    as Hinv.
  specialize (Hinv ltac:(intros; split; [apply only_calls_refl | reflexivity])).
  specialize (Hinv ltac:(intros d1 d2 d3 [H1 E1] [H2 E2]; split;
    [eapply only_calls_trans; eassumption | congruence])).
  specialize (Hinv ltac:(intros n d0; split;
    [eapply (only_calls_one _ (EvMarkFileNumberUsed n));
       [exact I | reflexivity] | reflexivity])).
  specialize (Hinv ltac:(intros n batch cfs d0; split;
    [eapply (only_calls_one _ (EvInsertInto n batch));
       [exact I | reflexivity] | reflexivity])).
  specialize (Hinv ltac:(intros seq d0 _; split;
    [apply only_calls_none; reflexivity | reflexivity])).
  specialize (Hinv ltac:(discriminate) ltac:(discriminate)).
  specialize (Hinv opts min_log_number log_numbers r0).
  change (impl r0) with d in Hinv.
  destruct (replay_logs C opts true min_log_number log_numbers r0)
    as [r|r|s r]; proj; try exact Hinv.
  unfold RecoverLogFiles_finish.
  destruct (cross_check opts r); proj; [exact Hinv |].
  cbv zeta. cbn [negb fst snd]. rewrite andb_false_r. cbn [andb snd].
  exact Hinv.
Qed.

(** ** The last sequence *)

Lemma WriteLevel0TableForRecovery_LastSequence (C : Collab)
    (cfd : ColumnFamilyData) (edit : VersionEdit) (d : DBImpl) :
  LastSequence (versions (WriteLevel0TableForRecovery C cfd edit d).2) =
  LastSequence (versions d).
Proof. reflexivity. Qed.

(** X13: the replay of the WALs never moves the last sequence of the
    version set backwards, in any recovery mode and however the replay
    ends. *)
Theorem replay_keeps_last_sequence (C : Collab) (opts : DBOptions)
    (read_only : bool) (min_log_number : Z) (log_numbers : list Z)
    (r : Replay) :
  LastSequence (versions (impl r)) <=
  LastSequence
    (versions
       (impl (state_of (replay_logs C opts read_only min_log_number
                          log_numbers r)))).
Proof.
  apply (invariant_replay_logs C read_only
           (fun d d' => LastSequence (versions d)
                        <= LastSequence (versions d'))).
  - intros d. lia.
  - intros d1 d2 d3 H1 H2. lia.
  - intros n d. proj. rewrite MarkFileNumberUsed_LastSequence.
    unfold emit. proj. lia.
  - intros n batch cfs d. unfold emit. proj. lia.
  - intros seq d H. proj. exact H.
  - intros _ cfd edit d. rewrite WriteLevel0TableForRecovery_LastSequence.
    lia.
  - intros _ id f d. unfold update_cfd. proj. lia.
Qed.

(** ** Outside point-in-time recovery *)

Lemma flags_LogReporter_Corruption (reporter : LogReporter) (bytes : Z)
    (s : Status) (r : Replay) :
  corruption_flags (LogReporter_Corruption reporter bytes s r) =
  corruption_flags r.
Proof. unfold LogReporter_Corruption. repeat case_match; reflexivity. Qed.

Lemma flags_deliver (reporter : LogReporter) (reports : list (Z * Status))
    (r : Replay) :
  corruption_flags (deliver reporter reports r) = corruption_flags r.
Proof.
  revert r. induction reports as [|rep reports IH]; intros r;
    [reflexivity |].
  cbn [deliver fold_left]. unfold deliver in IH. rewrite IH.
  apply flags_LogReporter_Corruption.
Qed.

Lemma flags_flush_scheduled (C : Collab) (scheduled : list Z) (r : Replay) :
  corruption_flags (state_of (flush_scheduled C scheduled r)) =
  corruption_flags r.
Proof.
  revert r. induction scheduled as [|id scheduled IH]; intros r;
    cbn [flush_scheduled]; [reflexivity |].
  destruct (GetColumnFamily _ _) as [cfd|]; [| apply IH].
  cbv zeta. proj.
  destruct (negb (ok _)); [reflexivity |].
  rewrite IH. reflexivity.
Qed.

Lemma flags_filter_record (C : Collab) (filter : WalFilter) (log_number : Z)
    (reporter : LogReporter) (rec : Slice) (batch : WriteBatch) (r : Replay) :
  match filter_record C filter log_number reporter rec batch r with
  | inl (_, r') => corruption_flags r' = corruption_flags r
  | inr c => corruption_flags (state_of c) = corruption_flags r
  end.
Proof.
  unfold filter_record. cbv zeta.
  destruct (LogRecordFound filter log_number batch) as [[option new_batch]
    batch_changed].
  cbn [fst snd].
  destruct option; proj; try reflexivity.
  - destruct batch_changed; [case_bool_decide |]; reflexivity.
  - destruct (negb (ok _)).
    + proj. rewrite flags_LogReporter_Corruption. reflexivity.
    + destruct batch_changed; [case_bool_decide |]; reflexivity.
  - destruct (negb (ok _)); reflexivity.
Qed.

Lemma flags_insert_record (C : Collab) (read_only : bool) (log_number : Z)
    (reporter : LogReporter) (rec : Slice) (batch : WriteBatch) (r : Replay) :
  corruption_flags
    (state_of (insert_record C read_only log_number reporter rec batch r)) =
  corruption_flags r.
Proof.
  unfold insert_record. cbv zeta. proj.
  destruct (negb (ok _)).
  - proj. rewrite flags_LogReporter_Corruption. reflexivity.
  - destruct (_ && _); proj; [| reflexivity].
    rewrite flags_flush_scheduled. reflexivity.
Qed.

Lemma flags_process_record (C : Collab) (read_only : bool) (log_number : Z)
    (reporter : LogReporter) (rec : Slice) (batch : WriteBatch) (r : Replay) :
  corruption_flags
    (state_of (process_record C read_only log_number reporter rec batch r)) =
  corruption_flags r.
Proof.
  unfold process_record. cbv zeta.
  destruct (wal_filter C) as [filter|]; [| apply flags_insert_record].
  pose proof (flags_filter_record C filter log_number reporter rec batch r)
    as Hf.
  destruct (filter_record C filter log_number reporter rec batch r)
    as [[batch' r']|c]; [| exact Hf].
  rewrite <- Hf. apply flags_insert_record.
Qed.

Section NotPointInTime.

Context (C : Collab) (opts : DBOptions).
Hypothesis Hmode : wal_recovery_mode opts <> kPointInTimeRecovery.

Lemma flags_replay_record (read_only : bool) (log_number : Z)
    (reporter : LogReporter) (rec : Slice) (r : Replay) :
  corruption_flags
    (state_of (replay_record C opts read_only log_number reporter rec r)) =
  corruption_flags r.
Proof.
  unfold replay_record, resume_if_consecutive. cbv zeta.
  rewrite (bool_decide_eq_false_2 _ Hmode). cbn [andb].
  case_bool_decide.
  - proj. apply flags_LogReporter_Corruption.
  - apply flags_process_record.
Qed.

Lemma flags_read_loop (read_only : bool) (log_number : Z)
    (reporter : LogReporter) (reads : list ReadRecord) (r : Replay) :
  corruption_flags
    (state_of (read_loop C opts read_only log_number reporter reads r)) =
  corruption_flags r.
Proof.
  revert r. induction reads as [|rd reads IH]; intros r; cbn [read_loop].
  - destruct (stop_replay_by_wal_filter r); reflexivity.
  - destruct (stop_replay_by_wal_filter r); [reflexivity |].
    rewrite <- (flags_deliver reporter (reported rd) r).
    destruct (record rd) as [rec|]; [| reflexivity].
    destruct (negb (ok _)); [reflexivity |].
    pose proof (flags_replay_record read_only log_number reporter rec
                  (deliver reporter (reported rd) r)) as Hr.
    destruct (replay_record C opts read_only log_number reporter rec
                (deliver reporter (reported rd) r)) as [r'|r'|s r'];
      proj; [| exact Hr | exact Hr].
    rewrite IH. exact Hr.
Qed.

Lemma flags_after_read_loop (log_number : Z) (r : Replay) :
  corruption_flags (state_of (after_read_loop opts log_number r)) =
  corruption_flags r.
Proof.
  unfold after_read_loop. cbv zeta.
  rewrite (bool_decide_eq_false_2 _ Hmode).
  repeat (case_match; proj; simplify_eq; try reflexivity).
Qed.

Lemma flags_replay_log (read_only : bool) (min_log_number log_number : Z)
    (r : Replay) :
  corruption_flags
    (state_of (replay_log C opts read_only min_log_number log_number r)) =
  corruption_flags r.
Proof.
  unfold replay_log. cbv zeta.
  case_bool_decide; [reflexivity |].
  set (r1 := set_impl _ r).
  destruct (stop_replay_by_wal_filter r1); [reflexivity |].
  destruct (negb (ok (status (set_status _ r1)))).
  { destruct (negb (ok _)); reflexivity. }
  pose proof (flags_read_loop read_only log_number (new_LogReporter opts)
                (ReadRecords C log_number (wal_recovery_mode opts))
                (set_status (NewSequentialFile C log_number) r1)) as Hl.
  destruct (read_loop _ _ _ _ _ _ _) as [r'|r'|s r']; proj;
    [| exact Hl | exact Hl].
  rewrite flags_after_read_loop. exact Hl.
Qed.

Lemma flags_replay_logs (read_only : bool) (min_log_number : Z)
    (log_numbers : list Z) (r : Replay) :
  corruption_flags
    (state_of (replay_logs C opts read_only min_log_number log_numbers r)) =
  corruption_flags r.
Proof.
  revert r. induction log_numbers as [|n log_numbers IH]; intros r;
    cbn [replay_logs]; [reflexivity |].
  pose proof (flags_replay_log read_only min_log_number n r) as Hl.
  destruct (replay_log C opts read_only min_log_number n r) as [r'|r'|s r'];
    proj; [| exact Hl | exact Hl].
  rewrite IH. exact Hl.
Qed.

End NotPointInTime.

Lemma flags_finalize_column_families (C : Collab) (opts : DBOptions)
    (max_log_number : Z) (cfds : list ColumnFamilyData) (data_seen : bool)
    (r : Replay) :
  corruption_flags
    (finalize_column_families C opts max_log_number cfds data_seen r).2 =
  corruption_flags r.
Proof.
  revert data_seen r. induction cfds as [|cfd cfds IH]; intros data_seen r;
    cbn [finalize_column_families]; [reflexivity |].
  cbv zeta. case_bool_decide; [apply IH |].
  destruct (bool_decide (first_seqno (mem cfd) <> 0)
            && (flushed r || negb (avoid_flush_during_recovery opts)));
    cbn [andb negb].
  - destruct (negb (ok _)); [reflexivity |].
    rewrite IH. destruct (_ || _); reflexivity.
  - rewrite IH. destruct (_ || _); reflexivity.
Qed.

Lemma flags_RecoverLogFiles_finish (C : Collab) (opts : DBOptions)
    (read_only : bool) (log_numbers : list Z) (r : Replay) :
  corruption_flags (RecoverLogFiles_finish C opts read_only log_numbers r).2 =
  corruption_flags r.
Proof.
  unfold RecoverLogFiles_finish.
  destruct (cross_check opts r); [reflexivity |].
  cbv zeta. destruct read_only; cbn [negb fst snd].
  - destruct (_ && _ && _); reflexivity.
  - pose proof (flags_finalize_column_families C opts
                  (List.last log_numbers 0)
                  (column_family_set (versions (impl r))) false r) as Hf.
    set (fin := finalize_column_families C opts (List.last log_numbers 0)
                  (column_family_set (versions (impl r))) false r) in *.
    destruct (ok (status fin.2)); cbn [fst snd];
      destruct (_ && _ && _); proj; exact Hf.
Qed.

Lemma flags_RecoverLogFiles (C : Collab) (log_numbers : list Z)
    (next_sequence0 : Z) (read_only : bool) (d : DBImpl) :
  wal_recovery_mode (immutable_db_options d) <> kPointInTimeRecovery ->
  corruption_flags
    (RecoverLogFiles C log_numbers next_sequence0 read_only d).2 =
  (false, false, kMaxSequenceNumber).
Proof.
  intros Hmode. unfold RecoverLogFiles. cbv zeta.
  set (r0 := mkReplay _ _ _ _ _ _ _ _ _ d).
  pose proof (flags_replay_logs C (immutable_db_options d) Hmode read_only
                (MinLogNumberToKeep C (versions d)) log_numbers r0) as Hf.
  change (corruption_flags r0) with (false, false, kMaxSequenceNumber) in Hf.
  destruct (replay_logs _ _ _ _ _ _) as [r'|r'|s r']; proj;
    [| exact Hf | exact Hf].
  rewrite flags_RecoverLogFiles_finish. exact Hf.
Qed.

(** X14: outside point-in-time recovery the loop over the WALs never
    ends with the stop flag set, whatever the WALs hold: the check of the
    column families against the corrupted log passes, also in the mode
    that tolerates corrupted tail records, and [RecoverLogFiles] reports
    no corrupted log. *)
Theorem no_corrupted_log_outside_point_in_time (C : Collab)
    (log_numbers : list Z) (next_sequence0 : Z) (read_only : bool)
    (d : DBImpl) :
  wal_recovery_mode (immutable_db_options d) <> kPointInTimeRecovery ->
  let opts := immutable_db_options d in
  let r := state_of
             (replay_logs C opts read_only (MinLogNumberToKeep C (versions d))
                log_numbers
                (mkReplay St.OK next_sequence0 false false false
                   kMaxSequenceNumber false
                   (list_to_map
                      (List.map
                         (fun cfd =>
                            (GetID cfd,
                             set_ve_column_family (GetID cfd)
                               new_VersionEdit))
                         (column_family_set (versions d)))) [] d)) in
  cross_check opts r = None /\
  corrupted_log_found
    (RecoverLogFiles C log_numbers next_sequence0 read_only d).2 = false.
Proof.
  intros Hmode opts r.
  pose proof (flags_replay_logs C opts Hmode read_only
                (MinLogNumberToKeep C (versions d)) log_numbers
                (mkReplay St.OK next_sequence0 false false false
                   kMaxSequenceNumber false
                   (list_to_map
                      (List.map
                         (fun cfd =>
                            (GetID cfd,
                             set_ve_column_family (GetID cfd)
                               new_VersionEdit))
                         (column_family_set (versions d)))) [] d)) as Hf.
  fold r in Hf. unfold corruption_flags in Hf. proj.
  injection Hf as Hstop Hfound Hnumber.
  split.
  - unfold cross_check. rewrite Hstop. reflexivity.
  - pose proof (flags_RecoverLogFiles C log_numbers next_sequence0 read_only
                  d Hmode) as Hrl.
    unfold corruption_flags in Hrl. injection Hrl as _ Hrl _. exact Hrl.
Qed.

Lemma no_corrupted_log_outside_point_in_time_witness :
  corrupted_log_found
    (RecoverLogFiles Scenario.damaged_wal [4] kMaxSequenceNumber false
       (Scenario.recovering_with Scenario.relaxed_options
          [Scenario.default_cfd 0])).2 = false.
Proof.
  apply (no_corrupted_log_outside_point_in_time Scenario.damaged_wal [4]
           kMaxSequenceNumber false
           (Scenario.recovering_with Scenario.relaxed_options
              [Scenario.default_cfd 0])).
  vm_compute. discriminate.
Defined.

(** The options of the database object are immutable. *)
Lemma opts_CreateAndNewDirectory (C : Collab) (dirname : string)
    (d : DBImpl) :
  immutable_db_options (CreateAndNewDirectory C dirname d).2 =
  immutable_db_options d.
Proof.
  unfold CreateAndNewDirectory. cbv zeta. destruct (negb (ok _)); reflexivity.
Qed.

Lemma opts_SetDirectories_data_paths (C : Collab) (dbname : string)
    (data_paths : list DbPath) (d : DBImpl) :
  immutable_db_options (SetDirectories_data_paths C dbname data_paths d).2 =
  immutable_db_options d.
Proof.
  revert d. induction data_paths as [|p data_paths IH]; intros d;
    cbn [SetDirectories_data_paths]; [reflexivity |].
  cbv zeta. case_bool_decide; [apply IH |].
  destruct (negb (ok _)); [apply opts_CreateAndNewDirectory |].
  rewrite IH. apply opts_CreateAndNewDirectory.
Qed.

Lemma opts_SetDirectories (C : Collab) (dbname wal_dir : string)
    (data_paths : list DbPath) (d : DBImpl) :
  immutable_db_options (SetDirectories C dbname wal_dir data_paths d).2 =
  immutable_db_options d.
Proof.
  unfold SetDirectories. cbv zeta.
  destruct (negb (ok (CreateAndNewDirectory C dbname d).1));
    [apply opts_CreateAndNewDirectory |].
  destruct (negb (string_empty wal_dir) && bool_decide (dbname <> wal_dir)).
  - destruct (negb (ok _)).
    + rewrite !opts_CreateAndNewDirectory. reflexivity.
    + rewrite opts_SetDirectories_data_paths, !opts_CreateAndNewDirectory.
      reflexivity.
  - destruct (negb (ok _)); [apply opts_CreateAndNewDirectory |].
    rewrite opts_SetDirectories_data_paths. apply opts_CreateAndNewDirectory.
Qed.

Lemma opts_NewDB (C : Collab) (d : DBImpl) :
  immutable_db_options (NewDB C d).2 = immutable_db_options d.
Proof.
  unfold NewDB. cbv zeta. repeat (case_match; try reflexivity).
Qed.

Lemma opts_InitPersistStatsColumnFamily (C : Collab) (d : DBImpl) :
  immutable_db_options (InitPersistStatsColumnFamily C d).2 =
  immutable_db_options d.
Proof.
  unfold InitPersistStatsColumnFamily. cbv zeta.
  destruct (GetColumnFamilyByName _ _); reflexivity.
Qed.

Lemma Recover_logs_outside_point_in_time (C : Collab)
    (read_only e1 e2 is_new_db : bool) (recovered_seq : option Z)
    (d : DBImpl) :
  wal_recovery_mode (immutable_db_options d) <> kPointInTimeRecovery ->
  (Recover_logs C read_only e1 e2 is_new_db recovered_seq d).1.2 =
  recovered_seq.
Proof.
  intros Hmode. unfold Recover_logs. cbv zeta.
  destruct (IsNotFound _); [reflexivity |].
  destruct (negb (ok _)); [reflexivity |].
  destruct (collect_logs _ _ _ _) as [s|logs]; [reflexivity |].
  destruct (_ && e1); [reflexivity |].
  destruct (_ && _ && _); [reflexivity |].
  destruct (bool_decide _); [| reflexivity].
  unfold Recover_replay. cbv zeta.
  pose proof (flags_RecoverLogFiles C (merge_sort Z.le logs)
                kMaxSequenceNumber read_only d Hmode) as Hfound.
  unfold corruption_flags in Hfound. injection Hfound as _ Hfound _.
  rewrite Hfound.
  destruct (negb (ok _)), recovered_seq; reflexivity.
Qed.

(** X15: outside point-in-time recovery [Recover] hands back
    [*recovered_seq] as it received it, whatever it finds on disk and
    however it ends. *)
Theorem Recover_keeps_recovered_seq_outside_point_in_time (C : Collab)
    (column_families : list ColumnFamilyDescriptor)
    (read_only e1 e2 : bool) (recovered_seq : option Z) (d : DBImpl) :
  wal_recovery_mode (immutable_db_options d) <> kPointInTimeRecovery ->
  (Recover C column_families read_only e1 e2 recovered_seq d).1.2 =
  recovered_seq.
Proof.
  intros Hmode. unfold Recover. cbv zeta.
  repeat first
    [ reflexivity
    | rewrite Recover_options_file_recovered_seq
    | apply Recover_logs_outside_point_in_time; unfold emit; proj;
      rewrite ?opts_InitPersistStatsColumnFamily; proj;
      rewrite ?opts_NewDB; proj;
      rewrite ?opts_SetDirectories; exact Hmode
    | match goal with
      | |- context [if ?b then _ else _] =>
          lazymatch type of b with
          | bool => destruct b
          end
      end; cbv beta iota
    | match goal with
      | |- context [match ?x with _ => _ end] => destruct x; reflexivity
      end ].
Qed.

Lemma Recover_keeps_recovered_seq_outside_point_in_time_witness :
  (Recover Scenario.damaged_wal [Scenario.default_cf] false false false
     (Some kMaxSequenceNumber)
     (Scenario.recovering_with Scenario.relaxed_options
        [Scenario.default_cfd 0])).1.2 = Some kMaxSequenceNumber.
Proof.
  apply (Recover_keeps_recovered_seq_outside_point_in_time
           Scenario.damaged_wal [Scenario.default_cf] false false false
           (Some kMaxSequenceNumber)
           (Scenario.recovering_with Scenario.relaxed_options
              [Scenario.default_cfd 0])).
  vm_compute. discriminate.
Defined.

(** ** A WAL filter that lets every record pass *)

Section PassingFilter.

Context (C : Collab) (filter : WalFilter).
Hypothesis Hpass : forall log_number batch, exists new_batch,
  LogRecordFound filter log_number batch =
  (kContinueProcessing, new_batch, false).

Lemma passing_process_record (read_only : bool) (log_number : Z)
    (reporter : LogReporter) (rec : Slice) (batch : WriteBatch) (r : Replay) :
  process_record (set_wal_filter (Some filter) C) read_only log_number
    reporter rec batch r =
  process_record (set_wal_filter None C) read_only log_number reporter rec
    batch r.
Proof.
  unfold process_record. cbn [wal_filter set_wal_filter].
  unfold filter_record. cbv zeta.
  destruct (Hpass log_number batch) as [new_batch ->]. reflexivity.
Qed.

Lemma passing_replay_record (opts : DBOptions) (read_only : bool)
    (log_number : Z) (reporter : LogReporter) (rec : Slice) (r : Replay) :
  replay_record (set_wal_filter (Some filter) C) opts read_only log_number
    reporter rec r =
  replay_record (set_wal_filter None C) opts read_only log_number reporter
    rec r.
Proof.
  unfold replay_record. cbv zeta. rewrite passing_process_record.
  reflexivity.
Qed.

Lemma passing_read_loop (opts : DBOptions) (read_only : bool)
    (log_number : Z) (reporter : LogReporter) (reads : list ReadRecord)
    (r : Replay) :
  read_loop (set_wal_filter (Some filter) C) opts read_only log_number
    reporter reads r =
  read_loop (set_wal_filter None C) opts read_only log_number reporter
    reads r.
Proof.
  revert r. induction reads as [|rd reads IH]; intros r; cbn [read_loop];
    [reflexivity |].
  destruct (stop_replay_by_wal_filter r); [reflexivity |].
  destruct (record rd) as [rec|]; [| reflexivity].
  destruct (negb (ok _)); [reflexivity |].
  rewrite passing_replay_record.
  destruct (replay_record _ _ _ _ _ _ _) as [r'|r'|s r'];
    [apply IH | reflexivity | reflexivity].
Qed.

Lemma passing_replay_log (opts : DBOptions) (read_only : bool)
    (min_log_number log_number : Z) (r : Replay) :
  replay_log (set_wal_filter (Some filter) C) opts read_only min_log_number
    log_number r =
  replay_log (set_wal_filter None C) opts read_only min_log_number
    log_number r.
Proof.
  unfold replay_log. cbv zeta. rewrite passing_read_loop. reflexivity.
Qed.

Lemma passing_replay_logs (opts : DBOptions) (read_only : bool)
    (min_log_number : Z) (log_numbers : list Z) (r : Replay) :
  replay_logs (set_wal_filter (Some filter) C) opts read_only min_log_number
    log_numbers r =
  replay_logs (set_wal_filter None C) opts read_only min_log_number
    log_numbers r.
Proof.
  revert r. induction log_numbers as [|n log_numbers IH]; intros r;
    cbn [replay_logs]; [reflexivity |].
  rewrite passing_replay_log.
  destruct (replay_log _ _ _ _ _ _) as [r'|r'|s r'];
    [apply IH | reflexivity | reflexivity].
Qed.

End PassingFilter.

(** X16: a WAL filter that answers [kContinueProcessing] for every record
    and never reports a changed batch makes no difference to the recovery
    of the WALs: the status, the replay state and all calls are those of
    a recovery without WAL filter. *)
Theorem passing_wal_filter_is_no_filter (C : Collab) (filter : WalFilter)
    (log_numbers : list Z) (next_sequence0 : Z) (read_only : bool)
    (d : DBImpl) :
  (forall log_number batch, exists new_batch,
     LogRecordFound filter log_number batch =
     (kContinueProcessing, new_batch, false)) ->
  RecoverLogFiles (set_wal_filter (Some filter) C) log_numbers next_sequence0
    read_only d =
  RecoverLogFiles (set_wal_filter None C) log_numbers next_sequence0
    read_only d.
Proof.
  intros Hpass. unfold RecoverLogFiles. cbv zeta.
  rewrite (passing_replay_logs C filter Hpass).
  reflexivity.
Qed.

Lemma passing_wal_filter_is_no_filter_witness :
  RecoverLogFiles
    (set_wal_filter (Some Scenario.passing_filter) Scenario.clean_wal) [4]
    kMaxSequenceNumber false (Scenario.recovering [Scenario.default_cfd 0]) =
  RecoverLogFiles (set_wal_filter None Scenario.clean_wal) [4]
    kMaxSequenceNumber false (Scenario.recovering [Scenario.default_cfd 0]).
Proof.
  apply (passing_wal_filter_is_no_filter Scenario.clean_wal
           Scenario.passing_filter).
  intros log_number batch. exists batch. reflexivity.
Defined.

(** ** The WALs found in the WAL directory *)

Lemma collect_logs_existing (C : Collab) (filenames : list string)
    (logs : list Z) :
  collect_logs C false filenames logs =
  inr (logs ++ omap (log_number_of C) filenames).
Proof.
  revert logs. induction filenames as [|f filenames IH]; intros logs;
    cbn [collect_logs omap list_omap].
  - rewrite app_nil_r. reflexivity.
  - assert (Hf : log_number_of C f =
                 match ParseFileName C f with
                 | Some (number, kLogFile) => Some number
                 | _ => None
                 end) by reflexivity.
    rewrite Hf. clear Hf.
    destruct (ParseFileName C f) as [[number []]|]; rewrite IH;
      rewrite <- ?app_assoc; reflexivity.
Qed.

Lemma collect_logs_new (C : Collab) (filenames : list string)
    (logs : list Z) :
  match collect_logs C true filenames logs with
  | inl s => code s = kCorruption /\ omap (log_number_of C) filenames <> []
  | inr logs' => logs' = logs /\ omap (log_number_of C) filenames = []
  end.
Proof.
  induction filenames as [|f filenames IH];
    cbn [collect_logs omap list_omap]; [split; reflexivity |].
  assert (Hf : log_number_of C f =
               match ParseFileName C f with
               | Some (number, kLogFile) => Some number
               | _ => None
               end) by reflexivity.
  rewrite Hf. clear Hf.
  destruct (ParseFileName C f) as [[number []]|]; try exact IH.
  split; [reflexivity | discriminate].
Qed.

(** X17: what [Recover] does with the names in the WAL directory once it
    has listed them.  Without a WAL among them it keeps the status of the
    listing and the database object.  A WAL makes the creation of a new
    database fail, and an open that asked for [error_if_log_file_exist],
    or for [error_if_data_exists_in_logs] when a WAL has data; the status
    is then a Corruption and nothing is replayed.  In every other case the
    WALs named are replayed. *)
Theorem Recover_logs_gates (C : Collab)
    (read_only error_if_log_file_exist error_if_data_exists_in_logs
       is_new_db : bool)
    (recovered_seq : option Z) (d : DBImpl) :
  let gc := GetChildren C (wal_dir (immutable_db_options d)) in
  let wals := omap (log_number_of C) gc.2 in
  let out := Recover_logs C read_only error_if_log_file_exist
               error_if_data_exists_in_logs is_new_db recovered_seq d in
  let refused :=
    is_new_db || error_if_log_file_exist
    || (error_if_data_exists_in_logs && data_exists_in_logs C wals) in
  ok gc.1 = true ->
  (wals = [] -> out = (gc.1, recovered_seq, d)) /\
  (wals <> [] -> refused = true ->
   code out.1.1 = kCorruption /\ out.1.2 = recovered_seq /\ out.2 = d) /\
  (wals <> [] -> refused = false ->
   out = Recover_replay C read_only recovered_seq wals d).
Proof.
  intros gc wals out refused Hok. unfold out, Recover_logs. cbv zeta.
  fold gc. rewrite (ok_not_IsNotFound _ Hok), Hok. cbn [negb].
  destruct is_new_db.
  - pose proof (collect_logs_new C gc.2 []) as Hnew. fold wals in Hnew.
    destruct (collect_logs C true gc.2 []) as [s|logs].
    + destruct Hnew as [Hs Hne].
      split; [intros H; contradiction |].
      split; [intros _ _; repeat split; exact Hs |].
      intros _ H. discriminate H.
    + destruct Hnew as [-> Hnil].
      rewrite bool_decide_eq_false_2 by (intros H; apply H; reflexivity).
      cbn [andb].
      split; [reflexivity |].
      split; intros H; contradiction.
  - rewrite collect_logs_existing. cbn [app]. fold wals.
    unfold refused. cbn [orb].
    destruct (decide (wals = [])) as [Hnil | Hne].
    + rewrite bool_decide_eq_false_2 by (intros H; apply H; exact Hnil).
      cbn [andb].
      split; [reflexivity |]. split; intros H; contradiction.
    + rewrite bool_decide_eq_true_2 by exact Hne. cbn [andb].
      split; [intros H; contradiction |].
      destruct error_if_log_file_exist; cbn [orb].
      * split; [intros _ _; repeat split | intros _ H; discriminate H].
      * destruct (error_if_data_exists_in_logs && data_exists_in_logs C wals).
        -- split; [intros _ _; repeat split | intros _ H; discriminate H].
        -- split; [intros _ H; discriminate H | reflexivity].
Qed.

Lemma Recover_logs_gates_witness :
  let d := Scenario.recovering [Scenario.default_cfd 0] in
  code (Recover_logs Scenario.clean_wal false false false true None d).1.1 =
  kCorruption.
Proof.
  cbv zeta.
  destruct (Recover_logs_gates Scenario.clean_wal false false false true
              None (Scenario.recovering [Scenario.default_cfd 0]))
    as (_ & Hrefused & _).
  - vm_compute. reflexivity.
  - apply Hrefused; [vm_compute; discriminate | reflexivity].
Defined.



(** ** The directories of the database *)

Lemma CreateAndNewDirectory_calls (C : Collab) (dirname : string)
    (d : DBImpl) :
  let out := CreateAndNewDirectory C dirname d in
  ok out.1 = ok (CreateDirIfMissing C dirname) && ok (NewDirectory C dirname)
  /\ (ok out.1 = true ->
      trace out.2 =
      trace d ++ [EvCreateDirIfMissing dirname; EvNewDirectory dirname])
  /\ only_calls directory_or_lock_call d out.2.
Proof.
  unfold CreateAndNewDirectory. cbv zeta.
  destruct (ok (CreateDirIfMissing C dirname)) eqn:Hc; cbn [negb andb fst snd].
  - split; [reflexivity |]. unfold emit. proj. rewrite <- app_assoc.
    split; [reflexivity |].
    exists [EvCreateDirIfMissing dirname; EvNewDirectory dirname].
    split; [reflexivity | repeat constructor].
  - split; [exact Hc |]. split; [rewrite Hc; discriminate |].
    exists [EvCreateDirIfMissing dirname].
    split; [reflexivity | repeat constructor].
Qed.

Lemma SetDirectories_data_paths_calls (C : Collab) (dbname : string)
    (data_paths : list DbPath) (d : DBImpl) :
  let dirs := List.filter (fun p => negb (bool_decide (p = dbname)))
                (List.map path data_paths) in
  let out := SetDirectories_data_paths C dbname data_paths d in
  ok out.1 =
  forallb (fun p => ok (CreateDirIfMissing C p) && ok (NewDirectory C p))
    dirs
  /\ (ok out.1 = true ->
      trace out.2 =
      trace d
      ++ List.concat
           (List.map (fun p => [EvCreateDirIfMissing p; EvNewDirectory p])
              dirs))
  /\ only_calls directory_or_lock_call d out.2.
Proof.
  cbv zeta. revert d. induction data_paths as [|p data_paths IH]; intros d;
    cbn [SetDirectories_data_paths List.map List.filter].
  - cbn [forallb List.map List.concat fst snd]. rewrite app_nil_r.
    split; [reflexivity |]. split; [reflexivity |]. apply only_calls_refl.
  - cbv zeta. case_bool_decide as Hp; cbn [negb]; [apply IH |].
    cbn [forallb List.map List.concat].
    destruct (CreateAndNewDirectory_calls C (path p) d) as (Hok & Htr & Hc).
    destruct (ok (CreateAndNewDirectory C (path p) d).1) eqn:Hs;
      cbn [negb].
    + rewrite <- Hok. cbn [andb].
      destruct (IH (CreateAndNewDirectory C (path p) d).2)
        as (Hok' & Htr' & Hc').
      split; [exact Hok' |].
      split; [| eapply only_calls_trans; eassumption].
      intros H. rewrite (Htr' H), (Htr eq_refl), <- app_assoc. reflexivity.
    + rewrite <- Hok. cbn [andb]. rewrite Hs.
      split; [reflexivity |]. split; [discriminate | exact Hc].
Qed.

(** [SetDirectories] makes no call but those on directories. *)
Lemma SetDirectories_only_calls (C : Collab) (dbname wal_dir : string)
    (data_paths : list DbPath) (d : DBImpl) :
  only_calls directory_or_lock_call d
    (SetDirectories C dbname wal_dir data_paths d).2.
Proof.
  unfold SetDirectories. cbv zeta.
  destruct (CreateAndNewDirectory_calls C dbname d) as (_ & _ & Hc).
  destruct (ok (CreateAndNewDirectory C dbname d).1) eqn:Hs; cbn [negb];
    [| exact Hc].
  destruct (negb (string_empty wal_dir) && bool_decide (dbname <> wal_dir)).
  - destruct (CreateAndNewDirectory_calls C wal_dir
                (CreateAndNewDirectory C dbname d).2) as (_ & _ & Hc2).
    destruct (negb (ok _)).
    + eapply only_calls_trans; eassumption.
    + destruct (SetDirectories_data_paths_calls C dbname data_paths
                  (CreateAndNewDirectory C wal_dir
                     (CreateAndNewDirectory C dbname d).2).2)
        as (_ & _ & Hc3).
      eapply only_calls_trans; [exact Hc |].
      eapply only_calls_trans; eassumption.
  - rewrite Hs. cbn [negb].
    destruct (SetDirectories_data_paths_calls C dbname data_paths
                (CreateAndNewDirectory C dbname d).2) as (_ & _ & Hc3).
    eapply only_calls_trans; eassumption.
Qed.

(** X19: [SetDirectories] goes through the database directory, the WAL
    directory when it is named and is another one, and the data paths
    other than the database directory; it creates each directory if it is
    missing and opens it, in this order.  It returns OK exactly when all
    of these calls succeed, and it never makes another call. *)
Theorem SetDirectories_calls (C : Collab) (dbname wal_dir : string)
    (data_paths : list DbPath) (d : DBImpl) :
  let dirs := directories_to_set dbname wal_dir data_paths in
  let out := SetDirectories C dbname wal_dir data_paths d in
  ok out.1 =
  forallb (fun p => ok (CreateDirIfMissing C p) && ok (NewDirectory C p))
    dirs
  /\ (ok out.1 = true ->
      trace out.2 =
      trace d
      ++ List.concat
           (List.map (fun p => [EvCreateDirIfMissing p; EvNewDirectory p])
              dirs))
  /\ only_calls directory_or_lock_call d out.2.
Proof.
  cbv zeta. unfold SetDirectories, directories_to_set. cbv zeta.
  cbn [forallb List.map List.concat].
  destruct (CreateAndNewDirectory_calls C dbname d) as (Hok & Htr & Hc).
  destruct (ok (CreateAndNewDirectory C dbname d).1) eqn:Hs; cbn [negb];
    rewrite <- Hok; cbn [andb];
    [| rewrite Hs; split; [reflexivity |];
       split; [discriminate | exact Hc]].
  destruct (negb (string_empty wal_dir) && bool_decide (dbname <> wal_dir)).
  - cbn [app forallb List.map List.concat].
    destruct (CreateAndNewDirectory_calls C wal_dir
                (CreateAndNewDirectory C dbname d).2)
      as (Hok2 & Htr2 & Hc2).
    destruct (ok (CreateAndNewDirectory C wal_dir
                    (CreateAndNewDirectory C dbname d).2).1) eqn:Hs2;
      cbn [negb];
      rewrite <- Hok2; cbn [andb].
    + destruct (SetDirectories_data_paths_calls C dbname data_paths
                  (CreateAndNewDirectory C wal_dir
                     (CreateAndNewDirectory C dbname d).2).2)
        as (Hok3 & Htr3 & Hc3).
      split; [exact Hok3 |].
      split; [| eapply only_calls_trans; [exact Hc |];
                eapply only_calls_trans; eassumption].
      intros H. rewrite (Htr3 H), (Htr2 eq_refl), (Htr eq_refl).
      rewrite <- !app_assoc. reflexivity.
    + rewrite Hs2. split; [reflexivity |].
      split; [discriminate | eapply only_calls_trans; eassumption].
  - cbn [app]. rewrite Hs. cbn [negb].
    destruct (SetDirectories_data_paths_calls C dbname data_paths (CreateAndNewDirectory C dbname d).2)
      as (Hok3 & Htr3 & Hc3).
    split; [exact Hok3 |].
    split; [| eapply only_calls_trans; eassumption].
    intros H. rewrite (Htr3 H), (Htr eq_refl).
    rewrite <- !app_assoc. reflexivity.
Qed.

Lemma SetDirectories_calls_witness :
  let d := Scenario.recovering [Scenario.default_cfd 0] in
  trace (SetDirectories Scenario.clean_wal "db" "db/wal"
           [mkDbPath "db" 0; mkDbPath "data" 0] d).2 =
  [EvCreateDirIfMissing "db"; EvNewDirectory "db";
   EvCreateDirIfMissing "db/wal"; EvNewDirectory "db/wal";
   EvCreateDirIfMissing "data"; EvNewDirectory "data"].
Proof.
  cbv zeta.
  destruct (SetDirectories_calls Scenario.clean_wal "db" "db/wal"
              [mkDbPath "db" 0; mkDbPath "data" 0]
              (Scenario.recovering [Scenario.default_cfd 0]))
    as (_ & Htrace & _).
  rewrite Htrace; vm_compute; reflexivity.
Defined.

(** ** [Recover] on a database it must not create or must not find *)

(** X20: when the CURRENT file is missing and [create_if_missing] is not
    set, or the file is there and [error_if_exists] is set, a read-write
    [Recover] fails and leaves [*recovered_seq] alone.  It has made no
    call but those that set the directories and take the lock: no file
    of a database is created.  When the directories were set and the lock
    was taken, the status is an InvalidArgument and the lock is held. *)
Theorem Recover_refuses_without_creating (C : Collab)
    (column_families : list ColumnFamilyDescriptor) (e1 e2 : bool)
    (recovered_seq : option Z) (d : DBImpl) :
  let opts := immutable_db_options d in
  let probe := FileExists C CurrentFileName in
  let sd := SetDirectories C (dbname d) (wal_dir opts) (db_paths opts) d in
  let out := Recover C column_families false e1 e2 recovered_seq d in
  (IsNotFound probe = true /\ create_if_missing opts = false) \/
  (ok probe = true /\ error_if_exists opts = true) ->
  ok out.1.1 = false /\
  out.1.2 = recovered_seq /\
  only_calls directory_or_lock_call d out.2 /\
  (ok sd.1 = true -> ok (LockFile C) = true ->
   code out.1.1 = kInvalidArgument /\ db_lock out.2 = true).
Proof.
  intros opts probe sd out Hprobe.
  assert (Hcases : (IsNotFound probe = true /\ create_if_missing opts = false)
                   \/ (IsNotFound probe = false /\ ok probe = true /\
                       error_if_exists opts = true)).
  { destruct Hprobe as [H | [Hok He]]; [left; exact H | right].
    split; [apply ok_not_IsNotFound; exact Hok | split; assumption]. }
  clear Hprobe.
  pose proof (SetDirectories_only_calls C (dbname d) (wal_dir opts)
                (db_paths opts) d) as Hdirs.
  fold sd in Hdirs.
  unfold out, Recover. cbv zeta. fold opts. fold sd. fold probe.
  cbn [negb].
  destruct (ok sd.1) eqn:Hsd; cbn [negb].
  - destruct (ok (LockFile C)) eqn:Hlock; cbn [negb].
    + assert (Hl : only_calls directory_or_lock_call d
                     (set_db_lock true (emit EvLockFile sd.2))).
      { eapply only_calls_trans; [exact Hdirs |].
        apply (only_calls_one _ EvLockFile); [exact I | reflexivity]. }
      destruct Hcases as [[Hnf Hc] | (Hnf & Hok & He)]; rewrite Hnf.
      * proj. rewrite Hc. cbn [fst snd].
        split; [reflexivity |]. split; [reflexivity |].
        split; [exact Hl |]. intros _ _. split; reflexivity.
      * rewrite Hok. proj. rewrite He. cbn [fst snd].
        split; [reflexivity |]. split; [reflexivity |].
        split; [exact Hl |]. intros _ _. split; reflexivity.
    + cbn [fst snd]. split; [exact Hlock |]. split; [reflexivity |].
      split; [| intros _ H; discriminate H].
      eapply only_calls_trans; [exact Hdirs |].
      apply (only_calls_one _ EvLockFile); [exact I | reflexivity].
  - destruct sd as [s0 d0] eqn:Esd. cbn [fst snd] in *.
    split; [exact Hsd |]. split; [reflexivity |].
    split; [exact Hdirs | intros H; discriminate H].
Qed.

Lemma Recover_refuses_without_creating_witness :
  let d := Scenario.recovering [Scenario.default_cfd 0] in
  code (Recover Scenario.current_fails [Scenario.default_cf] false false
          false None d).1.1 = kInvalidArgument.
Proof.
  cbv zeta.
  destruct (Recover_refuses_without_creating Scenario.current_fails
              [Scenario.default_cf] false false None
              (Scenario.recovering [Scenario.default_cfd 0]))
    as (_ & _ & _ & H).
  - left. split; vm_compute; reflexivity.
  - apply H; vm_compute; reflexivity.
Defined.

(** ** The numbers of the tables built during the replay *)

Lemma tables_built_app (calls calls' : list Event) :
  tables_built (calls ++ calls') = tables_built calls ++ tables_built calls'.
Proof. unfold tables_built. apply omap_app. Qed.

(** X21: the tables built while the WALs are replayed get file numbers
    that were free when the replay started and are taken when it ends,
    each greater than the one before: no number is handed out twice, and
    the counter of file numbers never goes back. *)
Theorem replay_builds_tables_under_fresh_numbers (C : Collab)
    (opts : DBOptions) (read_only : bool) (min_log_number : Z)
    (log_numbers : list Z) (r : Replay) :
  let r' := state_of (replay_logs C opts read_only min_log_number
                        log_numbers r) in
  let counter := next_file_number (versions (impl r)) in
  let counter' := next_file_number (versions (impl r')) in
  counter <= counter' /\
  exists calls,
    trace (impl r') = trace (impl r) ++ calls /\
    StronglySorted Z.lt (tables_built calls) /\
    Forall (fun number => counter <= number < counter') (tables_built calls).
Proof.
  cbv zeta.
  apply (invariant_replay_logs C read_only
           (fun d d' =>
              next_file_number (versions d)
              <= next_file_number (versions d') /\
              exists calls,
                trace d' = trace d ++ calls /\
                StronglySorted Z.lt (tables_built calls) /\
                Forall (fun number =>
                          next_file_number (versions d) <= number
                          < next_file_number (versions d'))
                  (tables_built calls))).
  - intros d. split; [lia |]. exists []. rewrite app_nil_r.
    repeat split; constructor.
  - intros d1 d2 d3 (Hn1 & c1 & E1 & S1 & F1) (Hn2 & c2 & E2 & S2 & F2).
    split; [lia |]. exists (c1 ++ c2).
    rewrite E2, E1, app_assoc, tables_built_app.
    split; [reflexivity |].
    rewrite Forall_forall in F1, F2. split.
    + apply StronglySorted_app_2; [| exact S1 | exact S2].
      intros x1 x2 H1 H2. specialize (F1 x1 H1). specialize (F2 x2 H2). lia.
    + apply Forall_app. split; apply Forall_forall; intros x Hx.
      * specialize (F1 x Hx). lia.
      * specialize (F2 x Hx). lia.
  - intros n d. proj. rewrite MarkFileNumberUsed_next_file_number.
    unfold emit. proj. split; [lia |].
    exists [EvMarkFileNumberUsed n]. repeat split; constructor.
  - intros n batch cfs d. unfold emit. proj. split; [lia |].
    exists [EvInsertInto n batch]. repeat split; constructor.
  - intros seq d _. proj. split; [lia |]. exists []. rewrite app_nil_r.
    repeat split; constructor.
  - intros _ cfd edit d. unfold WriteLevel0TableForRecovery, NewFileNumber.
    cbv zeta. unfold emit. proj. split; [lia |].
    exists [EvBuildTable (GetID cfd) (next_file_number (versions d))].
    split; [reflexivity |]. cbn [tables_built omap list_omap].
    split; [repeat constructor |].
    constructor; [lia | constructor].
  - intros _ id f d. unfold update_cfd. proj. split; [lia |].
    exists []. rewrite app_nil_r. repeat split; constructor.
Qed.

(** ** The end of the recovery when nothing is flushed *)

(** X22: with [avoid_flush_during_recovery], and when the replay flushed
    no memtable, the loop over the column families at the end of the
    recovery builds no table and keeps the memtables: the database object
    and the status are unchanged.  It reports data seen exactly when a
    column family that is not past the last WAL has a memtable with
    entries, and it leaves alone the log number in the edit of a column
    family all of whose instances are past the last WAL or hold entries,
    so that the WALs are replayed again by the next open. *)
Theorem finalize_without_flush (C : Collab) (opts : DBOptions)
    (max_log_number : Z) (cfds : list ColumnFamilyData) (data_seen : bool)
    (r : Replay) :
  flushed r = false ->
  avoid_flush_during_recovery opts = true ->
  let out := finalize_column_families C opts max_log_number cfds data_seen
               r in
  impl out.2 = impl r /\
  status out.2 = status r /\
  flushed out.2 = false /\
  out.1 =
  data_seen
  || existsb (fun cfd => negb (bool_decide (GetLogNumber cfd > max_log_number))
                         && bool_decide (first_seqno (mem cfd) <> 0)) cfds /\
  forall id,
    (forall cfd, cfd ∈ cfds -> GetID cfd = id ->
                 GetLogNumber cfd > max_log_number \/
                 first_seqno (mem cfd) <> 0) ->
    version_edits out.2 !! id = version_edits r !! id.
Proof.
  intros Hflushed Havoid. cbv zeta. revert data_seen r Hflushed.
  induction cfds as [|cfd cfds IH]; intros data_seen r Hflushed;
    cbn [finalize_column_families existsb].
  - rewrite orb_false_r. repeat split; assumption.
  - cbv zeta. case_bool_decide as Hpast; cbn [negb andb orb].
    + destruct (IH data_seen r Hflushed) as (Hi & Hs & Hf & Hd & He).
      repeat split; try assumption.
      intros id Hid. apply He. intros cfd' Hin. apply Hid.
      apply list_elem_of_further. exact Hin.
    + rewrite Hflushed, Havoid. cbn [negb orb]. rewrite andb_false_r.
      cbn [andb]. rewrite Hflushed. cbn [orb].
      destruct (decide (first_seqno (mem cfd) = 0)) as [Hempty | Hempty].
      * rewrite (bool_decide_eq_false_2 (first_seqno (mem cfd) <> 0))
          by (intros H; apply H; exact Hempty).
        rewrite (bool_decide_eq_true_2 (first_seqno (mem cfd) = 0))
          by exact Hempty.
        rewrite orb_false_r. cbn [orb].
        destruct (IH data_seen
                    (set_version_edits
                       (<[GetID cfd :=
                            set_ve_log_number
                              (Some (wrap64 (max_log_number + 1)))
                              (find_edit (GetID cfd) (version_edits r))]>
                          (version_edits r)) r) Hflushed)
          as (Hi & Hs & Hf & Hd & He).
        repeat split; try assumption.
        intros id Hid. rewrite He.
        -- proj. apply lookup_insert_ne. intros Heq.
           destruct (Hid cfd (list_elem_of_here _ _) Heq) as [H | H];
             [apply Hpast; exact H | apply H; exact Hempty].
        -- intros cfd' Hin. apply Hid. apply list_elem_of_further.
           exact Hin.
      * rewrite (bool_decide_eq_true_2 (first_seqno (mem cfd) <> 0))
          by exact Hempty.
        rewrite (bool_decide_eq_false_2 (first_seqno (mem cfd) = 0))
          by exact Hempty.
        rewrite orb_true_r. cbn [orb].
        destruct (IH true r Hflushed) as (Hi & Hs & Hf & Hd & He).
        split; [exact Hi |]. split; [exact Hs |]. split; [exact Hf |].
        split; [rewrite Hd, ?orb_true_r; reflexivity |].
        intros id Hid. apply He. intros cfd' Hin. apply Hid.
        apply list_elem_of_further. exact Hin.
Qed.

Lemma finalize_without_flush_witness :
  let opts := set_avoid_flush_during_recovery true Scenario.default_options in
  let r := Scenario.start_replay
             (Scenario.recovering [Scenario.written_cfd]) in
  (finalize_column_families Scenario.clean_wal opts 4
     [Scenario.written_cfd] false r).1 = true.
Proof.
  cbv zeta.
  destruct (finalize_without_flush Scenario.clean_wal
              (set_avoid_flush_during_recovery true Scenario.default_options)
              4 [Scenario.written_cfd] false
              (Scenario.start_replay
                 (Scenario.recovering [Scenario.written_cfd]))
              eq_refl eq_refl) as (_ & _ & _ & Hseen & _).
  rewrite Hseen. vm_compute. reflexivity.
Defined.

(** ** The most recent OPTIONS file *)

Lemma latest_options_file_step (C : Collab) (f : string) (start : Z) :
  let next :=
    match ParseFileName C f with
    | Some (number, kOptionsFile) => Z.max number start
    | _ => start
    end in
  start <= next /\
  (forall number,
     ParseFileName C f = Some (number, kOptionsFile) -> number <= next) /\
  (next = start \/ ParseFileName C f = Some (next, kOptionsFile)).
Proof.
  cbv zeta.
  destruct (ParseFileName C f) as [[number []]|];
    try (split; [lia |]; split; [intros n Hn; discriminate Hn |];
         left; reflexivity).
  split; [lia |]. split; [intros n Hn; injection Hn as <-; lia |].
  destruct (Z.max_spec number start) as [[_ Hm] | [_ Hm]]; rewrite Hm;
    [left | right]; reflexivity.
Qed.

Lemma latest_options_file_from (C : Collab) (file_names : list string)
    (start : Z) :
  let step options_file_number fname :=
    match ParseFileName C fname with
    | Some (number, kOptionsFile) => Z.max number options_file_number
    | _ => options_file_number
    end in
  let n := fold_left step file_names start in
  start <= n /\
  (forall f number,
     f ∈ file_names -> ParseFileName C f = Some (number, kOptionsFile) ->
     number <= n) /\
  (n = start \/
   exists f, f ∈ file_names /\ ParseFileName C f = Some (n, kOptionsFile)).
Proof.
  cbv zeta. revert start.
  induction file_names as [|f file_names IH]; intros start;
    cbn [fold_left].
  - split; [lia |]. split; [| left; reflexivity].
    intros f number Hin. apply elem_of_nil in Hin. contradiction.
  - destruct (latest_options_file_step C f start) as (Hs1 & Hs2 & Hs3).
    set (next := match ParseFileName C f with
                 | Some (number, kOptionsFile) => Z.max number start
                 | _ => start
                 end) in *.
    destruct (IH next) as (Hle & Hmax & Hfrom).
    split; [lia |]. split.
    + intros g number Hin Hg.
      apply elem_of_cons in Hin as [-> | Hin]; [| eapply Hmax; eassumption].
      specialize (Hs2 number Hg). lia.
    + destruct Hfrom as [Heq | (g & Hin & Hg)].
      * rewrite Heq. destruct Hs3 as [Hs3 | Hs3]; [left; exact Hs3 |].
        right. exists f. split; [apply list_elem_of_here | exact Hs3].
      * right. exists g. split; [apply list_elem_of_further |]; assumption.
Qed.

(** X23: at the end of a read-only [Recover] that succeeds, the number of
    the OPTIONS file kept in the version set is the greatest number of an
    OPTIONS file in the database directory, and 0 when there is none.  A
    read-write [Recover] does not look for the file. *)
Theorem Recover_options_file_latest (C : Collab) (read_only : bool)
    (out : Status * option Z * DBImpl) :
  let res := Recover_options_file C read_only out in
  let listing := (GetChildren C (dbname out.2)).2 in
  let n := options_file_number (versions res.2) in
  (read_only = false -> res = out) /\
  (read_only = true -> ok res.1.1 = true ->
   0 <= n /\
   (forall f number,
      f ∈ listing -> ParseFileName C f = Some (number, kOptionsFile) ->
      number <= n) /\
   (n = 0 \/
    exists f, f ∈ listing /\ ParseFileName C f = Some (n, kOptionsFile))).
Proof.
  cbv zeta. unfold Recover_options_file. cbv zeta.
  split; [intros ->; reflexivity |].
  intros ->. destruct (ok (if ok out.1.1 then _ else _)) eqn:Hgn;
    cbn [fst snd]; [| intros H; rewrite H in Hgn; discriminate Hgn].
  intros _. proj. unfold latest_options_file.
  apply (latest_options_file_from C (GetChildren C (dbname out.2)).2 0).
Qed.

Lemma Recover_options_file_latest_witness :
  let out := (St.OK, None, Scenario.recovering [Scenario.default_cfd 0]) in
  options_file_number
    (versions (Recover_options_file Scenario.clean_wal true out).2) = 0.
Proof.
  cbv zeta.
  destruct (Recover_options_file_latest Scenario.clean_wal true
              (St.OK, None, Scenario.recovering [Scenario.default_cfd 0]))
    as (_ & H).
  destruct (H eq_refl) as (_ & _ & [Hn | (f & Hin & Hf)]).
  - vm_compute. reflexivity.
  - exact Hn.
  - vm_compute in Hin.
    apply elem_of_cons in Hin as [-> | Hin];
      [vm_compute in Hf; discriminate Hf |].
    apply elem_of_nil in Hin. contradiction.
Defined.

(** ** The persistent statistics column family *)



(** ** The column family handles *)

Lemma set_handles_without_creation (C : Collab)
    (cfs : list ColumnFamilyDescriptor) (handles : list string)
    (d : DBImpl) :
  let sh := set_handles C false cfs handles d in
  let found cf :=
    bool_decide (GetColumnFamilyByName (name cf)
                   (column_family_set (versions d)) <> None) in
  sh.2 = d /\
  ok sh.1.1 = forallb found cfs /\
  (ok sh.1.1 = true -> sh.1.2 = handles ++ List.map name cfs) /\
  (ok sh.1.1 = false -> code sh.1.1 = kInvalidArgument).
Proof.
  cbv zeta. revert handles.
  induction cfs as [|cf cfs IH]; intros handles;
    cbn [set_handles forallb List.map].
  - cbn [fst snd]. rewrite app_nil_r.
    split; [reflexivity |]. split; [reflexivity |].
    split; [reflexivity | discriminate].
  - destruct (GetColumnFamilyByName (name cf) _) as [cfd|] eqn:Hcf.
    + rewrite bool_decide_eq_true_2 by discriminate. cbn [andb].
      destruct (IH (handles ++ [name cf])) as (Hd & Hok & Hh & Hc).
      split; [exact Hd |]. split; [exact Hok |]. split; [| exact Hc].
      intros H. rewrite (Hh H), <- app_assoc. reflexivity.
    + rewrite bool_decide_eq_false_2 by (intros H; apply H; reflexivity).
      cbn [andb fst snd].
      split; [reflexivity |]. split; [reflexivity |].
      split; [intros H; discriminate H | reflexivity].
Qed.

(** X25: without [create_missing_column_families], [Open] creates no
    column family: binding the handles makes no call and changes nothing
    in the database object.  It succeeds exactly when every column family
    asked for is in the database, and the handles are then those of the
    families asked for, in the order given; a missing family is an
    InvalidArgument. *)
Theorem Open_set_handles_without_creation (C : Collab)
    (db_options : DBOptions) (column_families : list ColumnFamilyDescriptor)
    (s : Status) (d : DBImpl) :
  create_missing_column_families db_options = false ->
  let sh := Open_set_handles C db_options column_families s d in
  let found cf :=
    bool_decide (GetColumnFamilyByName (name cf)
                   (column_family_set (versions d)) <> None) in
  sh.2 = d /\
  ok sh.1.1 = ok s && forallb found column_families /\
  (ok sh.1.1 = true -> sh.1.2 = List.map name column_families) /\
  (ok s = true -> ok sh.1.1 = false -> code sh.1.1 = kInvalidArgument).
Proof.
  intros Hcreate. cbv zeta. unfold Open_set_handles. rewrite Hcreate.
  destruct (ok s) eqn:Hs; cbn [andb fst snd].
  - destruct (set_handles_without_creation C column_families [] d)
      as (Hd & Hok & Hh & Hc).
    split; [exact Hd |]. split; [exact Hok |]. split; [exact Hh |].
    intros _. exact Hc.
  - split; [reflexivity |]. split; [exact Hs |].
    split; [rewrite Hs; discriminate | discriminate].
Qed.

Lemma Open_set_handles_without_creation_witness :
  let d := Scenario.recovering [Scenario.default_cfd 0] in
  (Open_set_handles Scenario.clean_wal Scenario.default_options
     [Scenario.default_cf] St.OK d).1.2 = ["default"].
Proof.
  cbv zeta.
  destruct (Open_set_handles_without_creation Scenario.clean_wal
              Scenario.default_options [Scenario.default_cf] St.OK
              (Scenario.recovering [Scenario.default_cfd 0]) eq_refl)
    as (_ & _ & Hh & _).
  apply Hh. vm_compute. reflexivity.
Defined.
